(** * SVGBench remote rollout server

    A shallow embedding of the TypeScript sources of the serverless rollout
    endpoint, and the properties of it that the specification states.

    - [Js], [Json]: the JavaScript values the code inspects;
    - [StatusModel]: [src/models/status.ts];
    - [Exceptions]: [src/models/exceptions.ts];
    - [Environment]: [src/config/environment.ts];
    - [Zod], [Types]: the zod combinators in use and [src/models/types.ts];
    - [Tracing], [Async]: log payloads, and asynchronous code as state
      passing with a trace of the calls that went out;
    - [Transport]: [src/config/fireworks-transport.ts];
    - [Rollout], [Init], [Logger], [InitLogged]: the two versions of
      [api/init.ts] (one awaits [logToFireworks], one logs through the winston
      logger of [src/config/logger.ts]) and what they share;
    - [Expected], [Samples]: the tables the properties compare the code
      with, and concrete inputs.

    Not modelled: output on the console, the CORS headers of a response, the
    ['logged'] event of the transport. *)

From Stdlib Require Import ZArith Lia Ascii String QArith Qcanon.
From stdpp Require Import base option numbers list strings gmap.

Set Warnings "-register-all".
Local Open Scope string_scope.
Local Open Scope Z_scope.

(** ** JavaScript values that reach the error-handling code *)
Module Js.

(** Error classes, as the [instanceof] tests of the sources see them. The
    OpenAI SDK classes live in their own name space, as in the SDK
    ([OpenAI.NotFoundError] is not the server's [NotFoundError]). *)
Module OpenAI.
Inductive ErrorClass :=
| OpenAIError | APIError | APIUserAbortError
| APIConnectionError | APIConnectionTimeoutError
| BadRequestError | AuthenticationError | PermissionDeniedError
| NotFoundError | ConflictError | UnprocessableEntityError
| RateLimitError | InternalServerError.
End OpenAI.

(** [exceptions.ts], lines 12-117: the class [EvalProtocolError] and its
    sixteen subclasses. *)
Inductive EPClass :=
| EvalProtocolError
| CancelledError | UnknownError | InvalidArgumentError
| DeadlineExceededError | NotFoundError | AlreadyExistsError
| PermissionDeniedError | ResourceExhaustedError
| FailedPreconditionError | AbortedError | OutOfRangeError
| UnimplementedError | InternalError | UnavailableError
| DataLossError | UnauthenticatedError.

Inductive Class :=
| ObjectClass                       (* a plain object, e.g. {code: 'ECONNRESET'} *)
| ErrorClass                        (* the built-in Error *)
| TypeErrorClass                    (* the built-in TypeError *)
| OpenAIClass (c : OpenAI.ErrorClass)
| EPErrorClass (c : EPClass).

#[global] Instance OpenAI_class_eq_dec : EqDecision OpenAI.ErrorClass.
Proof. solve_decision. Defined.
#[global] Instance EPClass_eq_dec : EqDecision EPClass.
Proof. solve_decision. Defined.
#[global] Instance Class_eq_dec : EqDecision Class.
Proof. solve_decision. Defined.

(** [class X extends Y]: the super class of each class. In the OpenAI SDK
    every HTTP status error extends [APIError] directly, and
    [APIConnectionTimeoutError] extends [APIConnectionError]. *)
Definition super (c : Class) : option Class :=
  match c with
  | ObjectClass => None
  | ErrorClass => Some ObjectClass
  | TypeErrorClass => Some ErrorClass
  | OpenAIClass OpenAI.OpenAIError => Some ErrorClass
  | OpenAIClass OpenAI.APIError => Some (OpenAIClass OpenAI.OpenAIError)
  | OpenAIClass OpenAI.APIConnectionTimeoutError =>
      Some (OpenAIClass OpenAI.APIConnectionError)
  | OpenAIClass _ => Some (OpenAIClass OpenAI.APIError)
  | EPErrorClass EvalProtocolError => Some ErrorClass
  | EPErrorClass _ => Some (EPErrorClass EvalProtocolError)
  end.

(** The prototype chain of an instance of [c], walked at most [fuel]
    steps; no chain above is longer than six classes. *)
Fixpoint chain (fuel : nat) (c : Class) : list Class :=
  match fuel with
  | O => []
  | S n => c :: match super c with Some p => chain n p | None => [] end
  end.

Definition subclassOf (c d : Class) : bool := bool_decide (d ∈ chain 8 c).

(** An object as the handlers look at it: its class, its [message] and
    [code] properties when these hold a string, and the result of its
    conversion to a string. Objects are ordinary ones: reading a property or
    converting to a string does not throw. *)
Record Object := {
  obj_class : Class;
  obj_message : option string;
  obj_code : option string;
  obj_toString : string
}.

(** Any value a [catch (error: any)] clause can bind. *)
Inductive Value :=
| Undefined
| Null
| Primitive (str : string)     (* a string, number, boolean, ...; [str] is String(v) *)
| Obj (o : Object).

(** How a call ends. *)
Inductive Completion (A : Type) :=
| Returns (a : A)
| Throws (e : Value)
| Hangs.                       (* an awaited promise that never settles *)
Arguments Returns {A} a.
Arguments Throws {A} e.
Arguments Hangs {A}.

Definition cbind {A B} (c : Completion A) (k : A -> Completion B) : Completion B :=
  match c with
  | Returns a => k a
  | Throws e => Throws e
  | Hangs => Hangs
  end.

Definition TypeError (message : string) : Value :=
  Obj {| obj_class := TypeErrorClass; obj_message := Some message;
         obj_code := None; obj_toString := "TypeError: " ++ message |}.

(** [v instanceof C]: false on every value that is not an object. *)
Definition instanceof (v : Value) (c : Class) : bool :=
  match v with
  | Obj o => subclassOf (obj_class o) c
  | _ => false
  end.

(** [v.message] and [v.code]: reading a property of [null] or [undefined]
    throws a TypeError, a primitive has neither property. *)
Definition get_message (v : Value) : Completion (option string) :=
  match v with
  | Undefined => Throws (TypeError "Cannot read properties of undefined (reading 'message')")
  | Null => Throws (TypeError "Cannot read properties of null (reading 'message')")
  | Primitive _ => Returns None
  | Obj o => Returns (obj_message o)
  end.

Definition get_code (v : Value) : Completion (option string) :=
  match v with
  | Undefined => Throws (TypeError "Cannot read properties of undefined (reading 'code')")
  | Null => Throws (TypeError "Cannot read properties of null (reading 'code')")
  | Primitive _ => Returns None
  | Obj o => Returns (obj_code o)
  end.

(** [String(v)]. *)
Definition String_ (v : Value) : string :=
  match v with
  | Undefined => "undefined"
  | Null => "null"
  | Primitive s => s
  | Obj o => obj_toString o
  end.

(** [s || d] on strings: the empty string is falsy. *)
Definition or_else (s : option string) (d : string) : string :=
  match s with
  | Some x => if bool_decide (x = "") then d else x
  | None => d
  end.

Definition nullish (v : Value) : bool :=
  match v with Undefined | Null => true | _ => false end.

End Js.

(** ** [status.ts] *)
Module StatusModel.

Inductive StatusCode :=
| OK | CANCELLED | UNKNOWN | INVALID_ARGUMENT | DEADLINE_EXCEEDED
| NOT_FOUND | ALREADY_EXISTS | PERMISSION_DENIED | RESOURCE_EXHAUSTED
| FAILED_PRECONDITION | ABORTED | OUT_OF_RANGE | UNIMPLEMENTED
| INTERNAL | UNAVAILABLE | DATA_LOSS | UNAUTHENTICATED
| FINISHED | RUNNING | SCORE_INVALID.

#[global] Instance StatusCode_eq_dec : EqDecision StatusCode.
Proof. solve_decision. Defined.

(** The number behind each member of the enum. *)
Definition value (c : StatusCode) : Z :=
  match c with
  | OK => 0 | CANCELLED => 1 | UNKNOWN => 2 | INVALID_ARGUMENT => 3
  | DEADLINE_EXCEEDED => 4 | NOT_FOUND => 5 | ALREADY_EXISTS => 6
  | PERMISSION_DENIED => 7 | RESOURCE_EXHAUSTED => 8
  | FAILED_PRECONDITION => 9 | ABORTED => 10 | OUT_OF_RANGE => 11
  | UNIMPLEMENTED => 12 | INTERNAL => 13 | UNAVAILABLE => 14
  | DATA_LOSS => 15 | UNAUTHENTICATED => 16
  | FINISHED => 100 | RUNNING => 101 | SCORE_INVALID => 102
  end.

(** "Standard gRPC codes" are 0..16; 100..102 are the custom ones. *)
Definition standard (c : StatusCode) : bool :=
  (0 <=? value c) && (value c <=? 16).

Record ErrorInfo := {
  type_url : string;                          (* '@type' *)
  reason : option string;
  domain : option string;
  metadata : option (list (string * string))
}.

Record Status := {
  code : StatusCode;
  message : string;
  details : list ErrorInfo
}.

Definition _buildDetailsWithExtraInfo
    (extraInfo : option (list (string * string))) : list ErrorInfo :=
  match extraInfo with
  | None => []
  | Some info =>
      [ {| type_url := "type.googleapis.com/google.rpc.ErrorInfo";
           reason := Some "EXTRA_INFO";
           domain := Some "eval-protocol.com";
           metadata := Some info |} ]
  end.

Definition ok : Status := Build_Status OK "Success" [].
Definition rolloutRunning : Status := Build_Status RUNNING "Rollout is running" [].
Definition rolloutFinished : Status := Build_Status FINISHED "Rollout finished" [].

Definition invalidArgumentError (errorMessage : string) (details : list ErrorInfo) :=
  Build_Status INVALID_ARGUMENT errorMessage details.
Definition rolloutInvalidArgumentError errorMessage extraInfo :=
  invalidArgumentError errorMessage (_buildDetailsWithExtraInfo extraInfo).

Definition deadlineExceededError (errorMessage : string) (details : list ErrorInfo) :=
  Build_Status DEADLINE_EXCEEDED errorMessage details.
Definition rolloutDeadlineExceededError errorMessage extraInfo :=
  deadlineExceededError errorMessage (_buildDetailsWithExtraInfo extraInfo).

Definition notFoundError (errorMessage : string) (details : list ErrorInfo) :=
  Build_Status NOT_FOUND errorMessage details.
Definition rolloutNotFoundError errorMessage extraInfo :=
  notFoundError errorMessage (_buildDetailsWithExtraInfo extraInfo).

Definition alreadyExistsError (errorMessage : string) (details : list ErrorInfo) :=
  Build_Status ALREADY_EXISTS errorMessage details.
Definition rolloutAlreadyExistsError errorMessage extraInfo :=
  alreadyExistsError errorMessage (_buildDetailsWithExtraInfo extraInfo).

Definition permissionDeniedError (errorMessage : string) (details : list ErrorInfo) :=
  Build_Status PERMISSION_DENIED errorMessage details.
Definition rolloutPermissionDeniedError errorMessage extraInfo :=
  permissionDeniedError errorMessage (_buildDetailsWithExtraInfo extraInfo).

Definition resourceExhaustedError (errorMessage : string) (details : list ErrorInfo) :=
  Build_Status RESOURCE_EXHAUSTED errorMessage details.
Definition rolloutResourceExhaustedError errorMessage extraInfo :=
  resourceExhaustedError errorMessage (_buildDetailsWithExtraInfo extraInfo).

Definition internalError (errorMessage : string) (details : list ErrorInfo) :=
  Build_Status INTERNAL errorMessage details.
Definition rolloutInternalError errorMessage extraInfo :=
  internalError errorMessage (_buildDetailsWithExtraInfo extraInfo).

Definition unavailableError (errorMessage : string) (details : list ErrorInfo) :=
  Build_Status UNAVAILABLE errorMessage details.
Definition rolloutUnavailableError errorMessage extraInfo :=
  unavailableError errorMessage (_buildDetailsWithExtraInfo extraInfo).

(** The factories that the handlers do not call. *)
Definition evalRunning : Status := Build_Status RUNNING "Evaluation is running" [].
Definition evalFinished : Status := Build_Status FINISHED "Evaluation finished" [].

Definition cancelledError (errorMessage : string) (details : list ErrorInfo) :=
  Build_Status CANCELLED errorMessage details.
Definition rolloutCancelledError errorMessage extraInfo :=
  cancelledError errorMessage (_buildDetailsWithExtraInfo extraInfo).

Definition unknownError (errorMessage : string) (details : list ErrorInfo) :=
  Build_Status UNKNOWN errorMessage details.
Definition rolloutUnknownError errorMessage extraInfo :=
  unknownError errorMessage (_buildDetailsWithExtraInfo extraInfo).

Definition failedPreconditionError (errorMessage : string) (details : list ErrorInfo) :=
  Build_Status FAILED_PRECONDITION errorMessage details.
Definition rolloutFailedPreconditionError errorMessage extraInfo :=
  failedPreconditionError errorMessage (_buildDetailsWithExtraInfo extraInfo).

Definition abortedError (errorMessage : string) (details : list ErrorInfo) :=
  Build_Status ABORTED errorMessage details.
Definition rolloutAbortedError errorMessage extraInfo :=
  abortedError errorMessage (_buildDetailsWithExtraInfo extraInfo).

Definition outOfRangeError (errorMessage : string) (details : list ErrorInfo) :=
  Build_Status OUT_OF_RANGE errorMessage details.
Definition rolloutOutOfRangeError errorMessage extraInfo :=
  outOfRangeError errorMessage (_buildDetailsWithExtraInfo extraInfo).

Definition unimplementedError (errorMessage : string) (details : list ErrorInfo) :=
  Build_Status UNIMPLEMENTED errorMessage details.
Definition rolloutUnimplementedError errorMessage extraInfo :=
  unimplementedError errorMessage (_buildDetailsWithExtraInfo extraInfo).

(** "For backwards compatibility" *)
Definition rolloutError errorMessage extraInfo :=
  internalError errorMessage (_buildDetailsWithExtraInfo extraInfo).
Definition error (errorMessage : string) (details : list ErrorInfo) :=
  Build_Status INTERNAL errorMessage details.

Definition dataLossError (errorMessage : string) (details : list ErrorInfo) :=
  Build_Status DATA_LOSS errorMessage details.
Definition rolloutDataLossError errorMessage extraInfo :=
  dataLossError errorMessage (_buildDetailsWithExtraInfo extraInfo).

Definition unauthenticatedError (errorMessage : string) (details : list ErrorInfo) :=
  Build_Status UNAUTHENTICATED errorMessage details.
Definition rolloutUnauthenticatedError errorMessage extraInfo :=
  unauthenticatedError errorMessage (_buildDetailsWithExtraInfo extraInfo).

(** [message] and [details] have defaults; [None] is an argument left out. *)
Definition scoreInvalid (message : option string) (details : option (list ErrorInfo)) :=
  Build_Status SCORE_INVALID (default "Score is invalid" message) (default [] details).

(** The interface [StatusDetails], what [toJSON] hands to JSON.stringify. *)
Record StatusDetails := {
  sd_code : StatusCode;
  sd_message : string;
  sd_details : list ErrorInfo
}.

Definition toJSON (s : Status) : StatusDetails :=
  {| sd_code := code s; sd_message := message s; sd_details := details s |}.

Definition fromJSON (json : StatusDetails) : Status :=
  Build_Status (sd_code json) (sd_message json) (sd_details json).

End StatusModel.

(** ** [exceptions.ts] *)
Module Exceptions.
Import Js StatusModel.

(** An instance of [EvalProtocolError] or of one of its subclasses. *)
Record EvalProtocolErrorObject := {
  ep_class : EPClass;
  name : string;
  ep_message : string;
  statusCode : StatusCode
}.

(** [this.constructor.name] *)
Definition class_name (c : EPClass) : string :=
  match c with
  | EvalProtocolError => "EvalProtocolError"
  | CancelledError => "CancelledError"
  | UnknownError => "UnknownError"
  | InvalidArgumentError => "InvalidArgumentError"
  | DeadlineExceededError => "DeadlineExceededError"
  | NotFoundError => "NotFoundError"
  | AlreadyExistsError => "AlreadyExistsError"
  | PermissionDeniedError => "PermissionDeniedError"
  | ResourceExhaustedError => "ResourceExhaustedError"
  | FailedPreconditionError => "FailedPreconditionError"
  | AbortedError => "AbortedError"
  | OutOfRangeError => "OutOfRangeError"
  | UnimplementedError => "UnimplementedError"
  | InternalError => "InternalError"
  | UnavailableError => "UnavailableError"
  | DataLossError => "DataLossError"
  | UnauthenticatedError => "UnauthenticatedError"
  end.

(** The constructor of the base class, run for an instance of [cls]. *)
Definition EvalProtocolError_constructor
    (cls : EPClass) (message : string) (statusCode : StatusCode)
  : EvalProtocolErrorObject :=
  {| ep_class := cls; name := class_name cls;
     ep_message := message; statusCode := statusCode |}.

(** [new cls(message, code)]. Every subclass constructor takes the message
    only and passes its own code to [super]; a second argument is dropped. *)
Definition new (cls : EPClass) (message : string) (code : StatusCode)
  : EvalProtocolErrorObject :=
  let sub := EvalProtocolError_constructor cls message in
  match cls with
  | EvalProtocolError => EvalProtocolError_constructor cls message code
  | CancelledError => sub CANCELLED
  | UnknownError => sub UNKNOWN
  | InvalidArgumentError => sub INVALID_ARGUMENT
  | DeadlineExceededError => sub DEADLINE_EXCEEDED
  | NotFoundError => sub NOT_FOUND
  | AlreadyExistsError => sub ALREADY_EXISTS
  | PermissionDeniedError => sub PERMISSION_DENIED
  | ResourceExhaustedError => sub RESOURCE_EXHAUSTED
  | FailedPreconditionError => sub FAILED_PRECONDITION
  | AbortedError => sub ABORTED
  | OutOfRangeError => sub OUT_OF_RANGE
  | UnimplementedError => sub UNIMPLEMENTED
  | InternalError => sub INTERNAL
  | UnavailableError => sub UNAVAILABLE
  | DataLossError => sub DATA_LOSS
  | UnauthenticatedError => sub UNAUTHENTICATED
  end.

(** The [Map] from status codes (numbers at run time) to classes. *)
Definition STATUS_CODE_TO_EXCEPTION : gmap Z (option EPClass) :=
  list_to_map
    [ (value OK, None);
      (value CANCELLED, Some CancelledError);
      (value UNKNOWN, Some UnknownError);
      (value INVALID_ARGUMENT, Some InvalidArgumentError);
      (value DEADLINE_EXCEEDED, Some DeadlineExceededError);
      (value NOT_FOUND, Some NotFoundError);
      (value ALREADY_EXISTS, Some AlreadyExistsError);
      (value PERMISSION_DENIED, Some PermissionDeniedError);
      (value RESOURCE_EXHAUSTED, Some ResourceExhaustedError);
      (value FAILED_PRECONDITION, Some FailedPreconditionError);
      (value ABORTED, Some AbortedError);
      (value OUT_OF_RANGE, Some OutOfRangeError);
      (value UNIMPLEMENTED, Some UnimplementedError);
      (value INTERNAL, Some InternalError);
      (value UNAVAILABLE, Some UnavailableError);
      (value DATA_LOSS, Some DataLossError);
      (value UNAUTHENTICATED, Some UnauthenticatedError);
      (value FINISHED, None);
      (value RUNNING, None);
      (value SCORE_INVALID, None) ].

(** [null] is [None]. A key that is absent ([undefined]) and a key bound to
    [null] both fail the test [!exceptionClass]. *)
Definition exceptionForStatusCode (code : StatusCode) (message : string)
  : option EvalProtocolErrorObject :=
  match STATUS_CODE_TO_EXCEPTION !! value code with
  | Some (Some exceptionClass) => Some (new exceptionClass message code)
  | Some None | None => None
  end.

(** Errors of the server thrown as JavaScript values. *)
Definition thrown (e : EvalProtocolErrorObject) : Value :=
  Obj {| obj_class := EPErrorClass (ep_class e);
         obj_message := Some (ep_message e);
         obj_code := None;
         obj_toString :=
           if bool_decide (ep_message e = "") then name e
           else name e ++ ": " ++ ep_message e |}.

Definition is_network_code (code : option string) : bool :=
  bool_decide (code = Some "ECONNRESET")
  || bool_decide (code = Some "ENOTFOUND")
  || bool_decide (code = Some "ETIMEDOUT").

Definition mapOpenAIErrorToStatus (error : Value) : Completion Status :=
  cbind (get_message error) (fun message =>
  let errorMessage := or_else message (String_ error) in
  if instanceof error (OpenAIClass OpenAI.AuthenticationError) then
    Returns (rolloutPermissionDeniedError errorMessage None)
  else if instanceof error (OpenAIClass OpenAI.PermissionDeniedError) then
    Returns (rolloutPermissionDeniedError errorMessage None)
  else if instanceof error (OpenAIClass OpenAI.NotFoundError) then
    Returns (rolloutNotFoundError errorMessage None)
  else if instanceof error (OpenAIClass OpenAI.RateLimitError) then
    Returns (rolloutResourceExhaustedError errorMessage None)
  else if instanceof error (OpenAIClass OpenAI.BadRequestError) then
    Returns (rolloutInvalidArgumentError errorMessage None)
  else if instanceof error (OpenAIClass OpenAI.InternalServerError) then
    Returns (rolloutInternalError errorMessage None)
  else if instanceof error (OpenAIClass OpenAI.UnprocessableEntityError) then
    Returns (rolloutInvalidArgumentError errorMessage None)
  else if instanceof error (OpenAIClass OpenAI.APIConnectionTimeoutError) then
    Returns (rolloutDeadlineExceededError errorMessage None)
  else if instanceof error (OpenAIClass OpenAI.ConflictError) then
    Returns (rolloutAlreadyExistsError errorMessage None)
  else
    cbind (get_code error) (fun code =>
    if is_network_code code then
      Returns (rolloutUnavailableError errorMessage None)
    else
      Returns (rolloutInternalError errorMessage None))).

Definition isRetryableError (error : Value) : Completion bool :=
  if instanceof error (OpenAIClass OpenAI.RateLimitError)
     || instanceof error (OpenAIClass OpenAI.InternalServerError)
     || instanceof error (OpenAIClass OpenAI.APIConnectionTimeoutError)
     || instanceof error (OpenAIClass OpenAI.APIConnectionError)
  then Returns true
  else
    cbind (get_code error) (fun code =>
    if bool_decide (code = Some "ECONNRESET")
       || bool_decide (code = Some "ENOTFOUND")
       || bool_decide (code = Some "ETIMEDOUT")
       || bool_decide (code = Some "ECONNREFUSED")
    then Returns true
    else if instanceof error (EPErrorClass UnknownError)
            || instanceof error (EPErrorClass DeadlineExceededError)
            || instanceof error (EPErrorClass NotFoundError)
            || instanceof error (EPErrorClass PermissionDeniedError)
            || instanceof error (EPErrorClass UnavailableError)
            || instanceof error (EPErrorClass UnauthenticatedError)
            || instanceof error (EPErrorClass ResourceExhaustedError)
    then Returns true
    else Returns false).

End Exceptions.

(** ** [src/config/environment.ts] *)
Module Environment.

(** A string is the sequence of its code units; the model covers code
    units below 256. Of these, TAB, LF, VT, FF, CR, SPACE and NBSP are the
    white space and line terminators that [trim] removes. *)
Definition is_white_space (a : ascii) : bool :=
  let n := nat_of_ascii a in
  ((9 <=? n) && (n <=? 13))%nat || (n =? 32)%nat || (n =? 160)%nat.

Fixpoint trimStart (s : string) : string :=
  match s with
  | EmptyString => EmptyString
  | String a rest => if is_white_space a then trimStart rest else s
  end.

Fixpoint trimEnd (s : string) : string :=
  match s with
  | EmptyString => EmptyString
  | String a rest =>
      match trimEnd rest with
      | EmptyString => if is_white_space a then EmptyString else String a EmptyString
      | kept => String a kept
      end
  end.

Definition trim (s : string) : string := trimEnd (trimStart s).

(** A string in a condition: the empty string is falsy. *)
Definition truthy (s : string) : bool := negb (bool_decide (s = "")).

Section WithEnv.
(** [process.env] *)
Variable env : gmap string string.

Definition getEnv (name : string) (defaultValue : option string) : option string :=
  match env !! name with
  | Some value =>
      if truthy value && truthy (trim value) then Some (trim value)
      else defaultValue
  | None => defaultValue
  end.

(** [requestApiKey?: string | null]: [None] is [null] or [undefined]. *)
Definition resolveApiKey (requestApiKey : option string) : option string :=
  let fromEnvironment :=
    match getEnv "FIREWORKS_API_KEY" None with
    | Some envApiKey => if truthy envApiKey then Some envApiKey else None
    | None => None
    end in
  match requestApiKey with
  | Some key =>
      if truthy key && truthy (trim key) then Some (trim key)
      else fromEnvironment
  | None => fromEnvironment
  end.
End WithEnv.

End Environment.

(** ** JSON-like data: request bodies, messages, log records *)
Module Json.
Import Js.

Inductive Json :=
| JUndefined
| JNull
| JBool (b : bool)
| JNumber (n : Qc)
| JString (s : string)
| JArray (items : list Json)
| JObject (fields : list (string * Json)).   (* own properties, in insertion order *)

(** [fields[key]] *)
Fixpoint lookup_field (key : string) (fields : list (string * Json)) : option Json :=
  match fields with
  | [] => None
  | (k, v) :: rest => if bool_decide (k = key) then Some v else lookup_field key rest
  end.

(** [obj[key] = v]: an existing property keeps its place. *)
Fixpoint set_field (key : string) (v : Json) (fields : list (string * Json))
  : list (string * Json) :=
  match fields with
  | [] => [(key, v)]
  | (k, old) :: rest =>
      if bool_decide (k = key) then (k, v) :: rest
      else (k, old) :: set_field key v rest
  end.

(** [v.key]: throws on [null] and [undefined]; the properties that
    primitives and arrays inherit are not modelled and read as [undefined]. *)
Definition prop (v : Json) (key : string) : Completion Json :=
  match v with
  | JUndefined =>
      Throws (TypeError ("Cannot read properties of undefined (reading '" ++ key ++ "')"))
  | JNull =>
      Throws (TypeError ("Cannot read properties of null (reading '" ++ key ++ "')"))
  | JObject fields => Returns (default JUndefined (lookup_field key fields))
  | _ => Returns JUndefined
  end.

(** [v?.key] *)
Definition prop_opt (v : Json) (key : string) : Json :=
  match v with
  | JObject fields => default JUndefined (lookup_field key fields)
  | _ => JUndefined
  end.

Definition truthy (v : Json) : bool :=
  match v with
  | JUndefined | JNull => false
  | JBool b => b
  | JNumber n => negb (bool_decide (n = 0%Qc))
  | JString s => negb (bool_decide (s = ""))
  | JArray _ | JObject _ => true
  end.

Definition is_undefined (v : Json) : bool :=
  match v with JUndefined => true | _ => false end.

Definition is_nullish (v : Json) : bool :=
  match v with JUndefined | JNull => true | _ => false end.

(** [typeof v === 'string'] *)
Definition as_string (v : Json) : option string :=
  match v with JString s => Some s | _ => None end.

End Json.

(** ** The part of the zod library that [types.ts] uses *)
Module Zod.
Import Json.

Inductive PathItem := Key (k : string) | Index (i : nat).

Inductive IssueCode :=
| invalid_type | invalid_literal | invalid_enum_value | invalid_union.

Record ZodIssue := { code : IssueCode; path : list PathItem }.

Inductive Schema :=
| z_string
| z_number
| z_any
| z_enum (values : list string)
| z_literal (v : string)
| z_array (element : Schema)
| z_record (valueType : Schema)                 (* z.record(z.string(), valueType) *)
| z_object (shape : list (string * Schema))
| z_union (options : list Schema)
| optional (inner : Schema)
| nullable (inner : Schema).

Inductive ParseReturn :=
| Valid (data : Json)
| Invalid (issues : list ZodIssue).

Definition issue (c : IssueCode) (p : list PathItem) : ParseReturn :=
  Invalid [ {| code := c; path := p |} ].

(** Elements of an array, each under its index; all issues are collected. *)
Fixpoint parse_items (parse_element : list PathItem -> Json -> ParseReturn)
    (path : list PathItem) (i : nat) (items : list Json)
  : list ZodIssue * list Json :=
  match items with
  | [] => ([], [])
  | x :: rest =>
      let '(issues, out) := parse_items parse_element path (S i) rest in
      match parse_element (path ++ [Index i])%list x with
      | Valid d => (issues, d :: out)
      | Invalid here => ((here ++ issues)%list, out)
      end
  end.

(** Values of a record, each under its key. *)
Fixpoint parse_values (parse_value : list PathItem -> Json -> ParseReturn)
    (path : list PathItem) (fields : list (string * Json))
  : list ZodIssue * list (string * Json) :=
  match fields with
  | [] => ([], [])
  | (k, x) :: rest =>
      let '(issues, out) := parse_values parse_value path rest in
      match parse_value (path ++ [Key k])%list x with
      | Valid d => (issues, (k, d) :: out)
      | Invalid here => ((here ++ issues)%list, out)
      end
  end.

Definition finish {A} (wrap : A -> Json) (r : list ZodIssue * A) : ParseReturn :=
  match r with
  | ([], out) => Valid (wrap out)
  | (issues, _) => Invalid issues
  end.

(** The keys of an object schema, in the order of the shape: each key is
    read from the input ([undefined] when absent) and parsed; a key that is
    absent and parses to [undefined] is left out of the result. Keys of the
    input that the shape does not name are stripped. *)
Definition parse_shape (parse : Schema -> list PathItem -> Json -> ParseReturn)
    (path : list PathItem) (fields : list (string * Json))
  : list (string * Schema) -> list ZodIssue * list (string * Json) :=
fix keys (shape : list (string * Schema)) :=
  match shape with
  | [] => ([], [])
  | (k, sk) :: rest =>
      let '(issues, out) := keys rest in
      let present := lookup_field k fields in
      match parse sk (path ++ [Key k])%list (default JUndefined present) with
      | Valid d =>
          if is_undefined d && negb (bool_decide (is_Some present))
          then (issues, out)
          else (issues, (k, d) :: out)
      | Invalid here => ((here ++ issues)%list, out)
      end
  end.

(** The options of a union, in order: the result of the first one that
    accepts the input. *)
Definition parse_options (parse : Schema -> list PathItem -> Json -> ParseReturn)
    (path : list PathItem) (input : Json) : list Schema -> ParseReturn :=
fix first (options : list Schema) :=
  match options with
  | [] => issue invalid_union path
  | o :: rest =>
      match parse o path input with
      | Valid d => Valid d
      | Invalid _ => first rest
      end
  end.

(** [schema._parse] *)
Fixpoint parse (s : Schema) (path : list PathItem) (input : Json) {struct s}
  : ParseReturn :=
match s with
| z_any => Valid input
| z_string =>
    match input with JString _ => Valid input | _ => issue invalid_type path end
| z_number =>
    match input with JNumber _ => Valid input | _ => issue invalid_type path end
| z_enum values =>
    match input with
    | JString x =>
        if bool_decide (x ∈ values) then Valid input
        else issue invalid_enum_value path
    | _ => issue invalid_type path
    end
| z_literal v =>
    match input with
    | JString x =>
        if bool_decide (x = v) then Valid input else issue invalid_literal path
    | _ => issue invalid_literal path
    end
| z_array element =>
    match input with
    | JArray items => finish JArray (parse_items (parse element) path 0 items)
    | _ => issue invalid_type path
    end
| z_record valueType =>
    match input with
    | JObject fields => finish JObject (parse_values (parse valueType) path fields)
    | _ => issue invalid_type path
    end
| z_object shape =>
    match input with
    | JObject fields => finish JObject (parse_shape parse path fields shape)
    | _ => issue invalid_type path
    end
| z_union options => parse_options parse path input options
| optional inner =>
    match input with JUndefined => Valid JUndefined | _ => parse inner path input end
| nullable inner =>
    match input with JNull => Valid JNull | _ => parse inner path input end
end.

Inductive SafeParseReturn :=
| success (data : Json)
| failure (issues : list ZodIssue).

(** [error.issues] as it is put in a response; of each issue the code and
    the path are kept. *)
Definition code_name (c : IssueCode) : string :=
  match c with
  | invalid_type => "invalid_type"
  | invalid_literal => "invalid_literal"
  | invalid_enum_value => "invalid_enum_value"
  | invalid_union => "invalid_union"
  end.

Definition path_item_json (p : PathItem) : Json :=
  match p with
  | Key k => JString k
  | Index i => JNumber (Qc_of_Z (Z.of_nat i))
  end.

Definition issues_json (issues : list ZodIssue) : Json :=
  JArray (map (fun i => JObject [("code", JString (code_name (code i)));
                                 ("path", JArray (map path_item_json (path i)))])
              issues).

Definition safeParse (s : Schema) (input : Json) : SafeParseReturn :=
  match parse s [] input with
  | Valid d => success d
  | Invalid issues => failure issues
  end.

End Zod.

(** ** [src/models/types.ts] *)
Module Types.
Import Zod.

Definition messageSchema : Schema :=
  z_union [
    z_object [
      ("role", z_enum ["system"; "user"; "assistant"]);
      ("content", nullable (optional (z_union [z_string; z_array z_any])));
      ("name", nullable (optional z_string));
      ("tool_call_id", nullable (optional z_string));
      ("tool_calls", nullable (optional (z_array z_any)));
      ("function_call", nullable (optional z_any));
      ("reasoning_content", nullable (optional z_string));
      ("control_plane_step", nullable (optional (z_record z_any)));
      ("weight", nullable (optional z_number)) ];
    z_object [
      ("role", z_literal "tool");
      ("content", z_string);
      ("tool_call_id", z_string);
      ("name", nullable (optional z_string)) ] ].

Definition rolloutMetadataSchema : Schema :=
  z_object [
    ("invocation_id", z_string);
    ("experiment_id", z_string);
    ("rollout_id", z_string);
    ("run_id", z_string);
    ("row_id", z_string) ].

Definition initRequestSchema : Schema :=
  z_object [
    ("completion_params", z_record z_any);
    ("messages", nullable (optional (z_array messageSchema)));
    ("tools", nullable (optional (z_array z_any)));
    ("metadata", rolloutMetadataSchema);
    ("model_base_url", nullable (optional z_string));
    ("api_key", nullable (optional z_string)) ].

End Types.

(** ** Log records sent to the tracing gateway *)
Module Tracing.
Import Json StatusModel.

Record StatusInfo := {
  si_code : option Qc;              (* code?: number *)
  si_message : option string;       (* message?: string *)
  si_details : list Json            (* details?: any[] *)
}.

Record Extras := {
  logger_name : string;
  level : string;
  timestamp : string
}.

Record FireworksPayload := {
  program : string;
  status : option StatusInfo;       (* [None] is [null] *)
  message : string;
  tags : list string;
  extras : Extras
}.

Definition opt_json (o : option string) : Json :=
  match o with Some s => JString s | None => JUndefined end.

(** An [ErrorInfo] and a [Status] instance, seen as plain objects. *)
Definition ErrorInfo_json (e : ErrorInfo) : Json :=
  JObject [
    ("@type", JString (type_url e));
    ("reason", opt_json (reason e));
    ("domain", opt_json (domain e));
    ("metadata",
      match metadata e with
      | Some kv => JObject (map (fun p => (p.1, JString p.2)) kv)
      | None => JUndefined
      end) ].

Definition Status_json (s : Status) : Json :=
  JObject [
    ("code", JNumber (Qc_of_Z (value (code s))));
    ("message", JString (StatusModel.message s));
    ("details", JArray (map ErrorInfo_json (details s))) ].

End Tracing.

(** ** Asynchronous code: state, a trace of outgoing calls, completions

    The handlers are [async] functions: each [await] either yields a value,
    rethrows the rejection, or never comes back. [console] output is not
    part of the model. *)
Module Async.
Import Js Json Tracing.

Record HttpRequest := {
  url : string;
  method : string;
  headers : list (string * string);
  body : FireworksPayload            (* before JSON.stringify *)
}.

Record CompletionParams := {
  model : string;
  messages : list Json;
  stream : bool;
  temperature : option Json;
  max_tokens : option Json;
  top_p : option Json;
  frequency_penalty : option Json;
  presence_penalty : option Json;
  stop : option Json;
  tools : option (list Json)
}.

(** [new OpenAI({apiKey, baseURL}).chat.completions.create(params)] *)
Record CompletionCall := {
  apiKey : string;
  baseURL : Json;
  params : CompletionParams
}.

Inductive Event :=
| Fetch (request : HttpRequest)            (* fetch(url, init) was called *)
| Create (call : CompletionCall)           (* the provider was called *)
| Detached (waitUntil : bool) (e : Event). (* done by a promise nobody awaits *)

(** What [fetch] does with a request: the promise resolves with a response
    (of which the code reads the status only), rejects with an error
    object, or stays pending. *)
Inductive FetchOutcome :=
| Resolved (status : Z)
| Rejected (reason : Object)
| Pending.

(** Everything outside the server. The answer to a call is a function of
    the call. *)
Record World := {
  env : gmap string string;                       (* process.env *)
  now : string;                                   (* new Date().toISOString() *)
  fetch_outcome : HttpRequest -> FetchOutcome;
  create_outcome : CompletionCall -> Completion Json;
  String_of : Json -> string;                     (* String(v) *)
  Number_of : Json -> Json;                       (* Number(v) *)
  JSON_stringify : CompletionParams -> string;
  zod_message : list Zod.ZodIssue -> string       (* ZodError.message *)
}.

Definition M (S A : Type) : Type := S -> S * list Event * Completion A.

Definition ret {S A} (a : A) : M S A := fun s => (s, [], Returns a).

Definition bind {S A B} (m : M S A) (k : A -> M S B) : M S B :=
  fun s =>
    match m s with
    | (s1, t1, Returns a) =>
        let '(s2, t2, r) := k a s1 in (s2, (t1 ++ t2)%list, r)
    | (s1, t1, Throws e) => (s1, t1, Throws e)
    | (s1, t1, Hangs) => (s1, t1, Hangs)
    end.

Definition lift {S A} (c : Completion A) : M S A := fun s => (s, [], c).

Definition throw {S A} (e : Value) : M S A := lift (Throws e).

Definition get {S} : M S S := fun s => (s, [], Returns s).

Definition modify {S} (f : S -> S) : M S unit := fun s => (f s, [], Returns tt).

(** [try { body } catch (error) { handler }]: the handler runs in the
    state the body left behind. *)
Definition try_catch {S A} (body : M S A) (handler : Value -> M S A) : M S A :=
  fun s =>
    match body s with
    | (s1, t1, Throws e) =>
        let '(s2, t2, r) := handler e s1 in (s2, (t1 ++ t2)%list, r)
    | other => other
    end.

(** A promise that is started and not awaited: its calls go out, its
    completion is nobody's business. [waitUntil] says whether the promise
    was handed to the platform's [waitUntil]. *)
Definition detach {S A} (waitUntil : bool) (task : M S A) : M S unit :=
  fun s =>
    let '(_, t, _) := task s in (s, map (Detached waitUntil) t, Returns tt).

(** [await fetch(url, init)] *)
Definition fetch {S} (w : World) (request : HttpRequest) : M S Z :=
  fun s =>
    (s, [Fetch request],
     match fetch_outcome w request with
     | Resolved status => Returns status
     | Rejected reason => Throws (Obj reason)
     | Pending => Hangs
     end).

(** [await openaiClient.chat.completions.create(params)] *)
Definition create {S} (w : World) (call : CompletionCall) : M S Json :=
  fun s => (s, [Create call], create_outcome w call).

(** The calls that were awaited in line, and those left to the background. *)
Fixpoint fetches (t : list Event) : list HttpRequest :=
  match t with
  | [] => []
  | Fetch r :: rest => r :: fetches rest
  | _ :: rest => fetches rest
  end.

Fixpoint creates (t : list Event) : list CompletionCall :=
  match t with
  | [] => []
  | Create c :: rest => c :: creates rest
  | _ :: rest => creates rest
  end.

Definition trace {S A} (r : S * list Event * Completion A) : list Event := r.1.2.
Definition completion {S A} (r : S * list Event * Completion A) : Completion A := r.2.

End Async.

Declare Scope async_scope.
Delimit Scope async_scope with async.
Notation "x <- m ;; k" := (Async.bind m (fun x => k))
  (at level 100, m at next level, right associativity) : async_scope.
Notation "m ;;; k" := (Async.bind m (fun _ => k))
  (at level 100, right associativity) : async_scope.

(** ** [src/config/fireworks-transport.ts] *)
Module Transport.
Import Js Json Tracing Async.
Local Open Scope async_scope.

Record FireworksLogInfo := {
  info_level : string;              (* level *)
  info_LEVEL : option string;       (* [Symbol.for('level')] *)
  info_message : Json;              (* message *)
  rollout_id : Json;
  experiment_id : Json;
  run_id : Json;
  rollout_ids : Json;
  info_status : Json;               (* status *)
  info_program : Json;              (* program *)
  info_logger_name : option string  (* logger_name *)
}.

Record Options := {
  opt_gatewayBaseUrl : option string;
  opt_rolloutIdEnv : option string;
  opt_waitUntil : bool                (* whether a function was passed *)
}.

Record FireworksTransport := {
  gatewayBaseUrl : string;
  rolloutIdEnv : string;
  apiKey : option string;
  waitUntil : bool
}.

(** [a || b] where [a] may be missing or empty *)
Definition or_opt (a : option string) (b : option string) : option string :=
  match a with
  | Some x => if bool_decide (x = "") then b else Some x
  | None => b
  end.

Definition constructor (opts : Options) (env : gmap string string)
  : FireworksTransport :=
  {| gatewayBaseUrl :=
       or_else
         (or_opt (opt_gatewayBaseUrl opts) (env !! "FW_TRACING_GATEWAY_BASE_URL"))
         "https://tracing.fireworks.ai";
     rolloutIdEnv := or_else (opt_rolloutIdEnv opts) "EP_ROLLOUT_ID";
     apiKey := env !! "FIREWORKS_API_KEY";
     waitUntil := opt_waitUntil opts |}.

(** [s.replace(/\/$/, '')]: one slash at the very end is removed. *)
Fixpoint strip_trailing_slash (s : string) : string :=
  match s with
  | EmptyString => EmptyString
  | String a EmptyString => if bool_decide (a = "/"%char) then EmptyString else s
  | String a rest => String a (strip_trailing_slash rest)
  end.

(** [toUpperCase] on the letters a-z; logging levels are ASCII words. *)
Definition upper (a : ascii) : ascii :=
  let n := nat_of_ascii a in
  if ((97 <=? n) && (n <=? 122))%nat then ascii_of_nat (n - 32) else a.

Fixpoint toUpperCase (s : string) : string :=
  match s with
  | EmptyString => EmptyString
  | String a rest => String (upper a) (toUpperCase rest)
  end.

Definition getRolloutId (t : FireworksTransport) (env : gmap string string)
    (info : FireworksLogInfo) : option string :=
  match rollout_id info with
  | JString id => if bool_decide (id = "") then or_opt (env !! rolloutIdEnv t) None
                  else Some id
  | _ => or_opt (env !! rolloutIdEnv t) None
  end.

Definition has_key (key : string) (fields : list (string * Json)) : bool :=
  bool_decide (is_Some (lookup_field key fields)).

Definition getStatusInfo (info : FireworksLogInfo) : option StatusInfo :=
  if negb (truthy (info_status info)) then None
  else
    match info_status info with
    | JObject fields =>
        if has_key "code" fields && has_key "message" fields then
          Some {| si_code :=
                    match lookup_field "code" fields with
                    | Some (JNumber n) => Some n | _ => None end;
                  si_message :=
                    match lookup_field "message" fields with
                    | Some (JString m) => Some m | _ => None end;
                  si_details :=
                    match lookup_field "details" fields with
                    | Some (JArray d) => d | _ => [] end |}
        else None
    | _ => None
    end.

(** [`${key}:${v}`] *)
Definition tag (key v : string) : string := key ++ ":" ++ v.

(** The tags for the strings among [info.rollout_ids]. *)
Fixpoint group_tags (rids : list Json) : list string :=
  match rids with
  | [] => []
  | JString rid :: rest => tag "rollout_id" rid :: group_tags rest
  | _ :: rest => group_tags rest
  end.

Definition buildPayload (now : string) (info : FireworksLogInfo) (rolloutId : string)
  : FireworksPayload :=
  let message := match info_message info with JString m => m | _ => "" end in
  let level := or_else (or_opt (info_LEVEL info) (Some (info_level info))) "info" in
  let tags :=
    ([tag "rollout_id" rolloutId]
     ++ match experiment_id info with
        | JString e => if bool_decide (e = "") then [] else [tag "experiment_id" e]
        | _ => []
        end
     ++ match run_id info with
        | JString r => if bool_decide (r = "") then [] else [tag "run_id" r]
        | _ => []
        end
     ++ match rollout_ids info with
        | JArray rids => group_tags rids
        | _ => []
        end)%list in
  let program := or_else (as_string (info_program info)) "eval_protocol" in
  {| program := program;
     status := getStatusInfo info;
     message := message;
     tags := tags;
     extras := {| logger_name := or_else (info_logger_name info) "winston";
                  level := toUpperCase level;
                  timestamp := now |} |}.

(** [`Bearer ${key}`] *)
Definition bearer (key : string) : string := "Bearer " ++ key.

Definition request_headers (t : FireworksTransport) : list (string * string) :=
  ([("Content-Type", "application/json");
    ("User-Agent", "winston-fireworks-transport/1.0.0")]
   ++ match apiKey t with
      | Some key => if bool_decide (key = "") then []
                    else [("Authorization", bearer key)]
      | None => []
      end)%list.

Definition sendToFireworks {S} (w : World) (t : FireworksTransport)
    (info : FireworksLogInfo) : M S unit :=
  if bool_decide (gatewayBaseUrl t = "") then ret tt
  else
    match getRolloutId t (env w) info with
    | None => ret tt
    | Some rolloutId =>
        if bool_decide (rolloutId = "") then ret tt
        else
          let payload := buildPayload (now w) info rolloutId in
          let baseUrl := strip_trailing_slash (gatewayBaseUrl t) in
          let url := baseUrl ++ "/logs" in
          try_catch
            (let headers := request_headers t in
             response_status <-
               fetch w {| url := url; method := "POST";
                          headers := headers; body := payload |} ;;
             if (response_status =? 404)%Z then
               let altUrl := baseUrl ++ "/v1/logs" in
               _ <- fetch w {| url := altUrl; method := "POST";
                               headers := headers; body := payload |} ;;
               ret tt
             else ret tt)
            (fun error =>
               (* nothing is done with the error unless EP_DEBUG is 'true',
                  when its message is printed *)
               if bool_decide (env w !! "EP_DEBUG" = Some "true") then
                 _ <- lift (get_message error) ;; ret tt
               else ret tt)
    end.

(** [log(info, callback)]: the send is started, not awaited. A rejection
    of the send would be turned into an 'error' event by [.catch]. *)
Definition log {S} (w : World) (t : FireworksTransport)
    (info : FireworksLogInfo) (callback : M S unit) : M S unit :=
  detach (waitUntil t) (sendToFireworks w t info) ;;; callback.

End Transport.

(** ** What the two versions of [api/init.ts] share, word for word *)
Module Rollout.
Import Js Json Zod Types StatusModel Tracing Async Exceptions.
Local Open Scope async_scope.

Record Request := { req_method : string; req_body : Json }.

(** [res.status(n).json(body)] *)
Record Response := { res_status : Z; res_json : Json }.

(** [`${v}`] for a string that may be [undefined] *)
Definition show (v : option string) : string := default "undefined" v.

Definition Error_ (message : string) : Value :=
  Obj {| obj_class := ErrorClass; obj_message := Some message;
         obj_code := None; obj_toString := "Error: " ++ message |}.

Definition health : Json :=
  JObject [
    ("status", JString "ok");
    ("message", JString "SVGBench Vercel TypeScript Serverless Function");
    ("endpoints", JObject [
       ("POST /init", JString "Process SVGBench evaluation requests");
       ("GET /", JString "Health check endpoint") ]) ].

Definition error_body (error : string) (rolloutId : option string) : Json :=
  JObject [("error", JString error); ("rollout_id", opt_json rolloutId)].

Definition allowedMessageFields : gset string :=
  {[ "role"; "content"; "name"; "tool_call_id"; "tool_calls"; "function_call" ]}.

(** [Object.entries(message)]; a validated message is an object. *)
Definition Object_entries (v : Json) : Completion (list (string * Json)) :=
  match v with
  | JObject fields => Returns fields
  | JUndefined | JNull =>
      Throws (TypeError "Cannot convert undefined or null to object")
  | _ => Returns []
  end.

(** The [for ... of] loop over the entries, filling [sanitized]. *)
Fixpoint sanitize_entries (entries sanitized : list (string * Json))
  : list (string * Json) :=
  match entries with
  | [] => sanitized
  | (key, value) :: rest =>
      sanitize_entries rest
        (if bool_decide (key ∈ allowedMessageFields) && negb (is_nullish value)
         then set_field key value sanitized
         else sanitized)
  end.

Definition sanitize_message (message : Json) : Completion Json :=
  cbind (Object_entries message) (fun entries =>
  let sanitized := sanitize_entries entries [] in
  if negb (truthy (default JUndefined (lookup_field "role" sanitized)))
  then Throws (Error_ "Message role is required")
  else Returns (JObject sanitized)).

(** [array.map(f)] for an [f] that may throw *)
Fixpoint map_throwing (f : Json -> Completion Json) (items : list Json)
  : Completion (list Json) :=
  match items with
  | [] => Returns []
  | x :: rest =>
      cbind (f x) (fun y =>
      cbind (map_throwing f rest) (fun ys => Returns (y :: ys)))
  end.

Definition array_items (v : Json) : list Json :=
  match v with JArray items => items | _ => [] end.

(** [v.length === 0] *)
Definition length_is_zero (v : Json) : bool :=
  match v with JArray [] | JString "" => true | _ => false end.

(** [v.length > 0] *)
Definition length_positive (v : Json) : bool :=
  match v with
  | JArray (_ :: _) => true
  | JString s => negb (bool_decide (s = ""))
  | _ => false
  end.

Definition spread_if (key : string) (v : Json) : list (string * Json) :=
  if truthy v then [(key, v)] else [].

Definition map_tool (tool : Json) : Completion Json :=
  cbind (prop tool "function") (fun f =>
  cbind (prop f "name") (fun name =>
  cbind (prop f "description") (fun description =>
  cbind (prop f "parameters") (fun parameters =>
  Returns (JObject [
    ("type", JString "function");
    ("function", JObject ([("name", name)]
                          ++ spread_if "description" description
                          ++ spread_if "parameters" parameters)%list) ]))))).

(** [completion_params?.key !== undefined ? Number(...) : absent] *)
Definition number_param (w : World) (completion_params : Json) (key : string)
  : option Json :=
  let v := prop_opt completion_params key in
  if is_undefined v then None else Some (Number_of w v).

Definition buildCompletionParams (w : World) (completion_params : Json)
    (sanitizedMessages : list Json) (tools : Json) : Completion CompletionParams :=
  let model := prop_opt completion_params "model" in
  let stop := prop_opt completion_params "stop" in
  cbind (if truthy tools && length_positive tools
         then cbind (map_throwing map_tool (array_items tools))
                    (fun mapped => Returns (Some mapped))
         else Returns None) (fun mapped_tools =>
  Returns {| model := String_of w model;
             messages := sanitizedMessages;
             stream := false;
             temperature := number_param w completion_params "temperature";
             max_tokens := number_param w completion_params "max_tokens";
             top_p := number_param w completion_params "top_p";
             frequency_penalty := number_param w completion_params "frequency_penalty";
             presence_penalty := number_param w completion_params "presence_penalty";
             stop := if is_undefined stop then None else Some stop;
             tools := mapped_tools |}).

(** [`${a.substring(0, 8)}...${a.substring(a.length - 4)}`] *)
Definition maskedApiKey (apiKey : string) : string :=
  substring 0 8 apiKey ++ "..."
  ++ substring (String.length apiKey - 4) (String.length apiKey) apiKey.

(** The chain of [instanceof] tests that picks the HTTP status of a failed
    rollout. Every branch prints [error.message]. *)
Definition error_response (error : Value) (rolloutId : option string)
  : Completion Response :=
  let reply (status : Z) (prefix : string) : Completion Response :=
    cbind (get_message error) (fun message =>
    Returns {| res_status := status;
               res_json := error_body (prefix ++ show message) rolloutId |}) in
  if instanceof error (OpenAIClass OpenAI.AuthenticationError)
     || instanceof error (OpenAIClass OpenAI.PermissionDeniedError)
  then reply 403 "Authentication failed: "
  else if instanceof error (OpenAIClass OpenAI.NotFoundError)
  then reply 404 "Model not found: "
  else if instanceof error (OpenAIClass OpenAI.RateLimitError)
  then reply 429 "Rate limit exceeded: "
  else if instanceof error (OpenAIClass OpenAI.BadRequestError)
  then reply 400 "Bad request: "
  else if instanceof error (OpenAIClass OpenAI.APIConnectionTimeoutError)
  then reply 408 "Request timeout: "
  else if instanceof error (OpenAIClass OpenAI.InternalServerError)
  then reply 502 "Upstream server error: "
  else if instanceof error (OpenAIClass OpenAI.UnprocessableEntityError)
  then reply 422 "Invalid request data: "
  else reply 500 "Internal error: ".

Definition invalid_format (w : World) (issues : list ZodIssue) : Response :=
  {| res_status := 400;
     res_json := JObject [
       ("error", JString ("Invalid request format: " ++ zod_message w issues));
       ("details", issues_json issues) ] |}.

Definition completed (rolloutId : option string) : Response :=
  {| res_status := 200;
     res_json := JObject [
       ("status", JString "completed");
       ("rollout_id", opt_json rolloutId);
       ("message", JString "Rollout completed successfully") ] |}.

End Rollout.

(** ** [api/init.ts]: the handler that logs with [logToFireworks] *)
Module Init.
Import Js Json Zod Types StatusModel Tracing Async Exceptions Rollout.
Local Open Scope async_scope.

(** [let rolloutId: string | undefined; let apiKey: string | null = null;] *)
Record Locals := { rolloutId : option string; apiKey : option string }.

Definition initial : Locals := {| rolloutId := None; apiKey := None |}.

Definition logToFireworks {S} (w : World) (rolloutId message : string)
    (status : Status) (apiKey : string) : M S unit :=
  try_catch
    (let payload :=
       {| program := "eval_protocol";
          Tracing.message := message;
          tags := [Transport.tag "rollout_id" rolloutId];
          extras := {| logger_name := "__main__." ++ rolloutId;
                       level := "INFO";
                       timestamp := now w |};
          Tracing.status :=
            Some {| si_code := Some (Qc_of_Z (value (code status)));
                    si_message := Some (StatusModel.message status);
                    si_details := map ErrorInfo_json (details status) |} |} in
     let url := or_else (env w !! "FW_TRACING_GATEWAY_BASE_URL")
                        "https://tracing.fireworks.ai" in
     (* a response that is not ok is reported on the console *)
     _ <- fetch w {| url := url ++ "/logs";
                     method := "POST";
                     headers := [("Content-Type", "application/json");
                                 ("Authorization", Transport.bearer apiKey);
                                 ("User-Agent", "typescript-fetch/1.0.0")];
                     body := payload |} ;;
     ret tt)
    (fun error =>
       (* console.error(..., error.message) *)
       _ <- lift (get_message error) ;; ret tt).

Definition try_block (w : World) (req : Request) : M Locals Response :=
  match safeParse initRequestSchema (req_body req) with
  | failure issues => ret (invalid_format w issues)
  | success initRequest =>
      metadata <- lift (prop initRequest "metadata") ;;
      rollout_id <- lift (prop metadata "rollout_id") ;;
      let rolloutId := as_string rollout_id in
      modify (fun l => {| rolloutId := rolloutId; apiKey := apiKey l |}) ;;;
      messages <- lift (prop initRequest "messages") ;;
      if negb (truthy messages) || length_is_zero messages then
        ret {| res_status := 400;
               res_json := error_body "messages is required and cannot be empty"
                                      rolloutId |}
      else
        api_key <- lift (prop initRequest "api_key") ;;
        let resolved := Environment.resolveApiKey (env w) (as_string api_key) in
        modify (fun l => {| rolloutId := Init.rolloutId l; apiKey := resolved |}) ;;;
        match resolved with
        | Some apiKey =>
            if negb (Environment.truthy apiKey) then
              ret {| res_status := 401;
                     res_json := error_body
                       "API key not provided in request or FIREWORKS_API_KEY environment variable"
                       rolloutId |}
            else
              model_base_url <- lift (prop initRequest "model_base_url") ;;
              completion_params <- lift (prop initRequest "completion_params") ;;
              sanitizedMessages <-
                lift (map_throwing sanitize_message (array_items messages)) ;;
              tools <- lift (prop initRequest "tools") ;;
              completionParams <-
                lift (buildCompletionParams w completion_params sanitizedMessages tools) ;;
              _ <- create w {| Async.apiKey := apiKey;
                               baseURL := model_base_url;
                               params := completionParams |} ;;
              let status := rolloutFinished in
              logToFireworks w (show rolloutId)
                ("Rollout " ++ show rolloutId ++ " completed") status apiKey ;;;
              ret (completed rolloutId)
        | None =>
            ret {| res_status := 401;
                   res_json := error_body
                     "API key not provided in request or FIREWORKS_API_KEY environment variable"
                     rolloutId |}
        end
  end.

Definition catch_block (w : World) (error : Value) : M Locals Response :=
  status <- lift (mapOpenAIErrorToStatus error) ;;
  l <- get ;;
  (match rolloutId l, apiKey l with
   | Some rolloutId, Some apiKey =>
       if Environment.truthy rolloutId && Environment.truthy apiKey then
         message <- lift (get_message error) ;;
         logToFireworks w rolloutId
           ("Rollout " ++ rolloutId ++ " failed: " ++ show message) status apiKey
       else ret tt
   | _, _ => ret tt
   end) ;;;
  lift (error_response error (rolloutId l)).

Definition handler (w : World) (req : Request) : M Locals Response :=
  if bool_decide (req_method req = "OPTIONS") then
    ret {| res_status := 200; res_json := JObject [] |}
  else if bool_decide (req_method req = "GET") then
    ret {| res_status := 200; res_json := health |}
  else if negb (bool_decide (req_method req = "POST")) then
    ret {| res_status := 405;
           res_json := JObject [
             ("error", JString ("Method " ++ req_method req ++ " not allowed")) ] |}
  else try_catch (try_block w req) (catch_block w).

(** One invocation of the function. *)
Definition invoke (w : World) (req : Request) :=
  handler w req initial.

End Init.

(** ** [src/config/logger.ts] and [src/config/fireworks-vercel.ts] *)
Module Logger.
Import Js Json StatusModel Tracing Async Transport.
Local Open Scope async_scope.

(** The transport of the one [logger]: no gateway or variable name is
    given, and a [waitUntil] function that forwards to the platform's. *)
Definition transport (w : World) : FireworksTransport :=
  constructor {| opt_gatewayBaseUrl := None; opt_rolloutIdEnv := None;
                 opt_waitUntil := true |} (env w).

(** [logger.child({rollout_id, logger_name})] *)
Record ChildLogger := { meta_rollout_id : string; meta_logger_name : string }.

Definition createRolloutLogger (rolloutId : string) (name : string) : ChildLogger :=
  {| meta_rollout_id := rolloutId; meta_logger_name := name ++ "." ++ rolloutId |}.

(** [logger.info(message, {status})], [logger.error(message, {status})]:
    winston hands the record to every transport. *)
Definition write {S} (w : World) (l : ChildLogger) (level message : string)
    (status : option Status) : M S unit :=
  log w (transport w)
    {| info_level := level; info_LEVEL := Some level;
       info_message := JString message;
       rollout_id := JString (meta_rollout_id l);
       experiment_id := JUndefined; run_id := JUndefined;
       rollout_ids := JUndefined;
       info_status := match status with
                      | Some s => Status_json s | None => JUndefined end;
       info_program := JUndefined;
       info_logger_name := Some (meta_logger_name l) |}
    (ret tt).

Definition info {S} w l message status : M S unit := write w l "info" message status.
Definition error {S} w l message status : M S unit := write w l "error" message status.

(** [setWaitUntil(waitUntil); return handler(req, res)]: from then on the
    [waitUntil] of the transport reaches the platform's. *)
Definition withFireworksLogging {T} (handler : Rollout.Request -> T)
  : Rollout.Request -> T :=
fun req => handler req.

End Logger.

(** ** The version of [api/init.ts] that logs through the winston logger *)
Module InitLogged.
Import Js Json Zod Types StatusModel Tracing Async Exceptions Rollout.
Local Open Scope async_scope.

Record Locals := {
  rolloutId : option string;
  apiKey : option string;
  logger : option Logger.ChildLogger      (* [let logger: any = null] *)
}.

Definition initial : Locals :=
  {| rolloutId := None; apiKey := None; logger := None |}.

Definition debug_line (w : World) (model_base_url model : Json)
    (completionParams : CompletionParams) (apiKey : string) : string :=
  "DEBUG: " ++ String_of w model_base_url
  ++ ", COMPLETION_KWARGS: " ++ JSON_stringify w completionParams
  ++ ", API_KEY: " ++ maskedApiKey apiKey
  ++ ", MODEL: " ++ String_of w model
  ++ ", BASE_URL: " ++ String_of w model_base_url.

Definition try_block (w : World) (req : Request) : M Locals Response :=
  match safeParse initRequestSchema (req_body req) with
  | failure issues => ret (invalid_format w issues)
  | success initRequest =>
      metadata <- lift (prop initRequest "metadata") ;;
      rollout_id <- lift (prop metadata "rollout_id") ;;
      let rolloutId := as_string rollout_id in
      let logger := Logger.createRolloutLogger (show rolloutId) "init" in
      modify (fun l => {| rolloutId := rolloutId; apiKey := apiKey l;
                          logger := Some logger |}) ;;;
      Logger.info w logger "Received rollout request" None ;;;
      messages <- lift (prop initRequest "messages") ;;
      if negb (truthy messages) || length_is_zero messages then
        Logger.error w logger "messages is required and cannot be empty" None ;;;
        ret {| res_status := 400;
               res_json := error_body "messages is required and cannot be empty"
                                      rolloutId |}
      else
        api_key <- lift (prop initRequest "api_key") ;;
        let resolved := Environment.resolveApiKey (env w) (as_string api_key) in
        modify (fun l => {| rolloutId := InitLogged.rolloutId l; apiKey := resolved;
                            logger := InitLogged.logger l |}) ;;;
        let unauthorized :=
          Logger.error w logger
            "API key not provided in request or FIREWORKS_API_KEY environment variable"
            None ;;;
          ret {| res_status := 401;
                 res_json := error_body
                   "API key not provided in request or FIREWORKS_API_KEY environment variable"
                   rolloutId |} in
        match resolved with
        | Some apiKey =>
            if negb (Environment.truthy apiKey) then unauthorized
            else
              model_base_url <- lift (prop initRequest "model_base_url") ;;
              completion_params <- lift (prop initRequest "completion_params") ;;
              let model := prop_opt completion_params "model" in
              Logger.info w logger
                ("Sending completion request to model " ++ String_of w model) None ;;;
              sanitizedMessages <-
                lift (map_throwing sanitize_message (array_items messages)) ;;
              tools <- lift (prop initRequest "tools") ;;
              completionParams <-
                lift (buildCompletionParams w completion_params sanitizedMessages tools) ;;
              Logger.info w logger
                (debug_line w model_base_url model completionParams apiKey) None ;;;
              _ <- create w {| Async.apiKey := apiKey;
                               baseURL := model_base_url;
                               params := completionParams |} ;;
              let status := rolloutFinished in
              Logger.info w logger
                ("Rollout " ++ show rolloutId ++ " completed") (Some status) ;;;
              ret (completed rolloutId)
        | None => unauthorized
        end
  end.

Definition catch_block (w : World) (error : Value) : M Locals Response :=
  status <- lift (mapOpenAIErrorToStatus error) ;;
  l <- get ;;
  (match logger l with
   | Some logger =>
       message <- lift (get_message error) ;;
       Logger.error w logger
         ("Rollout " ++ show (rolloutId l) ++ " failed: " ++ show message)
         (Some status)
   | None => throw (TypeError "Cannot read properties of null (reading 'error')")
   end) ;;;
  lift (error_response error (rolloutId l)).

Definition handler (w : World) (req : Request) : M Locals Response :=
  if bool_decide (req_method req = "OPTIONS") then
    ret {| res_status := 200; res_json := JObject [] |}
  else if bool_decide (req_method req = "GET") then
    ret {| res_status := 200; res_json := health |}
  else if negb (bool_decide (req_method req = "POST")) then
    ret {| res_status := 405;
           res_json := JObject [
             ("error", JString ("Method " ++ req_method req ++ " not allowed")) ] |}
  else try_catch (try_block w req) (catch_block w).

(** [export default withFireworksLogging(handler)], run once. *)
Definition invoke (w : World) (req : Request) :=
  Logger.withFireworksLogging (handler w) req initial.

End InitLogged.

(** ** The tables of the specification, to compare the code with *)
Module Expected.
Import Js StatusModel.

(** [e.code], for any value *)
Definition code_of (e : Value) : option string :=
match e with Obj o => obj_code o | _ => None end.

Definition instance_of_any (e : Value) (classes : list Class) : bool :=
existsb (instanceof e) classes.

(** The type-to-code table: the first row whose class [e] is an instance of
    gives the code. *)
Definition openai_status_table : list (Class * StatusCode) :=
[ (OpenAIClass OpenAI.AuthenticationError, PERMISSION_DENIED);
  (OpenAIClass OpenAI.PermissionDeniedError, PERMISSION_DENIED);
  (OpenAIClass OpenAI.NotFoundError, NOT_FOUND);
  (OpenAIClass OpenAI.RateLimitError, RESOURCE_EXHAUSTED);
  (OpenAIClass OpenAI.BadRequestError, INVALID_ARGUMENT);
  (OpenAIClass OpenAI.UnprocessableEntityError, INVALID_ARGUMENT);
  (OpenAIClass OpenAI.InternalServerError, INTERNAL);
  (OpenAIClass OpenAI.APIConnectionTimeoutError, DEADLINE_EXCEEDED);
  (OpenAIClass OpenAI.ConflictError, ALREADY_EXISTS) ].

Definition unavailable_codes : list string := ["ECONNRESET"; "ENOTFOUND"; "ETIMEDOUT"].

Definition expected_code (e : Value) : StatusCode :=
match find (fun row => instanceof e row.1) openai_status_table with
| Some row => row.2
| None =>
    match code_of e with
    | Some c => if bool_decide (c ∈ unavailable_codes) then UNAVAILABLE else INTERNAL
    | None => INTERNAL
    end
end.

(** The errors that are to be retried. *)
Definition retryable_openai : list Class :=
[ OpenAIClass OpenAI.RateLimitError; OpenAIClass OpenAI.InternalServerError;
  OpenAIClass OpenAI.APIConnectionTimeoutError; OpenAIClass OpenAI.APIConnectionError ].

Definition retryable_codes : list string :=
["ECONNRESET"; "ENOTFOUND"; "ETIMEDOUT"; "ECONNREFUSED"].

Definition retryable_eval_protocol : list Class :=
[ EPErrorClass UnknownError; EPErrorClass DeadlineExceededError;
  EPErrorClass NotFoundError; EPErrorClass PermissionDeniedError;
  EPErrorClass UnavailableError; EPErrorClass UnauthenticatedError;
  EPErrorClass ResourceExhaustedError ].

Definition retryable (e : Value) : bool :=
instance_of_any e retryable_openai
|| match code_of e with
   | Some c => bool_decide (c ∈ retryable_codes)
   | None => false
   end
|| instance_of_any e retryable_eval_protocol.

(** The least a request body must hold to pass [initRequestSchema]. *)
Definition has_string (key : string) (fields : list (string * Json.Json)) : Prop :=
exists s, Json.lookup_field key fields = Some (Json.JString s).

Definition required_fields (body : Json.Json) : Prop :=
exists fields cp md,
  body = Json.JObject fields
  /\ Json.lookup_field "completion_params" fields = Some (Json.JObject cp)
  /\ Json.lookup_field "metadata" fields = Some (Json.JObject md)
  /\ has_string "invocation_id" md /\ has_string "experiment_id" md
  /\ has_string "rollout_id" md /\ has_string "run_id" md
  /\ has_string "row_id" md.

(** What validation guarantees of a message and of a request. *)
Definition validated_message (m : Json.Json) : Prop :=
exists fields role,
  m = Json.JObject fields /\ NoDup (fields.*1)
  /\ Json.lookup_field "role" fields = Some (Json.JString role)
  /\ role ∈ ["system"; "user"; "assistant"; "tool"].

Definition validated_request (data : Json.Json) : Prop :=
exists out md rid,
  data = Json.JObject out
  /\ Json.lookup_field "metadata" out = Some (Json.JObject md)
  /\ Json.lookup_field "rollout_id" md = Some (Json.JString rid)
  /\ (let messages := default Json.JUndefined (Json.lookup_field "messages" out) in
      messages = Json.JUndefined \/ messages = Json.JNull
      \/ exists items, messages = Json.JArray items /\ Forall validated_message items).

(** The fields of a message that are forwarded. *)
Definition forwarded (entry : string * Json.Json) : bool :=
bool_decide (entry.1 ∈ Rollout.allowedMessageFields) && negb (Json.is_nullish entry.2).

(** The requests of one send of the transport. *)
Definition post (t : Transport.FireworksTransport) (path : string)
  (payload : Tracing.FireworksPayload) : Async.HttpRequest :=
{| Async.url := Transport.strip_trailing_slash (Transport.gatewayBaseUrl t) ++ path;
   Async.method := "POST";
   Async.headers := Transport.request_headers t;
   Async.body := payload |}.

(** The request of [logToFireworks]. *)
Definition log_request (w : Async.World) (rolloutId message : string)
  (status : Status) (apiKey : string) : Async.HttpRequest :=
{| Async.url := or_else (Async.env w !! "FW_TRACING_GATEWAY_BASE_URL")
                        "https://tracing.fireworks.ai" ++ "/logs";
   Async.method := "POST";
   Async.headers := [("Content-Type", "application/json");
                     ("Authorization", Transport.bearer apiKey);
                     ("User-Agent", "typescript-fetch/1.0.0")];
   Async.body :=
     {| Tracing.program := "eval_protocol";
        Tracing.status :=
          Some {| Tracing.si_code := Some (Qc_of_Z (value (code status)));
                  Tracing.si_message := Some (StatusModel.message status);
                  Tracing.si_details := map Tracing.ErrorInfo_json (details status) |};
        Tracing.message := message;
        Tracing.tags := [Transport.tag "rollout_id" rolloutId];
        Tracing.extras := {| Tracing.logger_name := "__main__." ++ rolloutId;
                             Tracing.level := "INFO";
                             Tracing.timestamp := Async.now w |} |} |}.

(** The same world with another network between the server and the gateway. *)
Definition with_fetch (w : Async.World)
  (outcome : Async.HttpRequest -> Async.FetchOutcome) : Async.World :=
{| Async.env := Async.env w; Async.now := Async.now w;
   Async.fetch_outcome := outcome;
   Async.create_outcome := Async.create_outcome w;
   Async.String_of := Async.String_of w;
   Async.Number_of := Async.Number_of w;
   Async.JSON_stringify := Async.JSON_stringify w;
   Async.zod_message := Async.zod_message w |}.

(** Every log POST ends: with a response of any status, or with an error. *)
Definition settles (w : Async.World) : Prop :=
forall r, Async.fetch_outcome w r <> Async.Pending.

(** Two runs that end in the same state with the same completion; their
    traces may differ. *)
Definition same_outcome {S A} (r r' : S * list Async.Event * Completion A) : Prop :=
r.1.1 = r'.1.1 /\ r.2 = r'.2.

(** A run that ended (it returned or threw) only after each of the fetches
    it started in line had settled. *)
Definition awaited_fetches (w : Async.World) {S A}
  (r : S * list Async.Event * Completion A) : Prop :=
Async.completion r <> Hangs ->
Forall (fun q => Async.fetch_outcome w q <> Async.Pending) (Async.fetches (Async.trace r)).

(** Code that starts no fetch in line, and code that does not call the
    provider. *)
Definition quiet {S A} (r : S * list Async.Event * Completion A) : Prop :=
Async.fetches (Async.trace r) = [].

Definition idle {S A} (r : S * list Async.Event * Completion A) : Prop :=
Async.creates (Async.trace r) = [].

(** When and with what the provider is called. *)
Definition forwards (w : Async.World) (req : Rollout.Request)
  (c : Async.CompletionCall) : Prop :=
Rollout.req_method req = "POST"
/\ exists data sanitized,
     Zod.safeParse Types.initRequestSchema (Rollout.req_body req) = Zod.success data
     /\ Environment.resolveApiKey (Async.env w)
          (Json.as_string (Json.prop_opt data "api_key"))
        = Some (Async.apiKey c)
     /\ Rollout.map_throwing Rollout.sanitize_message
          (Rollout.array_items (Json.prop_opt data "messages"))
        = Returns sanitized
     /\ Async.messages (Async.params c) = sanitized.

(** The answer to a request without a key. *)
Definition unauthorized (rolloutId : option string) : Rollout.Response :=
{| Rollout.res_status := 401;
   Rollout.res_json := Rollout.error_body
     "API key not provided in request or FIREWORKS_API_KEY environment variable"
     rolloutId |}.

(** A key that is present and not blank. *)
Definition usable (key : option string) : Prop :=
exists k, key = Some k /\ Environment.trim k <> "".

End Expected.

(** ** Sample values *)
Module Samples.
Import Js.

(** An [OpenAI.RateLimitError] as the SDK throws it. *)
Definition rate_limited : Value :=
Obj {| obj_class := OpenAIClass OpenAI.RateLimitError;
       obj_message := Some "429 Too many requests";
       obj_code := Some "rate_limit_exceeded";
       obj_toString := "Error: 429 Too many requests" |}.

(** A socket error of Node. *)
Definition connection_reset : Value :=
Obj {| obj_class := ErrorClass;
       obj_message := Some "read ECONNRESET";
       obj_code := Some "ECONNRESET";
       obj_toString := "Error: read ECONNRESET" |}.

(** A gateway that does not know [/logs] and answers 404 there. *)
Definition gateway_without_logs (r : Async.HttpRequest) : Async.FetchOutcome :=
if bool_decide (Async.url r = "https://tracing.fireworks.ai/logs")
then Async.Resolved 404 else Async.Resolved 200.

Definition world : Async.World :=
{| Async.env := {[ "FIREWORKS_API_KEY" := "fw_3ZkA9q7" ]};
   Async.now := "2025-01-01T00:00:00.000Z";
   Async.fetch_outcome := gateway_without_logs;
   Async.create_outcome := fun _ => Returns (Json.JObject []);
   Async.String_of := fun v => match v with Json.JString s => s | _ => "undefined" end;
   Async.Number_of := fun v => v;
   Async.JSON_stringify := fun _ => "{}";
   Async.zod_message := fun _ => "invalid request" |}.

(** The same world with a gateway that never answers. *)
Definition silent_world : Async.World :=
Expected.with_fetch world (fun _ => Async.Pending).

Definition transport : Transport.FireworksTransport := Logger.transport world.

(** A record as the rollout logger writes it. *)
Definition record : Transport.FireworksLogInfo :=
{| Transport.info_level := "info";
   Transport.info_LEVEL := Some "info";
   Transport.info_message := Json.JString "Rollout r1 completed";
   Transport.rollout_id := Json.JString "r1";
   Transport.experiment_id := Json.JUndefined;
   Transport.run_id := Json.JUndefined;
   Transport.rollout_ids := Json.JUndefined;
   Transport.info_status := Json.JUndefined;
   Transport.info_program := Json.JUndefined;
   Transport.info_logger_name := Some "init.r1" |}.

(** The same record without a rollout id. *)
Definition anonymous_record : Transport.FireworksLogInfo :=
{| Transport.info_level := "info";
   Transport.info_LEVEL := Some "info";
   Transport.info_message := Json.JString "hello";
   Transport.rollout_id := Json.JUndefined;
   Transport.experiment_id := Json.JUndefined;
   Transport.run_id := Json.JUndefined;
   Transport.rollout_ids := Json.JUndefined;
   Transport.info_status := Json.JUndefined;
   Transport.info_program := Json.JUndefined;
   Transport.info_logger_name := None |}.

Definition metadata : Json.Json :=
Json.JObject [ ("invocation_id", Json.JString "i1");
               ("experiment_id", Json.JString "e1");
               ("rollout_id", Json.JString "r1");
               ("run_id", Json.JString "u1");
               ("row_id", Json.JString "w1") ].

Definition user_message : Json.Json :=
Json.JObject [ ("role", Json.JString "user");
               ("content", Json.JString "Draw a red circle");
               ("name", Json.JNull);
               ("weight", Json.JNumber 1%Qc);
               ("reasoning_content", Json.JString "thinking") ].

(** A well-formed rollout request. *)
Definition request : Rollout.Request :=
{| Rollout.req_method := "POST";
   Rollout.req_body :=
     Json.JObject [ ("completion_params",
                      Json.JObject [("model", Json.JString "accounts/fireworks/models/qwen3")]);
                    ("messages", Json.JArray [user_message]);
                    ("metadata", metadata);
                    ("model_base_url", Json.JString "https://api.fireworks.ai/inference/v1") ] |}.

(** A request that names no rollout. *)
Definition request_without_metadata : Rollout.Request :=
{| Rollout.req_method := "POST";
   Rollout.req_body :=
     Json.JObject [ ("completion_params", Json.JObject []);
                    ("messages", Json.JArray [user_message]) ] |}.

(** A network on which every fetch fails. *)
Definition offline_world : Async.World :=
Expected.with_fetch world
  (fun _ => Async.Rejected {| Js.obj_class := Js.TypeErrorClass;
                              Js.obj_message := Some "fetch failed";
                              Js.obj_code := None;
                              Js.obj_toString := "TypeError: fetch failed" |}).

(** The request with a key of its own that is all blanks. *)
Definition request_with_blank_key : Rollout.Request :=
{| Rollout.req_method := "POST";
   Rollout.req_body :=
     Json.JObject [ ("completion_params", Json.JObject []);
                    ("messages", Json.JArray [user_message]);
                    ("metadata", metadata);
                    ("api_key", Json.JString "   ") ] |}.

(** A deployment without FIREWORKS_API_KEY. *)
Definition keyless_world : Async.World :=
{| Async.env := ∅;
   Async.now := Async.now world;
   Async.fetch_outcome := Async.fetch_outcome world;
   Async.create_outcome := Async.create_outcome world;
   Async.String_of := Async.String_of world;
   Async.Number_of := Async.Number_of world;
   Async.JSON_stringify := Async.JSON_stringify world;
   Async.zod_message := Async.zod_message world |}.

End Samples.

(** ** Further tables and predicates, for the properties of the code beyond
    the specification *)
Module Reference.
Import Js StatusModel Exceptions.
Import Expected.
Import Json Zod Types.
Import Tracing Async Transport.
Import Rollout.

(** [e.message], for any value *)
Definition message_of (e : Value) : option string :=
match e with Obj o => obj_message o | _ => None end.

(** The HTTP status of a failed rollout beside the status code that is
    logged for it, and the text that each HTTP status is announced with. *)
Definition http_status_table : list (Z * StatusCode) :=
[ (403, PERMISSION_DENIED); (404, NOT_FOUND); (429, RESOURCE_EXHAUSTED);
  (400, INVALID_ARGUMENT); (422, INVALID_ARGUMENT); (408, DEADLINE_EXCEEDED);
  (502, INTERNAL); (500, ALREADY_EXISTS); (500, UNAVAILABLE); (500, INTERNAL) ].

Definition http_error_prefix : list (Z * string) :=
[ (403, "Authentication failed: "); (404, "Model not found: ");
  (429, "Rate limit exceeded: "); (400, "Bad request: ");
  (408, "Request timeout: "); (502, "Upstream server error: ");
  (422, "Invalid request data: "); (500, "Internal error: ") ].

Definition error_statuses : list Z := [400; 403; 404; 408; 422; 429; 500; 502].

Definition response_statuses : list Z :=
[200; 400; 401; 403; 404; 405; 408; 422; 429; 500; 502].

(** The factories of [Status] for errors, by the code their name announces:
    the plain one and the one for rollouts. *)
Definition error_factories :
  list (StatusCode * (string -> list ErrorInfo -> Status)
        * (string -> option (list (string * string)) -> Status)) :=
[ (CANCELLED, cancelledError, rolloutCancelledError);
  (UNKNOWN, unknownError, rolloutUnknownError);
  (INVALID_ARGUMENT, invalidArgumentError, rolloutInvalidArgumentError);
  (DEADLINE_EXCEEDED, deadlineExceededError, rolloutDeadlineExceededError);
  (NOT_FOUND, notFoundError, rolloutNotFoundError);
  (ALREADY_EXISTS, alreadyExistsError, rolloutAlreadyExistsError);
  (PERMISSION_DENIED, permissionDeniedError, rolloutPermissionDeniedError);
  (RESOURCE_EXHAUSTED, resourceExhaustedError, rolloutResourceExhaustedError);
  (FAILED_PRECONDITION, failedPreconditionError, rolloutFailedPreconditionError);
  (ABORTED, abortedError, rolloutAbortedError);
  (OUT_OF_RANGE, outOfRangeError, rolloutOutOfRangeError);
  (UNIMPLEMENTED, unimplementedError, rolloutUnimplementedError);
  (INTERNAL, internalError, rolloutInternalError);
  (INTERNAL, error, rolloutError);
  (UNAVAILABLE, unavailableError, rolloutUnavailableError);
  (DATA_LOSS, dataLossError, rolloutDataLossError);
  (UNAUTHENTICATED, unauthenticatedError, rolloutUnauthenticatedError) ].

(** The statuses of the other factories. *)
Definition success_statuses (message : option string) (details : option (list ErrorInfo))
  : list Status :=
[ ok; rolloutRunning; evalRunning; rolloutFinished; evalFinished;
  scoreInvalid message details ].

(** Status codes whose exception is retried, status codes of failures that
    pass, and of failures that stay. *)
Definition retryable_status_codes : list StatusCode :=
[ UNKNOWN; DEADLINE_EXCEEDED; NOT_FOUND; PERMISSION_DENIED;
  UNAVAILABLE; UNAUTHENTICATED; RESOURCE_EXHAUSTED ].

Definition transient_codes : list StatusCode :=
[RESOURCE_EXHAUSTED; DEADLINE_EXCEEDED; UNAVAILABLE].

Definition permanent_codes : list StatusCode :=
[PERMISSION_DENIED; NOT_FOUND; INVALID_ARGUMENT; ALREADY_EXISTS].

Definition has_retryable_code (e : Value) : bool :=
match code_of e with
| Some c => bool_decide (c ∈ retryable_codes)
| None => false
end.

(** A string that is missing or empty: falsy either way. *)
Definition blank (o : option string) : Prop := o = None \/ o = Some "".


(** The strings among a list of values, in order. *)
Definition strings_of (items : list Json) : list string := omap as_string items.

(** The tag for a property of a record that is a string and not empty. *)
Definition optional_tag (key : string) (v : Json) : list string :=
match v with
| JString s => if bool_decide (s = "") then [] else [tag key s]
| _ => []
end.

(** The payload for a record of a rollout logger. *)
Definition logged_payload (now rolloutId logger_name level message : string)
  (status : option Status) : FireworksPayload :=
{| program := "eval_protocol";
   Tracing.status :=
     match status with
     | Some st => Some {| si_code := Some (Qc_of_Z (value (StatusModel.code st)));
                          si_message := Some (StatusModel.message st);
                          si_details := map ErrorInfo_json (details st) |}
     | None => None
     end;
   Tracing.message := message;
   tags := [tag "rollout_id" rolloutId];
   extras := {| logger_name := logger_name; level := level; timestamp := now |} |}.

(** The requests that one send of the transport makes for a payload. *)
Definition posts (w : World) (t : FireworksTransport) (payload : FireworksPayload)
  : list HttpRequest :=
match fetch_outcome w (post t "/logs" payload) with
| Resolved 404 => [post t "/logs" payload; post t "/v1/logs" payload]
| _ => [post t "/logs" payload]
end.

(** What a write to the logger of [rolloutId], created under the name
    [init], leaves in the trace. *)
Definition written (w : World) (rolloutId level message : string)
  (status : option Status) : list Event :=
map (Detached true)
  (map Fetch
     (posts w (Logger.transport w)
        (logged_payload (now w) rolloutId ("init." ++ rolloutId) level message status))).

(** A run whose result, when it returns one, is in [P]. *)
Definition answers {S A} (P : A -> Prop) (r : S * list Event * Completion A) : Prop :=
forall x, completion r = Returns x -> P x.

(** A run that leaves a state in [I] and throws values in [Q] only. *)
Definition kept {S A} (I : S -> Prop) (Q : Value -> Prop)
  (r : S * list Event * Completion A) : Prop :=
I r.1.1 /\ forall e, completion r = Throws e -> Q e.


(** A run with at most one call to the provider, in which a response with
    status 200 is returned only after that call returned. *)
Definition called_once (w : World) {S} (r : S * list Event * Completion Response)
  : Prop :=
(length (creates (trace r)) <= 1)%nat
/\ forall x, completion r = Returns x -> res_status x = 200 ->
     exists c v, creates (trace r) = [c] /\ create_outcome w c = Returns v.

(** The answer to a request whose method is not POST, and to a request
    without messages. *)
Definition other_method_response (method : string) : Response :=
if bool_decide (method = "OPTIONS") then {| res_status := 200; res_json := JObject [] |}
else if bool_decide (method = "GET") then {| res_status := 200; res_json := health |}
else {| res_status := 405;
        res_json := JObject [("error", JString ("Method " ++ method ++ " not allowed"))] |}.

Definition no_messages (rolloutId : option string) : Response :=
{| res_status := 400;
   res_json := error_body "messages is required and cannot be empty" rolloutId |}.

(** The tool that is sent for a tool of the request whose [function] is [f],
    and the tools that can be rebuilt. *)
Definition rebuilt_tool (f : Json) : Json :=
JObject [
  ("type", JString "function");
  ("function",
    JObject (("name", prop_opt f "name")
             :: List.filter (fun entry => truthy entry.2)
                  [("description", prop_opt f "description");
                   ("parameters", prop_opt f "parameters")])) ].

Definition usable_tool (tool : Json) : bool :=
negb (is_nullish tool) && negb (is_nullish (prop_opt tool "function")).

(** The keys of the two shapes of [messageSchema]. *)
Definition chat_message_keys : list string :=
[ "role"; "content"; "name"; "tool_call_id"; "tool_calls"; "function_call";
  "reasoning_content"; "control_plane_step"; "weight" ].

Definition tool_message_keys : list string := ["role"; "content"; "tool_call_id"; "name"].



End Reference.

(** ** Further sample values *)
Module Cases.
Import Js Json.

(** What validation makes of the well-formed request. *)
Definition validated : Json :=
JObject [ ("completion_params",
            JObject [("model", JString "accounts/fireworks/models/qwen3")]);
          ("messages",
            JArray [ JObject [ ("role", JString "user");
                               ("content", JString "Draw a red circle");
                               ("name", JNull);
                               ("reasoning_content", JString "thinking");
                               ("weight", JNumber 1%Qc) ] ]);
          ("metadata", Samples.metadata);
          ("model_base_url", JString "https://api.fireworks.ai/inference/v1") ].

Definition sanitized : list Json :=
[ JObject [ ("role", JString "user"); ("content", JString "Draw a red circle") ] ].

Definition parameters : Async.CompletionParams :=
{| Async.model := "accounts/fireworks/models/qwen3";
   Async.messages := sanitized;
   Async.stream := false;
   Async.temperature := None; Async.max_tokens := None; Async.top_p := None;
   Async.frequency_penalty := None; Async.presence_penalty := None;
   Async.stop := None; Async.tools := None |}.

Definition call : Async.CompletionCall :=
{| Async.apiKey := "fw_3ZkA9q7";
   Async.baseURL := JString "https://api.fireworks.ai/inference/v1";
   Async.params := parameters |}.

(** The same world with a provider that is over its rate limit. *)
Definition busy_world : Async.World :=
{| Async.env := Async.env Samples.world;
   Async.now := Async.now Samples.world;
   Async.fetch_outcome := fun _ => Async.Resolved 200;
   Async.create_outcome := fun _ => Throws Samples.rate_limited;
   Async.String_of := Async.String_of Samples.world;
   Async.Number_of := Async.Number_of Samples.world;
   Async.JSON_stringify := Async.JSON_stringify Samples.world;
   Async.zod_message := Async.zod_message Samples.world |}.

(** A request that passes validation and holds no message. *)
Definition request_without_messages : Rollout.Request :=
{| Rollout.req_method := "POST";
   Rollout.req_body :=
     JObject [ ("completion_params", JObject []);
               ("messages", JArray []);
               ("metadata", Samples.metadata) ] |}.

(** A tool message as an agent loop sends it back. *)
Definition tool_message : Json :=
JObject [ ("role", JString "tool");
          ("content", JString "<svg/>");
          ("tool_call_id", JString "call_1");
          ("weight", JNumber 1%Qc) ].

End Cases.

(** * Properties *)

Import Js StatusModel Exceptions.

(** ** The status taxonomy and the exception table *)

Lemma new_statusCode (cls : EPClass) (m : string) (c : StatusCode) :
  STATUS_CODE_TO_EXCEPTION !! value c = Some (Some cls) ->
  statusCode (new cls m c) = c /\ ep_message (new cls m c) = m
  /\ ep_class (new cls m c) = cls.
Proof.
  intros Htable.
  destruct c; vm_compute in Htable; inversion Htable; subst cls;
    repeat split; reflexivity.
Qed.

Lemma every_EPClass_is_EvalProtocolError (cls : EPClass) :
  subclassOf (EPErrorClass cls) (EPErrorClass EvalProtocolError) = true.
Proof. destruct cls; reflexivity. Qed.

(** C8. For every error status code [c] from CANCELLED (1) to
    UNAUTHENTICATED (16) and every message [m], [exceptionForStatusCode c m]
    is an instance of (a subclass of) [EvalProtocolError] whose [statusCode]
    is [c] and whose message is [m]; for OK, FINISHED, RUNNING and
    SCORE_INVALID it is [null]. *)
Theorem exceptionForStatusCode_round_trip (c : StatusCode) (m : string) :
  (1 <= value c <= 16 ->
     exists e, exceptionForStatusCode c m = Some e
       /\ statusCode e = c /\ ep_message e = m
       /\ subclassOf (EPErrorClass (ep_class e)) (EPErrorClass EvalProtocolError) = true)
  /\ (c = OK \/ c = FINISHED \/ c = RUNNING \/ c = SCORE_INVALID ->
     exceptionForStatusCode c m = None).
Proof.
  split.
  - intros Hrange. unfold exceptionForStatusCode.
    destruct (STATUS_CODE_TO_EXCEPTION !! value c) as [[cls|]|] eqn:Htable.
    + exists (new cls m c).
      destruct (new_statusCode cls m c Htable) as (Hc & Hm & Hcls).
      repeat split; try assumption.
      apply every_EPClass_is_EvalProtocolError.
    + exfalso. destruct c; vm_compute in Htable; try discriminate;
        simpl in Hrange; lia.
    + exfalso. destruct c; vm_compute in Htable; discriminate.
  - intros [-> | [-> | [-> | ->]]]; reflexivity.
Qed.

Lemma exceptionForStatusCode_round_trip_witness :
  (exists e, exceptionForStatusCode ABORTED "stopped" = Some e
     /\ statusCode e = ABORTED /\ ep_message e = "stopped"
     /\ subclassOf (EPErrorClass (ep_class e)) (EPErrorClass EvalProtocolError) = true)
  /\ exceptionForStatusCode RUNNING "stopped" = None.
Proof.
  split.
  - apply (proj1 (exceptionForStatusCode_round_trip ABORTED "stopped")).
    simpl. lia.
  - apply (proj2 (exceptionForStatusCode_round_trip RUNNING "stopped")).
    right. right. left. reflexivity.
Defined.

(** ** Classification of thrown values *)

Import Expected.

Lemma elem_of_unavailable_codes (c : string) :
  bool_decide (c ∈ unavailable_codes) = is_network_code (Some c).
Proof.
  unfold is_network_code, unavailable_codes.
  destruct (decide (c = "ECONNRESET")) as [->|H1]; [reflexivity|].
  destruct (decide (c = "ENOTFOUND")) as [->|H2]; [reflexivity|].
  destruct (decide (c = "ETIMEDOUT")) as [->|H3]; [reflexivity|].
  rewrite bool_decide_eq_false_2
    by (rewrite !elem_of_cons, elem_of_nil; tauto).
  rewrite !bool_decide_eq_false_2 by congruence. reflexivity.
Qed.

Lemma elem_of_retryable_codes (c : string) :
  bool_decide (c ∈ retryable_codes)
  = bool_decide (Some c = Some "ECONNRESET") || bool_decide (Some c = Some "ENOTFOUND")
    || bool_decide (Some c = Some "ETIMEDOUT") || bool_decide (Some c = Some "ECONNREFUSED").
Proof.
  unfold retryable_codes.
  destruct (decide (c = "ECONNRESET")) as [->|H1]; [reflexivity|].
  destruct (decide (c = "ENOTFOUND")) as [->|H2]; [reflexivity|].
  destruct (decide (c = "ETIMEDOUT")) as [->|H3]; [reflexivity|].
  destruct (decide (c = "ECONNREFUSED")) as [->|H4]; [reflexivity|].
  rewrite bool_decide_eq_false_2
    by (rewrite !elem_of_cons, elem_of_nil; tauto).
  rewrite !bool_decide_eq_false_2 by congruence. reflexivity.
Qed.

Ltac table_rows H :=
  repeat (apply elem_of_cons in H; destruct H as [H | H]);
  [ inversion H; subst; clear H .. | apply elem_of_nil in H; destruct H ].

Ltac each_class k :=
  let oc := fresh "oc" in
  let ec := fresh "ec" in
  destruct k as [ | | | oc | ec]; [ | | | destruct oc | destruct ec ].

(** What the code answers on every value that is not [null] or [undefined]. *)
Lemma mapOpenAIErrorToStatus_code (e : Value) :
  nullish e = false ->
  exists st, mapOpenAIErrorToStatus e = Returns st /\ code st = expected_code e.
Proof.
  intros Hobj. destruct e as [ | | p | [cls msg c str]]; try discriminate.
  - eexists. split; reflexivity.
  - unfold expected_code. simpl code_of.
    each_class cls;
      (destruct c as [c|]; [ rewrite ?elem_of_unavailable_codes;
          cbn; destruct (is_network_code (Some c)) | cbn ]);
      eexists; split; reflexivity.
Qed.

(** The rows of the table exclude each other: no class of the table extends
    another one. *)
Lemma expected_code_row (e : Value) (cls : Class) (c : StatusCode) :
  (cls, c) ∈ openai_status_table -> instanceof e cls = true -> expected_code e = c.
Proof.
  intros Hrow Hinst.
  destruct e as [ | | p | [k msg cd str]]; try discriminate.
  unfold expected_code.
  each_class k; table_rows Hrow; first [ discriminate Hinst | reflexivity ].
Qed.

Lemma find_none_instance_of_any (e : Value) :
  instance_of_any e (openai_status_table.*1) = false ->
  find (fun row => instanceof e row.1) openai_status_table = None.
Proof.
  unfold instance_of_any. simpl. intros H.
  repeat (apply orb_false_elim in H; destruct H as [? H]).
  repeat match goal with Hi : instanceof e _ = false |- _ => rewrite Hi; clear Hi end.
  reflexivity.
Qed.

Lemma expected_code_standard (e : Value) :
  standard (expected_code e) = true /\ expected_code e <> OK.
Proof.
  unfold expected_code.
  destruct (find _ openai_status_table) as [[cls c]|] eqn:Hfind.
  - apply find_some in Hfind as [Hin _]. apply list_elem_of_In in Hin.
    table_rows Hin; split; done.
  - destruct (code_of e) as [c|]; [case_bool_decide|]; split; done.
Qed.

(** C1 (as amended). For every thrown value [e] other than [null] and
    [undefined], [mapOpenAIErrorToStatus e] returns a Status whose code is a
    standard code (0..16) other than OK, given by the table: an instance of a
    class of [openai_status_table] gets the code of its row; any other value
    whose [code] is ECONNRESET, ENOTFOUND or ETIMEDOUT gets UNAVAILABLE; every
    other value gets INTERNAL. On [null] and [undefined] the function throws
    a TypeError (it reads [error.message] first). *)
Theorem mapOpenAIErrorToStatus_table (e : Value) :
  (nullish e = false ->
     exists st, mapOpenAIErrorToStatus e = Returns st
       /\ standard (code st) = true /\ code st <> OK
       /\ (forall cls c, (cls, c) ∈ openai_status_table ->
             instanceof e cls = true -> code st = c)
       /\ (instance_of_any e (openai_status_table.*1) = false ->
           (forall c, code_of e = Some c -> c ∈ unavailable_codes ->
              code st = UNAVAILABLE)
           /\ ((forall c, code_of e = Some c -> c ∉ unavailable_codes) ->
              code st = INTERNAL)))
  /\ (nullish e = true -> exists m, mapOpenAIErrorToStatus e = Throws (TypeError m)).
Proof.
  split.
  - intros Hobj.
    destruct (mapOpenAIErrorToStatus_code e Hobj) as (st & Hret & Hcode).
    exists st. rewrite Hcode.
    destruct (expected_code_standard e) as [Hstd Hok].
    split; [exact Hret|]. split; [exact Hstd|]. split; [exact Hok|].
    split; [intros cls c; apply expected_code_row|].
    intros Hnone. unfold expected_code.
    rewrite (find_none_instance_of_any e Hnone). split.
    + intros c Hc Hin. rewrite Hc.
      rewrite bool_decide_eq_true_2 by assumption. reflexivity.
    + intros Hno. destruct (code_of e) as [c|]; [|reflexivity].
      rewrite bool_decide_eq_false_2 by (apply Hno; reflexivity). reflexivity.
  - intros Hnull. destruct e; try discriminate; eexists; reflexivity.
Qed.

Lemma mapOpenAIErrorToStatus_table_witness :
  (exists st, mapOpenAIErrorToStatus Samples.rate_limited = Returns st
     /\ code st = RESOURCE_EXHAUSTED)
  /\ (exists st, mapOpenAIErrorToStatus Samples.connection_reset = Returns st
     /\ code st = UNAVAILABLE)
  /\ (exists m, mapOpenAIErrorToStatus Undefined = Throws (TypeError m)).
Proof.
  split; [|split].
  - destruct (proj1 (mapOpenAIErrorToStatus_table Samples.rate_limited) eq_refl)
      as (st & Hret & _ & _ & Hrows & _).
    exists st. split; [exact Hret|].
    apply (Hrows (OpenAIClass OpenAI.RateLimitError)); [|reflexivity].
    unfold openai_status_table. rewrite !elem_of_cons. tauto.
  - destruct (proj1 (mapOpenAIErrorToStatus_table Samples.connection_reset) eq_refl)
      as (st & Hret & _ & _ & _ & Hcodes).
    exists st. split; [exact Hret|].
    apply (proj1 (Hcodes eq_refl) "ECONNRESET"); [reflexivity|].
    unfold unavailable_codes. rewrite !elem_of_cons. tauto.
  - apply (proj2 (mapOpenAIErrorToStatus_table Undefined)). reflexivity.
Defined.

(** C1, as stated, fails: [throw null] is legal, and on [null] the function
    throws instead of returning a Status. *)
Lemma mapOpenAIErrorToStatus_not_total :
  mapOpenAIErrorToStatus Null
  = Throws (TypeError "Cannot read properties of null (reading 'message')")
  /\ ~ (forall e, exists st, mapOpenAIErrorToStatus e = Returns st).
Proof.
  split; [reflexivity|]. intros Htotal.
  destruct (Htotal Null) as [st Hst]. discriminate Hst.
Qed.

Lemma isRetryableError_retryable (e : Value) :
  nullish e = false -> isRetryableError e = Returns (retryable e).
Proof.
  intros Hobj. destruct e as [ | | p | [k msg cd str]]; try discriminate.
  - reflexivity.
  - unfold retryable, isRetryableError, instance_of_any, code_of, instanceof,
      get_code, cbind.
    cbn [obj_class obj_code existsb retryable_openai retryable_eval_protocol].
    destruct cd as [c|].
    + rewrite elem_of_retryable_codes.
      generalize (bool_decide (Some c = Some "ECONNRESET")),
        (bool_decide (Some c = Some "ENOTFOUND")),
        (bool_decide (Some c = Some "ETIMEDOUT")),
        (bool_decide (Some c = Some "ECONNREFUSED")).
      intros b1 b2 b3 b4.
      each_class k; destruct b1, b2, b3, b4; reflexivity.
    + each_class k; reflexivity.
Qed.

(** C7 (as amended). [isRetryableError e] returns [true] exactly when [e] is
    an instance of one of the four OpenAI classes of [retryable_openai], or
    [e.code] is one of the four codes of [retryable_codes], or [e] is an
    instance of one of the seven classes of [retryable_eval_protocol]; on every
    other value that is not [null] or [undefined] it returns [false]; on
    [null] and [undefined] it throws a TypeError (it reads [error.code]). *)
Theorem isRetryableError_classifies (e : Value) :
  (isRetryableError e = Returns true <-> retryable e = true)
  /\ (nullish e = false -> isRetryableError e = Returns (retryable e))
  /\ (nullish e = true -> exists m, isRetryableError e = Throws (TypeError m)).
Proof.
  split; [|split].
  - destruct (nullish e) eqn:Hnull.
    + destruct e; try discriminate; split; discriminate.
    + rewrite (isRetryableError_retryable e Hnull). split; congruence.
  - apply isRetryableError_retryable.
  - intros Hnull. destruct e; try discriminate; eexists; reflexivity.
Qed.

Lemma isRetryableError_classifies_witness :
  isRetryableError Samples.rate_limited = Returns true
  /\ isRetryableError (Primitive "boom") = Returns false
  /\ (exists m, isRetryableError Undefined = Throws (TypeError m)).
Proof.
  split; [|split].
  - apply (proj1 (proj2 (isRetryableError_classifies Samples.rate_limited))).
    reflexivity.
  - apply (proj1 (proj2 (isRetryableError_classifies (Primitive "boom")))).
    reflexivity.
  - apply (proj2 (proj2 (isRetryableError_classifies Undefined))). reflexivity.
Defined.

(** C7, as stated, fails on [null]: no condition of the claim holds of it,
    and the function does not return [false]. *)
Lemma isRetryableError_null :
  retryable Null = false
  /\ isRetryableError Null <> Returns false
  /\ isRetryableError Null
     = Throws (TypeError "Cannot read properties of null (reading 'code')").
Proof. repeat split; try reflexivity. discriminate. Qed.

(** ** Validation of the request body *)

Import Json Zod Types.

Lemma lookup_field_None (k : string) (fields : list (string * Json)) :
  lookup_field k fields = None <-> k ∉ fields.*1.
Proof.
  induction fields as [|[k' v] rest IH]; simpl.
  - split; [intros _; apply not_elem_of_nil|reflexivity].
  - rewrite not_elem_of_cons. case_bool_decide as Hk.
    + split; [discriminate|]. intros [Hne _]. congruence.
    + rewrite IH. split; [intros Hrest; split; [congruence|exact Hrest]|tauto].
Qed.

Lemma lookup_field_cons_ne (k k' : string) (v : Json) (fields : list (string * Json)) :
  k' <> k -> lookup_field k ((k', v) :: fields) = lookup_field k fields.
Proof. intros Hne. simpl. rewrite bool_decide_eq_false_2 by assumption. reflexivity. Qed.

Lemma finish_valid {A} (wrap : A -> Json) (r : list ZodIssue * A) (d : Json) :
  finish wrap r = Valid d -> exists out, r = ([], out) /\ d = wrap out.
Proof.
  destruct r as [[|i issues] out]; simpl; [|discriminate].
  intros [= <-]. exists out. split; reflexivity.
Qed.

Lemma parse_shape_valid (parse : Schema -> list PathItem -> Json -> ParseReturn)
    (path : list PathItem) (fields : list (string * Json))
    (shape : list (string * Schema)) (out : list (string * Json)) :
  (forall s p v, parse s p v <> Invalid []) ->
  NoDup (shape.*1) ->
  parse_shape parse path fields shape = ([], out) ->
  (forall k sk, (k, sk) ∈ shape ->
     parse sk (path ++ [Key k])%list (default JUndefined (lookup_field k fields))
     = Valid (default JUndefined (lookup_field k out)))
  /\ out.*1 ⊆ shape.*1 /\ NoDup (out.*1).
Proof.
  intros Hissue. revert out.
  induction shape as [|[k sk] rest IH]; intros out Hnodup Hrun.
  - simpl in Hrun. injection Hrun as <-. split; [|split].
    + intros k sk Hin. apply elem_of_nil in Hin. destruct Hin.
    + intros x Hx. exact Hx.
    + constructor.
  - simpl in Hnodup. apply NoDup_cons in Hnodup as [Hfresh Hnodup].
    simpl in Hrun.
    destruct (parse_shape parse path fields rest) as [issues out'] eqn:Hrest.
    destruct (parse sk (path ++ [Key k])%list
                (default JUndefined (lookup_field k fields))) as [d|here] eqn:Hk.
    2:{ injection Hrun as Hnil _. apply app_eq_nil in Hnil as [-> _].
        exfalso. exact (Hissue _ _ _ Hk). }
    assert (Hissues : issues = []).
    { destruct (is_undefined d && _); injection Hrun as -> _; reflexivity. }
    subst issues.
    destruct (IH out' Hnodup eq_refl) as (Hvals & Hsub & Hnd).
    assert (Hk_out' : lookup_field k out' = None).
    { apply lookup_field_None. intros Hin. apply Hfresh, Hsub, Hin. }
    destruct (is_undefined d && negb (bool_decide (is_Some (lookup_field k fields))))
      eqn:Hskip; injection Hrun as <-.
    + split; [|split].
      * intros k1 sk1 Hin. apply elem_of_cons in Hin as [[= -> ->]|Hin].
        -- rewrite Hk, Hk_out'. apply andb_true_iff in Hskip as [Hu _].
           destruct d; try discriminate. reflexivity.
        -- apply Hvals, Hin.
      * simpl. intros x Hx. apply elem_of_cons. right. apply Hsub, Hx.
      * exact Hnd.
    + split; [|split].
      * intros k1 sk1 Hin. apply elem_of_cons in Hin as [[= -> ->]|Hin].
        -- rewrite Hk. simpl. rewrite bool_decide_eq_true_2 by reflexivity.
           reflexivity.
        -- rewrite lookup_field_cons_ne; [apply Hvals, Hin|].
           intros ->. apply Hfresh. apply list_elem_of_fmap. exists (k1, sk1).
           split; [reflexivity|exact Hin].
      * simpl. intros x Hx. apply elem_of_cons in Hx as [->|Hx];
          apply elem_of_cons; [left; reflexivity|right; apply Hsub, Hx].
      * simpl. apply NoDup_cons. split; [|exact Hnd].
        intros Hin. apply Hfresh, Hsub, Hin.
Qed.

Lemma finish_invalid_nonempty {A} (wrap : A -> Json) (r : list ZodIssue * A) :
  finish wrap r <> Invalid [].
Proof. destruct r as [[|i issues] out]; discriminate. Qed.

Lemma parse_options_invalid_nonempty parse path input options :
  parse_options parse path input options <> Invalid [].
Proof.
  induction options as [|o rest IH]; simpl; [discriminate|].
  destruct (parse o path input); [discriminate|exact IH].
Qed.

Lemma parse_invalid_nonempty (s : Schema) (path : list PathItem) (input : Json) :
  parse s path input <> Invalid [].
Proof.
  revert path input. induction s; intros path input; simpl;
    try (destruct input; first [discriminate | apply finish_invalid_nonempty
                            | case_bool_decide; discriminate | auto ]; fail).
  apply parse_options_invalid_nonempty.
Qed.

Lemma parse_object (shape : list (string * Schema)) (path : list PathItem)
    (input data : Json) :
  NoDup (shape.*1) ->
  parse (z_object shape) path input = Valid data ->
  exists fields out,
    input = JObject fields /\ data = JObject out
    /\ (forall k sk, (k, sk) ∈ shape ->
          parse sk (path ++ [Key k])%list (default JUndefined (lookup_field k fields))
          = Valid (default JUndefined (lookup_field k out)))
    /\ out.*1 ⊆ shape.*1 /\ NoDup (out.*1).
Proof.
  intros Hnodup Hparse. simpl in Hparse.
  destruct input as [ | | | | | | fields]; try discriminate.
  apply finish_valid in Hparse as (out & Hrun & ->).
  exists fields, out. split; [reflexivity|]. split; [reflexivity|].
  exact (parse_shape_valid parse path fields shape out
           parse_invalid_nonempty Hnodup Hrun).
Qed.

Lemma default_lookup_object k fields out :
  default JUndefined (lookup_field k fields) = JObject out ->
  lookup_field k fields = Some (JObject out).
Proof. destruct (lookup_field k fields); simpl; [congruence|discriminate]. Qed.

Lemma parse_string path input d :
  parse z_string path input = Valid d -> exists s, input = JString s /\ d = JString s.
Proof. destruct input; simpl; try discriminate. intros [= <-]. eauto. Qed.

Lemma default_lookup_string k fields s :
  default JUndefined (lookup_field k fields) = JString s ->
  lookup_field k fields = Some (JString s).
Proof. destruct (lookup_field k fields); simpl; [congruence|discriminate]. Qed.

Ltac in_shape := rewrite !elem_of_cons; tauto.

Lemma string_key (path : list PathItem) (shape : list (string * Schema))
    (fields out : list (string * Json)) (k : string) :
  (forall k sk, (k, sk) ∈ shape ->
     parse sk (path ++ [Key k])%list (default JUndefined (lookup_field k fields))
     = Valid (default JUndefined (lookup_field k out))) ->
  (k, z_string) ∈ shape ->
  has_string k fields /\ has_string k out.
Proof.
  intros Hkeys Hin. apply Hkeys in Hin. apply parse_string in Hin as (s & Hi & Ho).
  split; exists s; apply default_lookup_string; [exact Hi|]. 
  symmetry in Ho. symmetry. rewrite <- Ho. reflexivity.
Qed.

Ltac nodup_strings :=
  repeat (apply NoDup_cons; split;
          [rewrite ?elem_of_cons, elem_of_nil; intuition discriminate|]);
  apply NoDup_nil; exact I.

Lemma parse_items_valid (parse_element : list PathItem -> Json -> ParseReturn)
    (path : list PathItem) (i : nat) (items out : list Json) :
  (forall p v, parse_element p v <> Invalid []) ->
  parse_items parse_element path i items = ([], out) ->
  Forall2 (fun x d => exists p, parse_element p x = Valid d) items out.
Proof.
  intros Hissue. revert i out.
  induction items as [|x rest IH]; intros i out Hrun; simpl in Hrun.
  - injection Hrun as <-. constructor.
  - destruct (parse_items parse_element path (S i) rest) as [issues out'] eqn:Hrest.
    destruct (parse_element (path ++ [Index i])%list x) as [d|here] eqn:Hx.
    + injection Hrun as -> <-. constructor; [eauto|]. exact (IH _ _ Hrest).
    + injection Hrun as Hnil _. apply app_eq_nil in Hnil as [-> _].
      exfalso. exact (Hissue _ _ Hx).
Qed.

Lemma parse_union (options : list Schema) (path : list PathItem) (input : Json) :
  parse (z_union options) path input = parse_options parse path input options.
Proof. reflexivity. Qed.

Lemma parse_options_cons (o : Schema) (rest : list Schema) (path : list PathItem)
    (input : Json) :
  parse_options parse path input (o :: rest)
  = match parse o path input with
    | Valid d => Valid d
    | Invalid _ => parse_options parse path input rest
    end.
Proof. reflexivity. Qed.

Lemma parse_options_nil (path : list PathItem) (input : Json) :
  parse_options parse path input [] = issue invalid_union path.
Proof. reflexivity. Qed.

Lemma parse_messageSchema (path : list PathItem) (input d : Json) :
  parse messageSchema path input = Valid d -> validated_message d.
Proof.
  unfold messageSchema.
  rewrite parse_union, !parse_options_cons, parse_options_nil.
  match goal with
  | |- context [parse (z_object ?shape) path input] =>
      destruct (parse (z_object shape) path input) as [d1|] eqn:Hfirst
  end.
  - intros [= <-].
    apply parse_object in Hfirst as (fields & out & -> & -> & Hkeys & Hsub & Hnd);
      [|simpl; nodup_strings].
    specialize (Hkeys "role" _ ltac:(apply elem_of_cons; left; reflexivity)).
    simpl in Hkeys.
    destruct (default JUndefined (lookup_field "role" fields)) as [ | | | |r| | ];
      try discriminate.
    case_bool_decide as Hr; [|discriminate]. injection Hkeys as Hout.
    exists out, r. split; [reflexivity|]. split; [exact Hnd|].
    split; [apply default_lookup_string; congruence|].
    rewrite !elem_of_cons in Hr. rewrite !elem_of_cons. tauto.
  - match goal with
    | |- context [parse (z_object ?shape) path input] =>
        destruct (parse (z_object shape) path input) as [d2|] eqn:Hsecond
    end; [|discriminate].
    intros [= <-].
    apply parse_object in Hsecond as (fields & out & -> & -> & Hkeys & Hsub & Hnd);
      [|simpl; nodup_strings].
    specialize (Hkeys "role" _ ltac:(apply elem_of_cons; left; reflexivity)).
    simpl in Hkeys.
    destruct (default JUndefined (lookup_field "role" fields)) as [ | | | |r| | ];
      try discriminate.
    case_bool_decide as Hr; [|discriminate]. injection Hkeys as Hout.
    exists out, r. split; [reflexivity|]. split; [exact Hnd|].
    split; [apply default_lookup_string; congruence|].
    subst r. rewrite !elem_of_cons. tauto.
Qed.

Lemma Forall2_validated (items out : list Json) :
  Forall2 (fun x d => exists p, parse messageSchema p x = Valid d) items out ->
  Forall validated_message out.
Proof.
  induction 1 as [|x d items out [p Hp] _ IH]; constructor; [|exact IH].
  exact (parse_messageSchema p x d Hp).
Qed.

Lemma parse_optional_array (element : Schema) (path : list PathItem) (input d : Json) :
  parse (nullable (optional (z_array element))) path input = Valid d ->
  d = JUndefined \/ d = JNull
  \/ exists items out,
       input = JArray items /\ d = JArray out
       /\ parse_items (parse element) path 0 items = ([], out).
Proof.
  destruct input as [ | | | | |items| ]; simpl; try discriminate.
  - intros [= <-]. left. reflexivity.
  - intros [= <-]. right. left. reflexivity.
  - intros Hfinish. apply finish_valid in Hfinish as (out & Hrun & ->).
    right. right. exists items, out. repeat split. exact Hrun.
Qed.

Lemma parse_record_any (path : list PathItem) (input d : Json) :
  parse (z_record z_any) path input = Valid d -> exists fields, input = JObject fields.
Proof. destruct input; simpl; try discriminate. eauto. Qed.

Lemma safeParse_initRequest (body data : Json) :
  safeParse initRequestSchema body = success data ->
  required_fields body /\ validated_request data.
Proof.
  unfold safeParse.
  destruct (parse initRequestSchema [] body) as [d|] eqn:Hparse; [|discriminate].
  intros [= <-]. unfold initRequestSchema in Hparse.
  apply parse_object in Hparse as (fields & out & -> & -> & Hkeys & Hsub & Hnd);
    [|simpl; nodup_strings].
  pose proof (Hkeys "completion_params" _ ltac:(in_shape)) as Hcp.
  pose proof (Hkeys "metadata" _ ltac:(in_shape)) as Hmd.
  pose proof (Hkeys "messages" _ ltac:(in_shape)) as Hmsgs.
  clear Hkeys.
  unfold rolloutMetadataSchema in Hmd.
  apply parse_object in Hmd as (md & mdout & Hmd_in & Hmd_out & Hids & _ & _);
    [|simpl; nodup_strings].
  apply default_lookup_object in Hmd_in, Hmd_out.
  destruct (string_key _ _ _ _ "invocation_id" Hids ltac:(in_shape)) as [Hi1 _].
  destruct (string_key _ _ _ _ "experiment_id" Hids ltac:(in_shape)) as [Hi2 _].
  destruct (string_key _ _ _ _ "rollout_id" Hids ltac:(in_shape)) as [Hi3 [rid Ho3]].
  destruct (string_key _ _ _ _ "run_id" Hids ltac:(in_shape)) as [Hi4 _].
  destruct (string_key _ _ _ _ "row_id" Hids ltac:(in_shape)) as [Hi5 _].
  split.
  - apply parse_record_any in Hcp as [cp Hcp].
    destruct (lookup_field "completion_params" fields) as [v|] eqn:Hcpf;
      [simpl in Hcp; subst v|discriminate].
    exists fields, cp, md. repeat split; assumption.
  - exists out, mdout, rid. repeat split; try assumption.
    apply parse_optional_array in Hmsgs
      as [Hm | [Hm | (items & items' & _ & Hm & Hrun)]]; cbv zeta; rewrite Hm.
    + left. reflexivity.
    + right. left. reflexivity.
    + right. right. exists items'. split; [reflexivity|].
      apply parse_items_valid in Hrun;
        [|intros p v; apply parse_invalid_nonempty].
      exact (Forall2_validated _ _ Hrun).
Qed.

(** ** The Fireworks transport *)

Import Tracing Async Transport.

Lemma or_opt_None_nonempty (a : option string) (x : string) :
  or_opt a None = Some x -> a = Some x /\ x <> "".
Proof.
  unfold or_opt. destruct a as [y|]; [|discriminate].
  case_bool_decide; [discriminate|]. intros [= ->]. split; [reflexivity|assumption].
Qed.

(** The rollout id is the [rollout_id] of the record when that is a string
    that is not empty, and the value of the environment variable otherwise. *)
Lemma getRolloutId_source (t : FireworksTransport) (env : gmap string string)
    (info : FireworksLogInfo) (id : string) :
  getRolloutId t env info = Some id ->
  id <> "" /\ (rollout_id info = JString id \/ env !! rolloutIdEnv t = Some id).
Proof.
  unfold getRolloutId.
  destruct (rollout_id info) as [ | | | | rid | | ];
    try (intros Henv; apply or_opt_None_nonempty in Henv; tauto).
  case_bool_decide as Hrid;
    [intros Henv; apply or_opt_None_nonempty in Henv; tauto|].
  intros [= ->]. split; [assumption|left; reflexivity].
Qed.

Lemma getRolloutId_unavailable (t : FireworksTransport) (env : gmap string string)
    (info : FireworksLogInfo) :
  as_string (rollout_id info) = None -> env !! rolloutIdEnv t = None ->
  getRolloutId t env info = None.
Proof.
  unfold getRolloutId. intros Hinfo ->.
  destruct (rollout_id info); try reflexivity. discriminate Hinfo.
Qed.

Lemma sendToFireworks_run {S} (w : World) (t : FireworksTransport)
    (info : FireworksLogInfo) (s : S) (id : string) :
  gatewayBaseUrl t <> "" ->
  getRolloutId t (env w) info = Some id ->
  let payload := buildPayload (now w) info id in
  let first := post t "/logs" payload in
  let second := post t "/v1/logs" payload in
  sendToFireworks w t info s =
    match fetch_outcome w first with
    | Resolved status =>
        if (status =? 404)%Z then
          (s, [Fetch first; Fetch second],
           match fetch_outcome w second with Pending => Hangs | _ => Returns tt end)
        else (s, [Fetch first], Returns tt)
    | Rejected _ => (s, [Fetch first], Returns tt)
    | Pending => (s, [Fetch first], Hangs)
    end.
Proof.
  intros Hbase Hid payload first second.
  destruct (getRolloutId_source _ _ _ _ Hid) as [Hne _].
  unfold sendToFireworks. rewrite Hid.
  rewrite !bool_decide_eq_false_2 by assumption.
  fold payload. unfold try_catch, bind, fetch, ret, lift.
  change {| url := strip_trailing_slash (gatewayBaseUrl t) ++ "/logs"; method := "POST";
            headers := request_headers t; body := payload |} with first.
  change {| url := strip_trailing_slash (gatewayBaseUrl t) ++ "/v1/logs"; method := "POST";
            headers := request_headers t; body := payload |} with second.
  destruct (fetch_outcome w first) as [status| reason |].
  - destruct (status =? 404)%Z.
    + destruct (fetch_outcome w second) as [status2| reason2 |]; try reflexivity.
      case_bool_decide; reflexivity.
    + reflexivity.
  - case_bool_decide; reflexivity.
  - reflexivity.
Qed.

Lemma sendToFireworks_silent {S} (w : World) (t : FireworksTransport)
    (info : FireworksLogInfo) (s : S) :
  gatewayBaseUrl t = "" \/ getRolloutId t (env w) info = None ->
  sendToFireworks w t info s = (s, [], Returns tt).
Proof.
  unfold sendToFireworks. intros [Hbase | Hid].
  - rewrite bool_decide_eq_true_2 by assumption. reflexivity.
  - rewrite Hid. case_bool_decide; reflexivity.
Qed.

Lemma strip_trailing_slash_slash (front : string) :
  strip_trailing_slash (front ++ "/") = front.
Proof.
  induction front as [|a rest IH]; [reflexivity|].
  simpl. rewrite IH. destruct rest; reflexivity.
Qed.

Lemma strip_trailing_slash_other (s : string) :
  (forall front, s <> front ++ "/") -> strip_trailing_slash s = s.
Proof.
  induction s as [|a rest IH]; intros Hno; [reflexivity|].
  simpl. destruct rest as [|b rest'].
  - case_bool_decide as Ha; [|reflexivity].
    subst a. exfalso. exact (Hno "" eq_refl).
  - rewrite IH; [reflexivity|].
    intros front Hrest. apply (Hno (String a front)). simpl. rewrite Hrest.
    reflexivity.
Qed.

(** C3. The transport posts the payload once, to the gateway's [/logs]; it
    posts the same payload a second time, to [/v1/logs], exactly when the
    first response has status 404; it never makes a third request. (A slash
    that ends the configured gateway URL is dropped before the path is
    added; without a rollout id nothing is sent, see C10.) *)
Theorem sendToFireworks_post_and_fallback {S} (w : World) (t : FireworksTransport)
    (info : FireworksLogInfo) (s : S) :
  let sent := fetches (trace (sendToFireworks w t info s)) in
  (length sent <= 2)%nat
  /\ trace (sendToFireworks w t info s) = map Fetch sent
  /\ (forall id,
        gatewayBaseUrl t <> "" -> getRolloutId t (env w) info = Some id ->
        let payload := buildPayload (now w) info id in
        let first := post t "/logs" payload in
        let second := post t "/v1/logs" payload in
        (fetch_outcome w first = Resolved 404 -> sent = [first; second])
        /\ (fetch_outcome w first <> Resolved 404 -> sent = [first])
        /\ method first = "POST" /\ method second = "POST"
        /\ body second = body first /\ headers second = headers first
        /\ ((forall front, gatewayBaseUrl t <> front ++ "/") ->
            url first = gatewayBaseUrl t ++ "/logs"
            /\ url second = gatewayBaseUrl t ++ "/v1/logs")
        /\ (forall front, gatewayBaseUrl t = front ++ "/" ->
            url first = front ++ "/logs" /\ url second = front ++ "/v1/logs")).
Proof.
  intros sent. subst sent.
  destruct (decide (gatewayBaseUrl t = "")) as [Hbase|Hbase].
  { rewrite (sendToFireworks_silent w t info s (or_introl Hbase)). simpl.
    split; [lia|]. split; [reflexivity|]. intros id Hne. contradiction. }
  destruct (getRolloutId t (env w) info) as [id|] eqn:Hid.
  2:{ rewrite (sendToFireworks_silent w t info s (or_intror Hid)). simpl.
      split; [lia|]. split; [reflexivity|]. intros id _ Hsome. discriminate. }
  pose proof (sendToFireworks_run w t info s id Hbase Hid) as Hrun.
  cbv zeta in Hrun. rewrite Hrun. clear Hrun.
  split; [|split].
  - destruct (fetch_outcome w _) as [status| |]; try (simpl; lia).
    destruct (status =? 404)%Z; simpl; lia.
  - destruct (fetch_outcome w _) as [status| |]; try reflexivity.
    destruct (status =? 404)%Z; reflexivity.
  - intros id' _ [= <-]. cbv zeta.
    split; [|split].
    + intros ->. reflexivity.
    + intros Hother. destruct (fetch_outcome w _) as [status| |]; try reflexivity.
      destruct (Z.eqb_spec status 404) as [->|Hne]; [contradiction|reflexivity].
    + split; [reflexivity|]. split; [reflexivity|]. split; [reflexivity|].
      split; [reflexivity|]. split.
      * intros Hno. simpl. rewrite strip_trailing_slash_other by assumption.
        split; reflexivity.
      * intros front Hfront. simpl.
        rewrite Hfront, strip_trailing_slash_slash. split; reflexivity.
Qed.

Lemma sendToFireworks_post_and_fallback_witness :
  fetches (trace (sendToFireworks Samples.world Samples.transport Samples.record tt))
  = [ post Samples.transport "/logs"
        (buildPayload (now Samples.world) Samples.record "r1");
      post Samples.transport "/v1/logs"
        (buildPayload (now Samples.world) Samples.record "r1") ].
Proof.
  pose proof (sendToFireworks_post_and_fallback
                Samples.world Samples.transport Samples.record tt) as Hposts.
  cbv zeta in Hposts. destruct Hposts as (_ & _ & Hposts).
  assert (Hbase : gatewayBaseUrl Samples.transport <> "") by (vm_compute; discriminate).
  destruct (Hposts "r1" Hbase eq_refl) as [H404 _].
  apply H404. reflexivity.
Defined.

(** C10. Without a rollout id (the record's [rollout_id] is not a string and
    the environment variable the transport reads, EP_ROLLOUT_ID unless
    another name was configured, is unset) [sendToFireworks] makes no request
    and returns. Whenever it sends, the first tag of the payload is
    [rollout_id:<id>] for the id in use, the payload's message is the record's
    message when that is a string and the empty string otherwise, and the
    program is the record's when that is a non-empty string and
    [eval_protocol] otherwise. *)
Theorem sendToFireworks_needs_rollout_id {S} (w : World) (t : FireworksTransport)
    (info : FireworksLogInfo) (s : S) :
  (as_string (rollout_id info) = None -> env w !! rolloutIdEnv t = None ->
     sendToFireworks w t info s = (s, [], Returns tt))
  /\ (forall opts,
        opt_rolloutIdEnv opts = None ->
        rolloutIdEnv (constructor opts (env w)) = "EP_ROLLOUT_ID"
        /\ (as_string (rollout_id info) = None -> env w !! "EP_ROLLOUT_ID" = None ->
            sendToFireworks w (constructor opts (env w)) info s = (s, [], Returns tt)))
  /\ (forall r, r ∈ fetches (trace (sendToFireworks w t info s)) ->
        exists id rest,
          getRolloutId t (env w) info = Some id /\ id <> ""
          /\ (rollout_id info = JString id \/ env w !! rolloutIdEnv t = Some id)
          /\ tags (body r) = ("rollout_id:" ++ id) :: rest
          /\ Tracing.message (body r) = default "" (as_string (info_message info))
          /\ (as_string (info_program info) = None ->
              program (body r) = "eval_protocol")
          /\ (forall p, info_program info = JString p -> p <> "" ->
              program (body r) = p)).
Proof.
  split; [|split].
  - intros Hinfo Henv. apply sendToFireworks_silent. right.
    apply getRolloutId_unavailable; assumption.
  - intros opts Hopt.
    assert (Hname : rolloutIdEnv (constructor opts (env w)) = "EP_ROLLOUT_ID")
      by (unfold constructor; simpl; rewrite Hopt; reflexivity).
    split; [exact Hname|].
    intros Hinfo Henv. apply sendToFireworks_silent. right.
    apply getRolloutId_unavailable; [exact Hinfo|]. rewrite Hname. exact Henv.
  - intros r Hsent.
    destruct (decide (gatewayBaseUrl t = "")) as [Hbase|Hbase].
    { rewrite (sendToFireworks_silent w t info s (or_introl Hbase)) in Hsent.
      apply elem_of_nil in Hsent. destruct Hsent. }
    destruct (getRolloutId t (env w) info) as [id|] eqn:Hid.
    2:{ rewrite (sendToFireworks_silent w t info s (or_intror Hid)) in Hsent.
        apply elem_of_nil in Hsent. destruct Hsent. }
    destruct (getRolloutId_source _ _ _ _ Hid) as [Hne Hsource].
    assert (Hbody : body r = buildPayload (now w) info id).
    { pose proof (sendToFireworks_run w t info s id Hbase Hid) as Hrun.
      cbv zeta in Hrun. rewrite Hrun in Hsent. clear Hrun.
      destruct (fetch_outcome w _) as [status| |];
        [destruct (status =? 404)%Z|..]; simpl in Hsent;
        rewrite ?elem_of_cons, elem_of_nil in Hsent;
        intuition (subst r; reflexivity). }
    rewrite Hbody. eexists id, _.
    split; [reflexivity|]. split; [exact Hne|]. split; [exact Hsource|].
    split; [reflexivity|]. split.
    { simpl. destruct (info_message info); reflexivity. }
    split.
    + intros Hprogram. simpl. rewrite Hprogram. reflexivity.
    + intros p Hprogram Hp. simpl. rewrite Hprogram. simpl.
      rewrite bool_decide_eq_false_2 by assumption. reflexivity.
Qed.

Lemma sendToFireworks_needs_rollout_id_witness :
  sendToFireworks Samples.world Samples.transport Samples.anonymous_record tt
  = (tt, [], Returns tt)
  /\ rolloutIdEnv Samples.transport = "EP_ROLLOUT_ID".
Proof.
  split.
  - apply (proj1 (sendToFireworks_needs_rollout_id
                    Samples.world Samples.transport Samples.anonymous_record tt));
      reflexivity.
  - apply (proj1 (proj2 (sendToFireworks_needs_rollout_id
                           Samples.world Samples.transport Samples.record tt))
                 {| opt_gatewayBaseUrl := None; opt_rolloutIdEnv := None;
                    opt_waitUntil := true |}).
    reflexivity.
Defined.

(** * The handlers *)

Import Rollout.

(** ** Runs of asynchronous code *)

Lemma same_outcome_refl {S A} (r : S * list Event * Completion A) : same_outcome r r.
Proof. split; reflexivity. Qed.

Lemma bind_same_outcome {S A B} (m m' : M S A) (k k' : A -> M S B) (s : S) :
  same_outcome (m s) (m' s) ->
  (forall a s1, same_outcome (k a s1) (k' a s1)) ->
  same_outcome (bind m k s) (bind m' k' s).
Proof.
  unfold same_outcome, bind. intros [Hs Hc] Hk.
  destruct (m s) as [[s1 t1] c1], (m' s) as [[s1' t1'] c1']. simpl in Hs, Hc.
  subst s1' c1'. destruct c1 as [a|e|]; try (split; reflexivity).
  specialize (Hk a s1).
  destruct (k a s1) as [[s2 t2] c2], (k' a s1) as [[s2' t2'] c2']. exact Hk.
Qed.

Lemma try_catch_same_outcome {S A} (body body' : M S A) (h h' : Value -> M S A) (s : S) :
  same_outcome (body s) (body' s) ->
  (forall e s1, same_outcome (h e s1) (h' e s1)) ->
  same_outcome (try_catch body h s) (try_catch body' h' s).
Proof.
  unfold same_outcome, try_catch. intros [Hs Hc] Hh.
  destruct (body s) as [[s1 t1] c1], (body' s) as [[s1' t1'] c1']. simpl in Hs, Hc.
  subst s1' c1'. destruct c1 as [a|e|]; try (split; reflexivity).
  specialize (Hh e s1).
  destruct (h e s1) as [[s2 t2] c2], (h' e s1) as [[s2' t2'] c2']. exact Hh.
Qed.

(** Walks two runs of the same code in step; [leaf] closes the calls whose
    outcome depends on the world. *)
Ltac lockstep leaf :=
  repeat first
    [ leaf
    | apply bind_same_outcome; [|intros ? ?]
    | apply try_catch_same_outcome; [|intros ? ?]
    | match goal with
      | |- same_outcome ((if ?c then _ else _) _) ((if ?c' then _ else _) _) =>
          change c' with c; destruct c
      | |- same_outcome ((match ?x with _ => _ end) _) ((match ?y with _ => _ end) _) =>
          change y with x; destruct x
      end
    | apply same_outcome_refl ].

Lemma fetches_app (t1 t2 : list Event) :
  fetches (t1 ++ t2) = (fetches t1 ++ fetches t2)%list.
Proof.
  induction t1 as [|e t1 IH]; [reflexivity|].
  destruct e; simpl; rewrite IH; reflexivity.
Qed.

Lemma creates_app (t1 t2 : list Event) :
  creates (t1 ++ t2) = (creates t1 ++ creates t2)%list.
Proof.
  induction t1 as [|e t1 IH]; [reflexivity|].
  destruct e; simpl; rewrite IH; reflexivity.
Qed.

Lemma fetches_detached (b : bool) (t : list Event) : fetches (map (Detached b) t) = [].
Proof. induction t as [|e t IH]; [reflexivity|exact IH]. Qed.

Lemma creates_detached (b : bool) (t : list Event) : creates (map (Detached b) t) = [].
Proof. induction t as [|e t IH]; [reflexivity|exact IH]. Qed.

Lemma bind_quiet {S A B} (m : M S A) (k : A -> M S B) (s : S) :
  quiet (m s) -> (forall a s1, quiet (k a s1)) -> quiet (bind m k s).
Proof.
  unfold quiet, bind, trace. intros Hm Hk.
  destruct (m s) as [[s1 t1] [a|e|]]; simpl in *; try exact Hm.
  specialize (Hk a s1). destruct (k a s1) as [[s2 t2] r]. simpl in *.
  rewrite fetches_app, Hm, Hk. reflexivity.
Qed.

Lemma try_catch_quiet {S A} (body : M S A) (h : Value -> M S A) (s : S) :
  quiet (body s) -> (forall e s1, quiet (h e s1)) -> quiet (try_catch body h s).
Proof.
  unfold quiet, try_catch, trace. intros Hm Hk.
  destruct (body s) as [[s1 t1] [a|e|]]; simpl in *; try exact Hm.
  specialize (Hk e s1). destruct (h e s1) as [[s2 t2] r]. simpl in *.
  rewrite fetches_app, Hm, Hk. reflexivity.
Qed.

Lemma bind_awaited {S A B} (w : World) (m : M S A) (k : A -> M S B) (s : S) :
  awaited_fetches w (m s) -> (forall a s1, awaited_fetches w (k a s1)) ->
  awaited_fetches w (bind m k s).
Proof.
  unfold awaited_fetches, bind, trace, completion. intros Hm Hk.
  destruct (m s) as [[s1 t1] [a|e|]]; simpl in *.
  - specialize (Hk a s1). destruct (k a s1) as [[s2 t2] r]. simpl in *.
    intros Hr. rewrite fetches_app. apply Forall_app. split.
    + apply Hm. discriminate.
    + apply Hk, Hr.
  - intros _. apply Hm. discriminate.
  - intros Hr. contradiction.
Qed.

Lemma try_catch_awaited {S A} (w : World) (body : M S A) (h : Value -> M S A) (s : S) :
  awaited_fetches w (body s) -> (forall e s1, awaited_fetches w (h e s1)) ->
  awaited_fetches w (try_catch body h s).
Proof.
  unfold awaited_fetches, try_catch, trace, completion. intros Hm Hk.
  destruct (body s) as [[s1 t1] [a|e|]]; simpl in *; try exact Hm.
  specialize (Hk e s1). destruct (h e s1) as [[s2 t2] r]. simpl in *.
  intros Hr. rewrite fetches_app. apply Forall_app. split.
  - apply Hm. discriminate.
  - apply Hk, Hr.
Qed.

Lemma fetch_awaited {S} (w : World) (request : HttpRequest) (s : S) :
  awaited_fetches w (fetch w request s).
Proof.
  unfold awaited_fetches, fetch, completion, trace. simpl. intros Hr.
  constructor; [|constructor]. destruct (fetch_outcome w request); congruence.
Qed.

Lemma quiet_awaited {S A} (w : World) (r : S * list Event * Completion A) :
  quiet r -> awaited_fetches w r.
Proof. unfold quiet, awaited_fetches. intros -> _. constructor. Qed.

(** Walks a run along its binds; [leaf] closes the calls. *)
Ltac along bind_lemma try_lemma leaf :=
  repeat first
    [ leaf
    | apply bind_lemma; [|intros ? ?]
    | apply try_lemma; [|intros ? ?]
    | match goal with
      | |- _ ((if ?c then _ else _) _) => destruct c
      | |- _ ((match ?x with _ => _ end) _) => destruct x
      end ].

(** ** The two ways of logging *)

Lemma logToFireworks_run {S} (w : World) (rolloutId message : string)
    (status : Status) (apiKey : string) (s : S) :
  Init.logToFireworks w rolloutId message status apiKey s
  = (s, [Fetch (log_request w rolloutId message status apiKey)],
     match fetch_outcome w (log_request w rolloutId message status apiKey) with
     | Pending => Hangs
     | _ => Returns tt
     end).
Proof.
  unfold Init.logToFireworks, try_catch, bind, fetch, ret, lift.
  fold (log_request w rolloutId message status apiKey).
  destruct (fetch_outcome w _); reflexivity.
Qed.

Lemma logToFireworks_awaited {S} (w : World) (rolloutId message : string)
    (status : Status) (apiKey : string) (s : S) :
  awaited_fetches w (Init.logToFireworks w rolloutId message status apiKey s).
Proof.
  rewrite logToFireworks_run. unfold awaited_fetches, completion, trace. simpl.
  intros Hr. constructor; [|constructor]. destruct (fetch_outcome w _); congruence.
Qed.

Lemma logToFireworks_settles {S} (w w' : World) (rolloutId message : string)
    (status : Status) (apiKey : string) (s : S) :
  settles w -> settles w' ->
  same_outcome (Init.logToFireworks w rolloutId message status apiKey s)
               (Init.logToFireworks w' rolloutId message status apiKey s).
Proof.
  intros Hw Hw'. rewrite !logToFireworks_run. split; [reflexivity|]. simpl.
  pose proof (Hw (log_request w rolloutId message status apiKey)).
  pose proof (Hw' (log_request w' rolloutId message status apiKey)).
  destruct (fetch_outcome w _), (fetch_outcome w' _); congruence.
Qed.

(** A write to the rollout logger returns at once, whatever becomes of the
    send it started. *)
Lemma Logger_write_run {S} (w : World) (l : Logger.ChildLogger) (level message : string)
    (status : option Status) (s : S) :
  exists background,
    Logger.write w l level message status s
    = (s, map (Detached true) background, Returns tt).
Proof.
  unfold Logger.write, log, detach, bind, ret.
  destruct (sendToFireworks w (Logger.transport w) _ s) as [[s1 t1] r].
  exists t1. simpl. rewrite app_nil_r. reflexivity.
Qed.

Lemma Logger_write_quiet {S} (w : World) (l : Logger.ChildLogger) (level message : string)
    (status : option Status) (s : S) :
  quiet (Logger.write w l level message status s)
  /\ creates (trace (Logger.write w l level message status s)) = [].
Proof.
  destruct (Logger_write_run w l level message status s) as [t ->].
  split; [apply fetches_detached|apply creates_detached].
Qed.

Lemma Logger_write_same_outcome {S} (w w' : World) (l : Logger.ChildLogger)
    (level message : string) (status : option Status) (s : S) :
  same_outcome (Logger.write w l level message status s)
               (Logger.write w' l level message status s).
Proof.
  destruct (Logger_write_run w l level message status s) as [t ->].
  destruct (Logger_write_run w' l level message status s) as [t' ->].
  split; reflexivity.
Qed.

(** ** The handler that awaits [logToFireworks] *)

Lemma Init_awaits_the_log (w : World) (req : Request) :
  awaited_fetches w (Init.invoke w req).
Proof.
  unfold Init.invoke, Init.handler, Init.try_block, Init.catch_block.
  along (@bind_awaited) (@try_catch_awaited)
    ltac:(first [ apply logToFireworks_awaited
                | apply quiet_awaited; reflexivity ]).
Qed.

Lemma Init_log_outcome (w : World) (outcome : HttpRequest -> FetchOutcome)
    (req : Request) :
  settles w -> settles (with_fetch w outcome) ->
  same_outcome (Init.invoke w req) (Init.invoke (with_fetch w outcome) req).
Proof.
  intros Hw Hw'. unfold Init.invoke, Init.handler, Init.try_block, Init.catch_block.
  lockstep ltac:(apply logToFireworks_settles; assumption).
Qed.

(** ** The handler that logs through the transport *)

Lemma InitLogged_starts_no_fetch_in_line (w : World) (req : Request) :
  quiet (InitLogged.invoke w req).
Proof.
  unfold InitLogged.invoke, Logger.withFireworksLogging, InitLogged.handler,
    InitLogged.try_block, InitLogged.catch_block, Logger.info, Logger.error.
  cbv zeta.
  along (@bind_quiet) (@try_catch_quiet)
    ltac:(first [ apply Logger_write_quiet | reflexivity ]).
Qed.

Lemma InitLogged_log_outcome (w : World) (outcome : HttpRequest -> FetchOutcome)
    (req : Request) :
  same_outcome (InitLogged.invoke w req) (InitLogged.invoke (with_fetch w outcome) req).
Proof.
  unfold InitLogged.invoke, Logger.withFireworksLogging, InitLogged.handler,
    InitLogged.try_block, InitLogged.catch_block, Logger.info, Logger.error.
  cbv zeta.
  lockstep ltac:(apply Logger_write_same_outcome).
Qed.

(** ** Calls to the provider *)

Lemma creates_bind {S A B} (m : M S A) (k : A -> M S B) (s : S) :
  creates (trace (bind m k s))
  = (creates (trace (m s))
     ++ match m s with
        | (s1, _, Returns a) => creates (trace (k a s1))
        | _ => []
        end)%list.
Proof.
  unfold bind, trace. destruct (m s) as [[s1 t1] [a|e|]]; simpl;
    rewrite ?app_nil_r; try reflexivity.
  destruct (k a s1) as [[s2 t2] r]. simpl. apply creates_app.
Qed.

Lemma creates_try_catch {S A} (body : M S A) (h : Value -> M S A) (s : S) :
  creates (trace (try_catch body h s))
  = (creates (trace (body s))
     ++ match body s with
        | (s1, _, Throws e) => creates (trace (h e s1))
        | _ => []
        end)%list.
Proof.
  unfold try_catch, trace. destruct (body s) as [[s1 t1] [a|e|]]; simpl;
    rewrite ?app_nil_r; try reflexivity.
  destruct (h e s1) as [[s2 t2] r]. simpl. apply creates_app.
Qed.

Lemma bind_idle {S A B} (m : M S A) (k : A -> M S B) (s : S) :
  idle (m s) -> (forall a s1, idle (k a s1)) -> idle (bind m k s).
Proof.
  unfold idle. intros Hm Hk. rewrite creates_bind, Hm.
  destruct (m s) as [[s1 t1] [a|e|]]; try reflexivity. apply Hk.
Qed.

Lemma try_catch_idle {S A} (body : M S A) (h : Value -> M S A) (s : S) :
  idle (body s) -> (forall e s1, idle (h e s1)) -> idle (try_catch body h s).
Proof.
  unfold idle. intros Hm Hk. rewrite creates_try_catch, Hm.
  destruct (body s) as [[s1 t1] [a|e|]]; try reflexivity. apply Hk.
Qed.

Lemma logToFireworks_idle {S} (w : World) (rolloutId message : string)
    (status : Status) (apiKey : string) (s : S) :
  idle (Init.logToFireworks w rolloutId message status apiKey s).
Proof. unfold idle. rewrite logToFireworks_run. reflexivity. Qed.

Lemma Init_catch_block_idle (w : World) (e : Value) (s : Init.Locals) :
  idle (Init.catch_block w e s).
Proof.
  unfold Init.catch_block.
  along (@bind_idle) (@try_catch_idle)
    ltac:(first [ apply logToFireworks_idle | reflexivity ]).
Qed.

Lemma InitLogged_catch_block_idle (w : World) (e : Value) (s : InitLogged.Locals) :
  idle (InitLogged.catch_block w e s).
Proof.
  unfold InitLogged.catch_block, Logger.error.
  along (@bind_idle) (@try_catch_idle)
    ltac:(first [ apply Logger_write_quiet | reflexivity ]).
Qed.

Lemma buildCompletionParams_messages (w : World) (completion_params : Json)
    (sanitizedMessages : list Json) (tools : Json) (p : CompletionParams) :
  buildCompletionParams w completion_params sanitizedMessages tools = Returns p ->
  messages p = sanitizedMessages.
Proof.
  unfold buildCompletionParams.
  destruct (truthy tools && length_positive tools); simpl.
  - destruct (map_throwing map_tool (array_items tools)); simpl; try discriminate.
    intros [= <-]. reflexivity.
  - intros [= <-]. reflexivity.
Qed.

Ltac no_call H := apply elem_of_nil in H; destruct H.

Lemma Init_creates (w : World) (req : Request) (c : CompletionCall) :
  c ∈ creates (trace (Init.invoke w req)) -> forwards w req c.
Proof.
  unfold Init.invoke, Init.handler, forwards.
  repeat case_bool_decide; simpl; try (intros Hin; no_call Hin).
  rewrite creates_try_catch.
  assert (Hcatch : match Init.try_block w req Init.initial with
                   | (s1, _, Throws e) => creates (trace (Init.catch_block w e s1))
                   | _ => []
                   end = []).
  { destruct (Init.try_block w req Init.initial) as [[s1 t1] [a|e|]]; try reflexivity.
    apply Init_catch_block_idle. }
  rewrite Hcatch, app_nil_r. clear Hcatch.
  intros Hin. split; [assumption|].
  unfold Init.try_block in Hin.
  destruct (safeParse initRequestSchema (req_body req)) as [data|issues] eqn:Hparse;
    [|no_call Hin].
  destruct (safeParse_initRequest _ _ Hparse)
    as [_ (out & md & rid & -> & Hmd & Hrid & _)].
  exists (JObject out).
  rewrite creates_bind in Hin. simpl in Hin. rewrite Hmd in Hin. simpl in Hin.
  rewrite creates_bind in Hin. simpl in Hin. rewrite Hrid in Hin. simpl in Hin.
  do 2 (rewrite creates_bind in Hin; simpl in Hin).
  destruct (negb _ || _); [no_call Hin|].
  do 2 (rewrite creates_bind in Hin; simpl in Hin).
  destruct (Environment.resolveApiKey (env w) _) as [apiKey|] eqn:Hkey;
    [|no_call Hin].
  destruct (negb (Environment.truthy apiKey)); [no_call Hin|].
  do 3 (rewrite creates_bind in Hin; simpl in Hin).
  destruct (map_throwing sanitize_message _) as [sanitized| |] eqn:Hsanitized;
    try no_call Hin.
  exists sanitized.
  do 2 (rewrite creates_bind in Hin; simpl in Hin).
  destruct (buildCompletionParams w _ sanitized _) as [completionParams| |] eqn:Hparams;
    try no_call Hin.
  rewrite creates_bind in Hin. simpl in Hin.
  assert (Htail : forall r : Completion Json,
            match r with
            | Returns _ =>
                creates (trace
                  (bind (Init.logToFireworks w rid ("Rollout " ++ rid ++ " completed")
                           rolloutFinished apiKey)
                        (fun _ => ret (completed (Some rid)))
                        {| Init.rolloutId := Some rid; Init.apiKey := Some apiKey |}))
            | _ => []
            end = []).
  { intros [a| |]; try reflexivity.
    apply bind_idle; [apply logToFireworks_idle|reflexivity]. }
  rewrite Htail in Hin. apply list_elem_of_singleton in Hin. subst c. simpl.
  repeat split; try reflexivity; try assumption.
  exact (buildCompletionParams_messages _ _ _ _ _ Hparams).
Qed.

Lemma creates_trace_detached {S A} (s : S) (b : bool) (t : list Event)
    (r : Completion A) :
  creates (trace (s, map (Detached b) t, r)) = [].
Proof. apply creates_detached. Qed.

Ltac logger_step H :=
  match type of H with
  | context [Logger.write ?w ?l ?lv ?m ?st ?s] =>
      let bg := fresh "background" in
      let Hbg := fresh "Hbg" in
      destruct (Logger_write_run w l lv m st s) as [bg Hbg];
      rewrite Hbg in H; clear Hbg;
      rewrite creates_trace_detached in H; simpl in H
  end.

Ltac walk H := rewrite creates_bind in H; simpl in H; try logger_step H.

Lemma InitLogged_creates (w : World) (req : Request) (c : CompletionCall) :
  c ∈ creates (trace (InitLogged.invoke w req)) -> forwards w req c.
Proof.
  unfold InitLogged.invoke, Logger.withFireworksLogging, InitLogged.handler, forwards.
  repeat case_bool_decide; simpl; try (intros Hin; no_call Hin).
  rewrite creates_try_catch.
  assert (Hcatch : match InitLogged.try_block w req InitLogged.initial with
                   | (s1, _, Throws e) => creates (trace (InitLogged.catch_block w e s1))
                   | _ => []
                   end = []).
  { destruct (InitLogged.try_block w req InitLogged.initial) as [[s1 t1] [a|e|]];
      try reflexivity.
    apply InitLogged_catch_block_idle. }
  rewrite Hcatch, app_nil_r. clear Hcatch.
  intros Hin. split; [assumption|].
  unfold InitLogged.try_block, Logger.info, Logger.error in Hin.
  destruct (safeParse initRequestSchema (req_body req)) as [data|issues] eqn:Hparse;
    [|no_call Hin].
  destruct (safeParse_initRequest _ _ Hparse)
    as [_ (out & md & rid & -> & Hmd & Hrid & _)].
  exists (JObject out).
  walk Hin. rewrite Hmd in Hin. simpl in Hin.
  walk Hin. rewrite Hrid in Hin. simpl in Hin.
  walk Hin. walk Hin. walk Hin.
  destruct (negb _ || _).
  { walk Hin. no_call Hin. }
  walk Hin. walk Hin.
  destruct (Environment.resolveApiKey (env w) _) as [apiKey|] eqn:Hkey.
  2:{ walk Hin. no_call Hin. }
  destruct (negb (Environment.truthy apiKey)).
  { walk Hin. no_call Hin. }
  walk Hin. walk Hin. walk Hin. walk Hin.
  destruct (map_throwing sanitize_message _) as [sanitized| |] eqn:Hsanitized;
    try no_call Hin.
  exists sanitized.
  walk Hin. walk Hin.
  destruct (buildCompletionParams w _ sanitized _) as [completionParams| |] eqn:Hparams;
    try no_call Hin.
  walk Hin. walk Hin.
  destruct (create_outcome w _) as [completion| |].
  - walk Hin. apply list_elem_of_singleton in Hin. subst c. simpl.
    repeat split; try reflexivity; try assumption.
    exact (buildCompletionParams_messages _ _ _ _ _ Hparams).
  - apply list_elem_of_singleton in Hin. subst c. simpl.
    repeat split; try reflexivity; try assumption.
    exact (buildCompletionParams_messages _ _ _ _ _ Hparams).
  - apply list_elem_of_singleton in Hin. subst c. simpl.
    repeat split; try reflexivity; try assumption.
    exact (buildCompletionParams_messages _ _ _ _ _ Hparams).
Qed.

Lemma completion_bind {S A B} (m : M S A) (k : A -> M S B) (s : S) :
  completion (bind m k s)
  = match m s with
    | (s1, _, Returns a) => completion (k a s1)
    | (_, _, Throws e) => Throws e
    | (_, _, Hangs) => Hangs
    end.
Proof.
  unfold bind, completion. destruct (m s) as [[s1 t1] [a|e|]]; try reflexivity.
  destruct (k a s1) as [[s2 t2] r]. reflexivity.
Qed.

Lemma POST_only (req : Request) :
  req_method req = "POST" ->
  bool_decide (req_method req = "OPTIONS") = false
  /\ bool_decide (req_method req = "GET") = false
  /\ bool_decide (req_method req = "POST") = true.
Proof. intros ->. repeat split. Qed.

Lemma Init_unauthorized (w : World) (req : Request) (data : Json) :
  req_method req = "POST" ->
  safeParse initRequestSchema (req_body req) = success data ->
  truthy (prop_opt data "messages") = true ->
  length_is_zero (prop_opt data "messages") = false ->
  Environment.resolveApiKey (env w) (as_string (prop_opt data "api_key")) = None ->
  Init.invoke w req
  = ({| Init.rolloutId := as_string (prop_opt (prop_opt data "metadata") "rollout_id");
        Init.apiKey := None |}, [],
     Returns (unauthorized (as_string (prop_opt (prop_opt data "metadata") "rollout_id")))).
Proof.
  intros Hpost Hparse Htruthy Hlength Hkey.
  destruct (POST_only req Hpost) as (Ho & Hg & Hp).
  unfold Init.invoke, Init.handler. rewrite Ho, Hg, Hp. simpl negb. cbv iota.
  unfold try_catch, Init.try_block. rewrite Hparse.
  destruct (safeParse_initRequest _ _ Hparse)
    as [_ (out & md & rid & -> & Hmd & Hrid & _)].
  simpl in Htruthy, Hlength, Hkey |- *.
  unfold bind, lift, modify, ret. simpl.
  rewrite Hmd. simpl. rewrite Hrid. simpl.
  rewrite Htruthy, Hlength. simpl. rewrite Hkey. reflexivity.
Qed.

Ltac logger_run :=
  match goal with
  | |- context [Logger.write ?w ?l ?lv ?m ?st ?s] =>
      let bg := fresh "background" in
      let Hbg := fresh "Hbg" in
      destruct (Logger_write_run w l lv m st s) as [bg Hbg];
      rewrite Hbg; clear Hbg
  end.

Ltac run := rewrite completion_bind; simpl; try logger_run.

Lemma InitLogged_unauthorized (w : World) (req : Request) (data : Json) :
  req_method req = "POST" ->
  safeParse initRequestSchema (req_body req) = success data ->
  truthy (prop_opt data "messages") = true ->
  length_is_zero (prop_opt data "messages") = false ->
  Environment.resolveApiKey (env w) (as_string (prop_opt data "api_key")) = None ->
  completion (InitLogged.invoke w req)
  = Returns (unauthorized (as_string (prop_opt (prop_opt data "metadata") "rollout_id"))).
Proof.
  intros Hpost Hparse Htruthy Hlength Hkey.
  destruct (POST_only req Hpost) as (Ho & Hg & Hp).
  unfold InitLogged.invoke, Logger.withFireworksLogging, InitLogged.handler.
  rewrite Ho, Hg, Hp. change (negb true) with false. cbv iota.
  assert (Htry : completion (InitLogged.try_block w req InitLogged.initial)
                 = Returns (unauthorized
                     (as_string (prop_opt (prop_opt data "metadata") "rollout_id")))).
  { unfold InitLogged.try_block, Logger.info, Logger.error. rewrite Hparse.
    destruct (safeParse_initRequest _ _ Hparse)
      as [_ (out & md & rid & -> & Hmd & Hrid & _)].
    simpl in Htruthy, Hlength, Hkey |- *.
    run. rewrite Hmd. simpl. run. rewrite Hrid. simpl.
    run. run. run. rewrite Htruthy, Hlength. simpl.
    run. run. rewrite Hkey. run. reflexivity. }
  unfold try_catch, completion in *.
  destruct (InitLogged.try_block w req InitLogged.initial) as [[s1 t1] r].
  simpl in Htry. subst r. reflexivity.
Qed.

(** ** Sanitization of messages *)

Lemma set_field_fresh (key : string) (v : Json) (acc : list (string * Json)) :
  key ∉ acc.*1 -> set_field key v acc = (acc ++ [(key, v)])%list.
Proof.
  induction acc as [|[k old] rest IH]; intros Hfresh; [reflexivity|].
  simpl in Hfresh. apply not_elem_of_cons in Hfresh as [Hne Hrest].
  simpl. rewrite bool_decide_eq_false_2 by congruence.
  rewrite IH by assumption. reflexivity.
Qed.

Lemma sanitize_entries_filter (entries acc : list (string * Json)) :
  NoDup (entries.*1) ->
  (forall k, k ∈ entries.*1 -> k ∉ acc.*1) ->
  sanitize_entries entries acc = (acc ++ List.filter forwarded entries)%list.
Proof.
  revert acc. induction entries as [|[k v] rest IH]; intros acc Hnodup Hfresh.
  - simpl. rewrite app_nil_r. reflexivity.
  - simpl in Hnodup. apply NoDup_cons in Hnodup as [Hk Hnodup].
    simpl. unfold forwarded at 1. simpl.
    destruct (bool_decide (k ∈ allowedMessageFields) && negb (is_nullish v)).
    + rewrite IH; [|assumption|].
      * rewrite set_field_fresh by (apply Hfresh; simpl; apply elem_of_cons; left; reflexivity).
        rewrite <- app_assoc. reflexivity.
      * intros k' Hk'.
        rewrite set_field_fresh by (apply Hfresh; simpl; apply elem_of_cons; left; reflexivity).
        rewrite fmap_app. simpl. rewrite elem_of_app, list_elem_of_singleton.
        intros [Hacc | ->]; [|contradiction].
        apply (Hfresh k'); [simpl; apply elem_of_cons; right; exact Hk'|exact Hacc].
    + apply IH; [assumption|].
      intros k' Hk'. apply Hfresh. simpl. apply elem_of_cons. right. exact Hk'.
Qed.

Lemma sanitize_message_object (fields : list (string * Json)) :
  NoDup (fields.*1) ->
  sanitize_message (JObject fields)
  = if negb (truthy (default JUndefined
                       (lookup_field "role" (List.filter forwarded fields))))
    then Throws (Error_ "Message role is required")
    else Returns (JObject (List.filter forwarded fields)).
Proof.
  intros Hnodup. unfold sanitize_message. simpl.
  rewrite sanitize_entries_filter; [reflexivity|assumption|].
  intros k _. apply not_elem_of_nil.
Qed.

Lemma allowed_fields (k : string) :
  k ∈ allowedMessageFields
  <-> k ∈ ["role"; "content"; "name"; "tool_call_id"; "tool_calls"; "function_call"].
Proof.
  unfold allowedMessageFields.
  rewrite !elem_of_union, !elem_of_singleton, !elem_of_cons, elem_of_nil. tauto.
Qed.

Lemma forwarded_spec (fields : list (string * Json)) (k : string) (v : Json) :
  (k, v) ∈ List.filter forwarded fields
  <-> (k, v) ∈ fields
      /\ k ∈ ["role"; "content"; "name"; "tool_call_id"; "tool_calls"; "function_call"]
      /\ v <> JNull /\ v <> JUndefined.
Proof.
  rewrite !list_elem_of_In, filter_In, <- !list_elem_of_In, <- allowed_fields.
  unfold forwarded. simpl. rewrite andb_true_iff, bool_decide_eq_true, negb_true_iff.
  destruct v; simpl; intuition congruence.
Qed.

Lemma map_throwing_Forall2 (f : Json -> Completion Json) (items out : list Json) :
  map_throwing f items = Returns out ->
  Forall2 (fun x y => f x = Returns y) items out.
Proof.
  revert out. induction items as [|x rest IH]; intros out; simpl.
  - intros [= <-]. constructor.
  - destruct (f x) as [y| |] eqn:Hx; simpl; try discriminate.
    destruct (map_throwing f rest) as [ys| |]; simpl; try discriminate.
    intros [= <-]. constructor; [exact Hx|]. apply IH. reflexivity.
Qed.

Lemma sanitized_validated (items out : list Json) :
  Forall validated_message items ->
  map_throwing sanitize_message items = Returns out ->
  Forall2 (fun original sent =>
             exists fields, original = JObject fields /\ NoDup (fields.*1)
                            /\ sent = JObject (List.filter forwarded fields))
          items out.
Proof.
  intros Hvalid Hmap. apply map_throwing_Forall2 in Hmap.
  induction Hmap as [|x y items out Hx _ IH]; [constructor|].
  apply Forall_cons in Hvalid as [(fields & role & -> & Hnodup & _) Hvalid].
  constructor; [|exact (IH Hvalid)].
  exists fields. split; [reflexivity|]. split; [exact Hnodup|].
  rewrite (sanitize_message_object fields Hnodup) in Hx.
  destruct (negb _); [discriminate|]. congruence.
Qed.

Lemma lookup_field_forwarded (key : string) (v : Json) (fields : list (string * Json)) :
  lookup_field key fields = Some v -> forwarded (key, v) = true ->
  lookup_field key (List.filter forwarded fields) = Some v.
Proof.
  intros Hfield Hkept. induction fields as [|[k x] rest IH]; [discriminate|].
  simpl in Hfield |- *. case_bool_decide as Hk.
  - injection Hfield as ->. subst k. rewrite Hkept. simpl.
    rewrite bool_decide_eq_true_2 by reflexivity. reflexivity.
  - destruct (forwarded (k, x)); [simpl; rewrite bool_decide_eq_false_2 by assumption|];
      exact (IH Hfield).
Qed.

(** A message that passed validation has a role, so that its sanitized form
    has one too: in the handlers the error 'Message role is required' is
    never thrown. *)
Lemma validated_message_is_forwarded (m : Json) :
  validated_message m -> exists sanitized, sanitize_message m = Returns sanitized.
Proof.
  intros (fields & role & -> & Hnodup & Hrole & Hnames).
  rewrite (sanitize_message_object fields Hnodup).
  assert (Hkept : forwarded ("role", JString role) = true).
  { unfold forwarded. simpl. rewrite bool_decide_eq_true_2; [reflexivity|].
    apply allowed_fields. apply elem_of_cons. left. reflexivity. }
  rewrite (lookup_field_forwarded "role" _ fields Hrole Hkept). simpl.
  rewrite bool_decide_eq_false_2; [eauto|].
  intros ->. rewrite !elem_of_cons, elem_of_nil in Hnames.
  intuition discriminate.
Qed.

Lemma forwards_sanitized (w : World) (req : Request) (c : CompletionCall) :
  forwards w req c ->
  exists data,
    safeParse initRequestSchema (req_body req) = success data
    /\ Forall2 (fun original sent =>
                  exists fields, original = JObject fields /\ NoDup (fields.*1)
                                 /\ sent = JObject (List.filter forwarded fields))
               (array_items (prop_opt data "messages")) (messages (params c)).
Proof.
  intros (_ & data & sanitized & Hparse & _ & Hmap & ->).
  exists data. split; [exact Hparse|].
  destruct (safeParse_initRequest _ _ Hparse)
    as [_ (out & md & rid & -> & _ & _ & Hmsgs)].
  simpl in Hmap |- *. cbv zeta in Hmsgs.
  destruct Hmsgs as [Hm | [Hm | (items & Hm & Hvalid)]]; rewrite Hm in Hmap |- *.
  - simpl in Hmap. injection Hmap as <-. constructor.
  - simpl in Hmap. injection Hmap as <-. constructor.
  - simpl in Hmap |- *. exact (sanitized_validated _ _ Hvalid Hmap).
Qed.

(** ** Validation, key resolution and sanitization in the handlers *)

(** C5. A POST whose body does not pass [initRequestSchema] is answered with
    400 and the issues of the validation, by either version of the handler,
    and nothing is sent anywhere; the provider is called only for a body that
    parsed, and a body that parses holds an object [completion_params] and an
    object [metadata] with the five ids as strings. *)
Theorem invalid_body_is_rejected (w : World) (req : Request) :
  (forall issues,
     req_method req = "POST" ->
     safeParse initRequestSchema (req_body req) = failure issues ->
     let bad_request :=
       {| res_status := 400;
          res_json := JObject [
            ("error", JString ("Invalid request format: " ++ zod_message w issues));
            ("details", issues_json issues) ] |} in
     Init.invoke w req = (Init.initial, [], Returns bad_request)
     /\ InitLogged.invoke w req = (InitLogged.initial, [], Returns bad_request))
  /\ (forall c,
        c ∈ creates (trace (Init.invoke w req))
        \/ c ∈ creates (trace (InitLogged.invoke w req)) ->
        exists data, safeParse initRequestSchema (req_body req) = success data)
  /\ (forall data,
        safeParse initRequestSchema (req_body req) = success data ->
        required_fields (req_body req)).
Proof.
  split; [|split].
  - intros issues Hpost Hparse bad_request.
    destruct (POST_only req Hpost) as (Ho & Hg & Hp).
    unfold Init.invoke, InitLogged.invoke, Logger.withFireworksLogging,
      Init.handler, InitLogged.handler.
    rewrite Ho, Hg, Hp. change (negb true) with false. cbv iota.
    unfold try_catch, Init.try_block, InitLogged.try_block. rewrite Hparse.
    split; reflexivity.
  - intros c [Hin | Hin].
    + destruct (Init_creates w req c Hin) as (_ & data & _ & Hparse & _). eauto.
    + destruct (InitLogged_creates w req c Hin) as (_ & data & _ & Hparse & _). eauto.
  - intros data Hparse. exact (proj1 (safeParse_initRequest _ _ Hparse)).
Qed.

Lemma invalid_body_is_rejected_witness :
  exists issues,
    Init.invoke Samples.world Samples.request_without_metadata
    = (Init.initial, [],
       Returns {| res_status := 400;
                  res_json := JObject [
                    ("error", JString "Invalid request format: invalid request");
                    ("details", issues_json issues) ] |})
    /\ issues = [ {| Zod.code := invalid_type; path := [Key "metadata"] |} ].
Proof.
  eexists. split; [|reflexivity].
  apply (proj1 (invalid_body_is_rejected Samples.world Samples.request_without_metadata));
    reflexivity.
Defined.

(** C6. Of a validated message exactly the pairs are forwarded whose key is
    one of role, content, name, tool_call_id, tool_calls, function_call and
    whose value is neither null nor undefined; a message left without a role
    makes the handler throw 'Message role is required'. The messages of every
    call to the provider are the validated messages of the request, each
    reduced in this way. *)
Theorem messages_are_sanitized (w : World) (req : Request) :
  (forall fields,
     NoDup (fields.*1) ->
     let kept := List.filter forwarded fields in
     (forall k v,
        (k, v) ∈ kept
        <-> (k, v) ∈ fields
            /\ k ∈ ["role"; "content"; "name"; "tool_call_id"; "tool_calls";
                    "function_call"]
            /\ v <> JNull /\ v <> JUndefined)
     /\ (truthy (default JUndefined (lookup_field "role" kept)) = true ->
         sanitize_message (JObject fields) = Returns (JObject kept))
     /\ (lookup_field "role" kept = None ->
         sanitize_message (JObject fields)
         = Throws (Error_ "Message role is required")))
  /\ (forall c,
        c ∈ creates (trace (Init.invoke w req))
        \/ c ∈ creates (trace (InitLogged.invoke w req)) ->
        exists data,
          safeParse initRequestSchema (req_body req) = success data
          /\ Forall2 (fun original sent =>
                        exists fields,
                          original = JObject fields /\ NoDup (fields.*1)
                          /\ sent = JObject (List.filter forwarded fields))
                     (array_items (prop_opt data "messages"))
                     (messages (params c))).
Proof.
  split.
  - intros fields Hnodup kept. split; [|split].
    + intros k v. apply forwarded_spec.
    + intros Hrole. rewrite (sanitize_message_object fields Hnodup).
      fold kept. rewrite Hrole. reflexivity.
    + intros Hrole. rewrite (sanitize_message_object fields Hnodup).
      fold kept. rewrite Hrole. reflexivity.
  - intros c [Hin | Hin]; apply (forwards_sanitized w).
    + apply Init_creates, Hin.
    + apply InitLogged_creates, Hin.
Qed.

Lemma messages_are_sanitized_witness :
  sanitize_message Samples.user_message
  = Returns (JObject [ ("role", JString "user");
                       ("content", JString "Draw a red circle") ]).
Proof.
  assert (Hnodup : NoDup ([ ("role", JString "user");
                            ("content", JString "Draw a red circle");
                            ("name", JNull);
                            ("weight", JNumber 1%Qc);
                            ("reasoning_content", JString "thinking") ].*1)).
  { simpl. nodup_strings. }
  destruct (proj1 (messages_are_sanitized Samples.world Samples.request) _ Hnodup)
    as (_ & Hkept & _).
  apply Hkept. reflexivity.
Defined.


Lemma truthy_nonempty (s : string) : Environment.truthy s = true <-> s <> "".
Proof.
  unfold Environment.truthy. rewrite negb_true_iff, bool_decide_eq_false. tauto.
Qed.

Lemma trim_nonempty (s : string) : Environment.trim s <> "" -> s <> "".
Proof. intros Htrim ->. apply Htrim. reflexivity. Qed.

Lemma trimStart_blank (s : string) :
  Forall (fun a => Environment.is_white_space a = true) (list_ascii_of_string s) ->
  Environment.trimStart s = "".
Proof.
  induction s as [|a rest IH]; [reflexivity|].
  simpl. intros Hblank. apply Forall_cons in Hblank as [-> Hrest]. exact (IH Hrest).
Qed.

Lemma trim_blank (s : string) :
  Forall (fun a => Environment.is_white_space a = true) (list_ascii_of_string s) ->
  Environment.trim s = "".
Proof.
  intros Hblank. unfold Environment.trim.
  rewrite trimStart_blank by assumption. reflexivity.
Qed.

Lemma resolveApiKey_request (env : gmap string string) (key : string) :
  Environment.trim key <> "" ->
  Environment.resolveApiKey env (Some key) = Some (Environment.trim key).
Proof.
  intros Htrim. unfold Environment.resolveApiKey.
  rewrite (proj2 (truthy_nonempty key) (trim_nonempty key Htrim)).
  rewrite (proj2 (truthy_nonempty (Environment.trim key)) Htrim). reflexivity.
Qed.

Lemma resolveApiKey_fallback (env : gmap string string) (requestApiKey : option string) :
  ~ usable requestApiKey ->
  Environment.resolveApiKey env requestApiKey = Environment.resolveApiKey env None.
Proof.
  intros Hunusable. unfold Environment.resolveApiKey.
  destruct requestApiKey as [key|]; [|reflexivity].
  destruct (Environment.truthy key && Environment.truthy (Environment.trim key)) eqn:Hkey;
    [|reflexivity].
  exfalso. apply Hunusable. exists key. split; [reflexivity|].
  apply andb_true_iff in Hkey as [_ Htrim]. apply truthy_nonempty, Htrim.
Qed.

Lemma resolveApiKey_environment (env : gmap string string) :
  (forall v, env !! "FIREWORKS_API_KEY" = Some v -> Environment.trim v <> "" ->
     Environment.resolveApiKey env None = Some (Environment.trim v))
  /\ (~ usable (env !! "FIREWORKS_API_KEY") -> Environment.resolveApiKey env None = None).
Proof.
  unfold Environment.resolveApiKey, Environment.getEnv. split.
  - intros v -> Htrim.
    rewrite (proj2 (truthy_nonempty v) (trim_nonempty v Htrim)).
    rewrite (proj2 (truthy_nonempty (Environment.trim v)) Htrim). simpl.
    rewrite (proj2 (truthy_nonempty (Environment.trim v)) Htrim). reflexivity.
  - intros Hunusable. destruct (env !! "FIREWORKS_API_KEY") as [v|]; [|reflexivity].
    destruct (Environment.truthy v && Environment.truthy (Environment.trim v)) eqn:Hv;
      [|reflexivity].
    exfalso. apply Hunusable. exists v. split; [reflexivity|].
    apply andb_true_iff in Hv as [_ Htrim]. apply truthy_nonempty, Htrim.
Qed.

(** C9. [resolveApiKey] returns the trimmed key of the request when that is
    present and not blank; otherwise the trimmed FIREWORKS_API_KEY of the
    environment when that is set and not blank; otherwise [null]. A request
    key of white space only counts as absent. When a request that reached the
    resolution gets [null], the handler answers 401 and the provider is not
    called. *)
Theorem resolveApiKey_precedence (w : World) (requestApiKey : option string) :
  (forall key, requestApiKey = Some key -> Environment.trim key <> "" ->
     Environment.resolveApiKey (env w) requestApiKey = Some (Environment.trim key))
  /\ (~ usable requestApiKey ->
      (forall v, env w !! "FIREWORKS_API_KEY" = Some v -> Environment.trim v <> "" ->
         Environment.resolveApiKey (env w) requestApiKey = Some (Environment.trim v))
      /\ (~ usable (env w !! "FIREWORKS_API_KEY") ->
         Environment.resolveApiKey (env w) requestApiKey = None))
  /\ (forall key,
        requestApiKey = Some key ->
        Forall (fun a => Environment.is_white_space a = true) (list_ascii_of_string key) ->
        Environment.resolveApiKey (env w) requestApiKey = Environment.resolveApiKey (env w) None)
  /\ (forall req data,
        req_method req = "POST" ->
        safeParse initRequestSchema (req_body req) = success data ->
        truthy (prop_opt data "messages") = true ->
        length_is_zero (prop_opt data "messages") = false ->
        requestApiKey = as_string (prop_opt data "api_key") ->
        Environment.resolveApiKey (env w) requestApiKey = None ->
        let rollout_id := as_string (prop_opt (prop_opt data "metadata") "rollout_id") in
        completion (Init.invoke w req) = Returns (unauthorized rollout_id)
        /\ trace (Init.invoke w req) = []
        /\ completion (InitLogged.invoke w req) = Returns (unauthorized rollout_id)
        /\ creates (trace (InitLogged.invoke w req)) = []
        /\ fetches (trace (InitLogged.invoke w req)) = []).
Proof.
  split; [|split; [|split]].
  - intros key -> Htrim. apply resolveApiKey_request, Htrim.
  - intros Hunusable. rewrite (resolveApiKey_fallback (env w) _ Hunusable).
    apply resolveApiKey_environment.
  - intros key -> Hblank. apply resolveApiKey_fallback.
    intros (k & [= <-] & Htrim). apply Htrim, trim_blank, Hblank.
  - intros req data Hpost Hparse Htruthy Hlength -> Hnone rollout_id.
    rewrite (Init_unauthorized w req data Hpost Hparse Htruthy Hlength Hnone).
    split; [reflexivity|]. split; [reflexivity|].
    split; [exact (InitLogged_unauthorized w req data Hpost Hparse Htruthy Hlength Hnone)|].
    split; [|apply InitLogged_starts_no_fetch_in_line].
    destruct (creates (trace (InitLogged.invoke w req))) as [|c rest] eqn:Hcalls;
      [reflexivity|].
    exfalso.
    assert (Hin : c ∈ creates (trace (InitLogged.invoke w req)))
      by (rewrite Hcalls; apply elem_of_cons; left; reflexivity).
    destruct (InitLogged_creates w req c Hin)
      as (_ & data' & _ & Hparse' & Hkey & _).
    rewrite Hparse in Hparse'. injection Hparse' as <-.
    rewrite Hnone in Hkey. discriminate.
Qed.

Lemma resolveApiKey_precedence_witness :
  Environment.resolveApiKey (env Samples.world) (Some "  fw_from_request ") = Some "fw_from_request"
  /\ Environment.resolveApiKey (env Samples.world) (Some "   ") = Some "fw_3ZkA9q7"
  /\ completion (Init.invoke Samples.keyless_world Samples.request_with_blank_key)
     = Returns (unauthorized (Some "r1")).
Proof.
  split; [|split].
  - apply (proj1 (resolveApiKey_precedence Samples.world (Some "  fw_from_request "))
             "  fw_from_request " eq_refl).
    vm_compute. discriminate.
  - assert (Hblank : ~ usable (Some "   ")).
    { intros (k & [= <-] & Htrim). apply Htrim. reflexivity. }
    apply (proj1 (proj1 (proj2 (resolveApiKey_precedence Samples.world (Some "   ")))
                    Hblank) "fw_3ZkA9q7" eq_refl).
    vm_compute. discriminate.
  - apply (proj2 (proj2 (proj2
             (resolveApiKey_precedence Samples.keyless_world (Some "   "))))
             Samples.request_with_blank_key _ eq_refl eq_refl eq_refl eq_refl eq_refl
             eq_refl).
Defined.

(** ** Logging and the response *)

Lemma settles_with_fetch (w : World) (outcome : HttpRequest -> FetchOutcome) :
  (forall r, outcome r <> Pending) -> settles (with_fetch w outcome).
Proof. intros Hsettles r. apply Hsettles. Qed.

(** C4. Whatever the outcome of the log POST (a response of any status, or
    a network error), [logToFireworks] and [sendToFireworks] return without
    throwing, and both versions of the handler end in the same state with the
    same response as when the POST is answered with 200. *)
Theorem log_failure_is_tolerated (w : World) (Hsettles : settles w) :
  (forall rolloutId message status apiKey (s : Init.Locals),
     completion (Init.logToFireworks w rolloutId message status apiKey s) = Returns tt)
  /\ (forall t info (s : InitLogged.Locals),
        completion (sendToFireworks w t info s) = Returns tt)
  /\ (forall req,
        same_outcome (Init.invoke w req)
                     (Init.invoke (with_fetch w (fun _ => Resolved 200)) req))
  /\ (forall req,
        same_outcome (InitLogged.invoke w req)
                     (InitLogged.invoke (with_fetch w (fun _ => Resolved 200)) req)).
Proof.
  split; [|split; [|split]].
  - intros rolloutId message status apiKey s. rewrite logToFireworks_run. simpl.
    pose proof (Hsettles (log_request w rolloutId message status apiKey)).
    destruct (fetch_outcome w _); congruence.
  - intros t info s.
    destruct (decide (gatewayBaseUrl t = "")) as [Hbase|Hbase].
    { rewrite (sendToFireworks_silent w t info s (or_introl Hbase)). reflexivity. }
    destruct (getRolloutId t (env w) info) as [id|] eqn:Hid.
    2:{ rewrite (sendToFireworks_silent w t info s (or_intror Hid)). reflexivity. }
    pose proof (sendToFireworks_run w t info s id Hbase Hid) as Hrun.
    cbv zeta in Hrun. rewrite Hrun. clear Hrun.
    pose proof (Hsettles (post t "/logs" (buildPayload (now w) info id))).
    pose proof (Hsettles (post t "/v1/logs" (buildPayload (now w) info id))).
    destruct (fetch_outcome w (post t "/logs" _)) as [status| |];
      [destruct (status =? 404)%Z|..]; try reflexivity; try congruence.
    simpl. destruct (fetch_outcome w (post t "/v1/logs" _)); congruence.
  - intros req. apply Init_log_outcome; [exact Hsettles|].
    apply settles_with_fetch. discriminate.
  - intros req. apply InitLogged_log_outcome.
Qed.

Lemma offline_world_settles : settles Samples.offline_world.
Proof. intros r. discriminate. Qed.

Lemma log_failure_is_tolerated_witness :
  completion (Init.invoke Samples.offline_world Samples.request)
  = Returns (completed (Some "r1")).
Proof.
  destruct (proj1 (proj2 (proj2
              (log_failure_is_tolerated Samples.offline_world offline_world_settles)))
              Samples.request) as [_ Hsame].
  unfold completion. rewrite Hsame. reflexivity.
Defined.

(** C2 (as amended). The handler that logs through the winston transport
    does not wait for the log write: it starts no fetch in line, and it ends
    in the same state with the same response whatever the gateway does, also
    when the gateway never answers. The handler of [api/init.ts] awaits
    [logToFireworks]: whenever it ends, each log POST it made has settled. *)
Theorem log_write_and_response (w : World) (req : Request) :
  (forall outcome,
     same_outcome (InitLogged.invoke w req)
                  (InitLogged.invoke (with_fetch w outcome) req))
  /\ fetches (trace (InitLogged.invoke w req)) = []
  /\ awaited_fetches w (Init.invoke w req).
Proof.
  split; [|split].
  - intros outcome. apply InitLogged_log_outcome.
  - apply InitLogged_starts_no_fetch_in_line.
  - apply Init_awaits_the_log.
Qed.

(** C2, as stated, fails for [api/init.ts]: with a gateway that never
    answers, the provider returns, the log POST is made, and no response is
    ever produced; with a gateway that answers, the same request gets 200. *)
Lemma response_waits_for_the_log_write :
  length (creates (trace (Init.invoke Samples.silent_world Samples.request))) = 1%nat
  /\ fetches (trace (Init.invoke Samples.silent_world Samples.request))
     = [ log_request Samples.silent_world "r1" "Rollout r1 completed"
           rolloutFinished "fw_3ZkA9q7" ]
  /\ completion (Init.invoke Samples.silent_world Samples.request) = Hangs
  /\ completion (Init.invoke Samples.world Samples.request)
     = Returns (completed (Some "r1")).
Proof. repeat split; vm_compute; reflexivity. Qed.

(** The version with the transport answers the same request at once. *)
Lemma transport_does_not_wait :
  completion (InitLogged.invoke Samples.silent_world Samples.request)
  = Returns (completed (Some "r1")).
Proof. vm_compute. reflexivity. Qed.

(** * Further properties of the sources

    Properties of the code that the specification does not state: the
    functions around those of the claims, and how they combine. *)

Import Reference.

(** ** Statuses and exceptions *)

Ltac by_table := apply list_elem_of_In; simpl; tauto.

Ltac not_listed H := apply list_elem_of_In in H; simpl in H; intuition discriminate.

Ltac each_value e :=
  destruct e as [ | | str | [cls msg cde repr] ]; try discriminate;
  [ | destruct cls as [ | | | c | c ]; try destruct c ].

(** X1. [fromJSON] undoes [toJSON], and [toJSON] undoes [fromJSON]: a status
    survives serialization with its code, message and details. *)
Theorem Status_toJSON_fromJSON (s : Status) (json : StatusDetails) :
  fromJSON (toJSON s) = s /\ toJSON (fromJSON json) = json.
Proof. destruct s, json. split; reflexivity. Qed.

(** X2. Every error factory of [Status] builds a status with the code its
    name announces and the message given; its rollout variant adds no detail
    without extra info, and one [ErrorInfo] of reason EXTRA_INFO and domain
    eval-protocol.com that carries the extra info otherwise; for the code of
    such a status [exceptionForStatusCode] has an exception, with the same
    code. Every error code from 1 to 16 has a factory. The statuses of the
    other factories have codes without an exception. *)
Theorem Status_factories (c : StatusCode) (m : string) :
  (forall plain rollout, (c, plain, rollout) ∈ error_factories ->
     (forall d, plain m d = Build_Status c m d)
     /\ rollout m None = plain m []
     /\ (forall extraInfo,
           rollout m (Some extraInfo)
           = plain m [ {| type_url := "type.googleapis.com/google.rpc.ErrorInfo";
                          reason := Some "EXTRA_INFO";
                          domain := Some "eval-protocol.com";
                          metadata := Some extraInfo |} ])
     /\ (forall x, exists e,
           exceptionForStatusCode (StatusModel.code (rollout m x)) m = Some e
           /\ statusCode e = c /\ ep_message e = m))
  /\ (1 <= value c <= 16 -> c ∈ error_factories.*1.*1)
  /\ (forall a b s, s ∈ success_statuses a b ->
        exceptionForStatusCode (StatusModel.code s) m = None).
Proof.
  split; [|split].
  - intros plain rollout Hin. unfold error_factories in Hin.
    repeat (apply elem_of_cons in Hin as [[= -> -> ->]|Hin]);
      try (apply elem_of_nil in Hin; destruct Hin);
      (repeat split; [intros [x|]; eexists; repeat split; reflexivity]).
  - intros Hrange. destruct c; simpl in Hrange; try lia; by_table.
  - intros a b s Hin. unfold success_statuses in Hin.
    repeat (apply elem_of_cons in Hin as [->|Hin]);
      try (apply elem_of_nil in Hin; destruct Hin); reflexivity.
Qed.



(** X4. [mapOpenAIErrorToStatus] does not look at the [statusCode] of an
    [EvalProtocolError]: an instance of any of its subclasses is mapped to
    INTERNAL, with its message, or with its class name when the message is
    empty. (The server's [NotFoundError] and [PermissionDeniedError] are not
    the SDK's classes of these names.) *)
Theorem EvalProtocolError_maps_to_INTERNAL (e : EvalProtocolErrorObject) :
  mapOpenAIErrorToStatus (thrown e)
  = Returns (internalError
               (if bool_decide (ep_message e = "") then name e else ep_message e) []).
Proof.
  destruct e as [cls n m c]. unfold mapOpenAIErrorToStatus, thrown.
  cbn -[String.append instanceof].
  assert (Hno : forall k,
            instanceof (Obj {| obj_class := EPErrorClass cls; obj_message := Some m;
                               obj_code := None;
                               obj_toString := if bool_decide (m = "") then n
                                               else n ++ ": " ++ m |})
              (OpenAIClass k) = false).
  { intros k. destruct cls, k; reflexivity. }
  rewrite !Hno. case_bool_decide; reflexivity.
Qed.

(** X5. The exceptions that [exceptionForStatusCode] creates carry the name
    of their class, and the class tells the code: two of them with the same
    name, or of the same class, were created for the same status code. *)
Theorem exception_class_identifies_code (c c' : StatusCode) (m m' : string)
    (e e' : EvalProtocolErrorObject) :
  exceptionForStatusCode c m = Some e ->
  exceptionForStatusCode c' m' = Some e' ->
  name e = class_name (ep_class e)
  /\ (name e = name e' -> c = c')
  /\ (ep_class e = ep_class e' -> c = c').
Proof.
  intros H H'.
  destruct c; vm_compute in H; try discriminate; injection H as <-;
    (split; [reflexivity|]);
    destruct c'; vm_compute in H'; try discriminate; injection H' as <-;
    split; intros Heq; first [reflexivity | discriminate Heq].
Qed.

Lemma exception_class_identifies_code_witness :
  name (new AbortedError "stopped" ABORTED) = class_name AbortedError
  /\ (name (new AbortedError "stopped" ABORTED) = name (new AbortedError "again" ABORTED) ->
      ABORTED = ABORTED)
  /\ (AbortedError = AbortedError -> ABORTED = ABORTED).
Proof.
  apply (exception_class_identifies_code ABORTED ABORTED "stopped" "again"
           (new AbortedError "stopped" ABORTED) (new AbortedError "again" ABORTED));
    reflexivity.
Defined.

(** X6. The exception that [exceptionForStatusCode] creates for a status
    code is retried by [isRetryableError] exactly when the code is UNKNOWN,
    DEADLINE_EXCEEDED, NOT_FOUND, PERMISSION_DENIED, UNAVAILABLE,
    UNAUTHENTICATED or RESOURCE_EXHAUSTED. *)
Theorem retryable_exceptions (c : StatusCode) (m : string) (e : EvalProtocolErrorObject) :
  exceptionForStatusCode c m = Some e ->
  isRetryableError (thrown e) = Returns (bool_decide (c ∈ retryable_status_codes)).
Proof.
  intros H. destruct c; vm_compute in H; try discriminate; injection H as <-;
    vm_compute; reflexivity.
Qed.

Lemma retryable_exceptions_witness :
  isRetryableError (thrown (new UnavailableError "down" UNAVAILABLE)) = Returns true
  /\ isRetryableError (thrown (new InternalError "bug" INTERNAL)) = Returns false.
Proof.
  split.
  - apply (retryable_exceptions UNAVAILABLE "down"). reflexivity.
  - apply (retryable_exceptions INTERNAL "bug"). reflexivity.
Defined.

Lemma expected_code_retryable (e : Value) :
  (expected_code e ∈ transient_codes -> retryable e = true)
  /\ (expected_code e ∈ permanent_codes -> retryable e = has_retryable_code e).
Proof.
  destruct e as [ | | p | [k msg cd str]];
    try (split; intros Hin; not_listed Hin).
  unfold expected_code, retryable, has_retryable_code, instance_of_any, code_of,
    instanceof.
  cbn [obj_class obj_code existsb retryable_openai retryable_eval_protocol].
  destruct cd as [c|].
  - rewrite elem_of_retryable_codes, elem_of_unavailable_codes. unfold is_network_code.
    generalize (bool_decide (Some c = Some "ECONNRESET")),
      (bool_decide (Some c = Some "ENOTFOUND")),
      (bool_decide (Some c = Some "ETIMEDOUT")),
      (bool_decide (Some c = Some "ECONNREFUSED")).
    intros b1 b2 b3 b4.
    each_class k; destruct b1, b2, b3, b4;
      (split; intros Hin; first [reflexivity | not_listed Hin]).
  - each_class k; (split; intros Hin; first [reflexivity | not_listed Hin]).
Qed.

(** X7. The two classifications of a thrown value agree on what passes: a
    value that [mapOpenAIErrorToStatus] maps to RESOURCE_EXHAUSTED,
    DEADLINE_EXCEEDED or UNAVAILABLE is retried by [isRetryableError]; a value
    mapped to PERMISSION_DENIED, NOT_FOUND, INVALID_ARGUMENT or ALREADY_EXISTS
    is retried only for its [code], when that is one of the four network
    codes. *)
Theorem retry_agrees_with_status (e : Value) :
  nullish e = false ->
  exists st, mapOpenAIErrorToStatus e = Returns st
    /\ (StatusModel.code st ∈ transient_codes -> isRetryableError e = Returns true)
    /\ (StatusModel.code st ∈ permanent_codes ->
        isRetryableError e = Returns (has_retryable_code e)).
Proof.
  intros Hobj. destruct (mapOpenAIErrorToStatus_code e Hobj) as (st & Hst & Hcode).
  exists st. split; [exact Hst|].
  rewrite Hcode, (isRetryableError_retryable e Hobj).
  destruct (expected_code_retryable e) as [Htransient Hpermanent].
  split; intros Hin; f_equal; auto.
Qed.

Lemma retry_agrees_with_status_witness :
  exists st, mapOpenAIErrorToStatus Samples.rate_limited = Returns st
    /\ (StatusModel.code st ∈ transient_codes ->
        isRetryableError Samples.rate_limited = Returns true)
    /\ (StatusModel.code st ∈ permanent_codes ->
        isRetryableError Samples.rate_limited
        = Returns (has_retryable_code Samples.rate_limited)).
Proof. apply (retry_agrees_with_status Samples.rate_limited). reflexivity. Defined.

(** X8. For a thrown value other than [null] and [undefined], the HTTP
    status of the error response and the status code that is logged go
    together as in [http_status_table] (403 with PERMISSION_DENIED, 404 with
    NOT_FOUND, 429 with RESOURCE_EXHAUSTED, 400 and 422 with INVALID_ARGUMENT,
    408 with DEADLINE_EXCEEDED, 502 with INTERNAL, 500 with ALREADY_EXISTS,
    UNAVAILABLE or INTERNAL); the body holds the rollout id and the message of
    the error after the text of that HTTP status. *)
Theorem http_status_of_failure (e : Value) (rolloutId : option string) :
  nullish e = false ->
  exists st r prefix,
    mapOpenAIErrorToStatus e = Returns st
    /\ error_response e rolloutId = Returns r
    /\ (res_status r, StatusModel.code st) ∈ http_status_table
    /\ (res_status r, prefix) ∈ http_error_prefix
    /\ res_json r = error_body (prefix ++ show (message_of e)) rolloutId.
Proof.
  intros H. each_value e; cbn -[or_else String.append];
    try (do 3 eexists; repeat split; by_table);
    destruct (is_network_code cde); do 3 eexists; repeat split; by_table.
Qed.

Lemma http_status_of_failure_witness :
  exists st r prefix,
    mapOpenAIErrorToStatus Samples.rate_limited = Returns st
    /\ error_response Samples.rate_limited (Some "r1") = Returns r
    /\ (res_status r, StatusModel.code st) ∈ http_status_table
    /\ (res_status r, prefix) ∈ http_error_prefix
    /\ res_json r
       = error_body (prefix ++ show (message_of Samples.rate_limited)) (Some "r1").
Proof. apply (http_status_of_failure Samples.rate_limited (Some "r1")). reflexivity. Defined.

Lemma mapOpenAIErrorToStatus_returns (e : Value) :
  nullish e = false -> exists st, mapOpenAIErrorToStatus e = Returns st.
Proof. intros H. destruct (mapOpenAIErrorToStatus_code e H) as (st & Hst & _). eauto. Qed.

Lemma get_message_returns (e : Value) :
  nullish e = false -> get_message e = Returns (message_of e).
Proof. destruct e; try discriminate; reflexivity. Qed.

Lemma error_response_status (e : Value) (rolloutId : option string) (r : Response) :
  error_response e rolloutId = Returns r -> res_status r ∈ error_statuses.
Proof.
  unfold error_response.
  repeat (match goal with |- context [if ?c then _ else _] => destruct c end);
    destruct (get_message e); simpl; intros [= <-]; by_table.
Qed.

Lemma error_response_returns (e : Value) (rolloutId : option string) :
  nullish e = false -> exists r, error_response e rolloutId = Returns r.
Proof.
  intros H. unfold error_response. cbv zeta. rewrite (get_message_returns e H).
  repeat (match goal with |- context [if ?c then _ else _] => destruct c end);
    eexists; reflexivity.
Qed.

(** ** The environment *)

Lemma trimEnd_idempotent (s : string) :
  Environment.trimEnd (Environment.trimEnd s) = Environment.trimEnd s.
Proof.
  induction s as [|a rest IH]; [reflexivity|].
  simpl. destruct (Environment.trimEnd rest) as [|b kept] eqn:Hrest.
  - destruct (Environment.is_white_space a) eqn:Ha; [reflexivity|].
    simpl. rewrite Ha. reflexivity.
  - simpl in IH |- *. rewrite IH. reflexivity.
Qed.

Lemma trimStart_head (s : string) (a : ascii) (rest : string) :
  Environment.trimStart s = String a rest -> Environment.is_white_space a = false.
Proof.
  induction s as [|b s IH]; [discriminate|].
  simpl. destruct (Environment.is_white_space b) eqn:Hb; [exact IH|].
  intros [= <- <-]. exact Hb.
Qed.

Lemma trimEnd_head (a : ascii) (rest : string) :
  Environment.is_white_space a = false ->
  exists kept, Environment.trimEnd (String a rest) = String a kept.
Proof.
  intros Ha. simpl. destruct (Environment.trimEnd rest).
  - rewrite Ha. eexists. reflexivity.
  - eexists. reflexivity.
Qed.

Lemma trim_head (s : string) (a : ascii) (rest : string) :
  Environment.trim s = String a rest -> Environment.is_white_space a = false.
Proof.
  unfold Environment.trim.
  destruct (Environment.trimStart s) as [|b t] eqn:Hs; [discriminate|].
  pose proof (trimStart_head _ _ _ Hs) as Hb.
  destruct (trimEnd_head b t Hb) as [kept ->]. intros [= <- <-]. exact Hb.
Qed.

Lemma trim_idempotent (s : string) :
  Environment.trim (Environment.trim s) = Environment.trim s.
Proof.
  destruct (Environment.trim s) as [|a rest] eqn:Hs; [reflexivity|].
  pose proof (trim_head _ _ _ Hs) as Ha.
  unfold Environment.trim in *. simpl Environment.trimStart. rewrite Ha.
  rewrite <- Hs. apply trimEnd_idempotent.
Qed.

Lemma usable_or_not (key : option string) : usable key \/ ~ usable key.
Proof.
  destruct key as [k|].
  - destruct (decide (Environment.trim k = "")) as [Hk|Hk].
    + right. intros (k' & [= <-] & Hne). contradiction.
    + left. exists k. auto.
  - right. intros (k' & [=] & _).
Qed.

(** A key that was resolved is the trimmed form of a string, and not empty. *)
Lemma resolved_key (env : gmap string string) (requestApiKey : option string)
    (key : string) :
  Environment.resolveApiKey env requestApiKey = Some key ->
  key <> ""
  /\ ((exists k, requestApiKey = Some k /\ key = Environment.trim k)
      \/ (~ usable requestApiKey
          /\ exists v, env !! "FIREWORKS_API_KEY" = Some v /\ key = Environment.trim v)).
Proof.
  intros Hkey.
  destruct (usable_or_not requestApiKey) as [(k & -> & Hk)|Hno].
  - rewrite (resolveApiKey_request env k Hk) in Hkey. injection Hkey as <-.
    split; [exact Hk|]. left. eauto.
  - rewrite (resolveApiKey_fallback env _ Hno) in Hkey.
    destruct (usable_or_not (env !! "FIREWORKS_API_KEY")) as [(v & Hv & Hne)|Hnone].
    + rewrite (proj1 (resolveApiKey_environment env) v Hv Hne) in Hkey.
      injection Hkey as <-. split; [exact Hne|]. right. eauto.
    + rewrite (proj2 (resolveApiKey_environment env) Hnone) in Hkey. discriminate.
Qed.

Lemma resolved_key_truthy (env : gmap string string) (requestApiKey : option string)
    (key : string) :
  Environment.resolveApiKey env requestApiKey = Some key ->
  Environment.truthy key = true.
Proof. intros H. apply truthy_nonempty. exact (proj1 (resolved_key _ _ _ H)). Qed.

(** X9. What [getEnv] and [resolveApiKey] return is trimmed: [getEnv] gives
    the trimmed value of a variable that is set and not blank, and the
    default, as it is, otherwise; a key that [resolveApiKey] returns is not
    empty, is its own trimmed form, begins with no white space, and is the
    trimmed key of the request or, when that is absent or blank, the trimmed
    FIREWORKS_API_KEY. *)
Theorem environment_values_are_trimmed (env : gmap string string) :
  (forall name defaultValue,
     (forall v, env !! name = Some v -> Environment.trim v <> "" ->
        Environment.getEnv env name defaultValue = Some (Environment.trim v))
     /\ (~ usable (env !! name) ->
         Environment.getEnv env name defaultValue = defaultValue))
  /\ (forall requestApiKey key,
        Environment.resolveApiKey env requestApiKey = Some key ->
        key <> "" /\ Environment.trim key = key
        /\ (forall a rest, key = String a rest -> Environment.is_white_space a = false)
        /\ ((exists k, requestApiKey = Some k /\ key = Environment.trim k)
            \/ (~ usable requestApiKey
                /\ exists v, env !! "FIREWORKS_API_KEY" = Some v
                             /\ key = Environment.trim v))).
Proof.
  split.
  - intros name defaultValue. unfold Environment.getEnv. split.
    + intros v -> Hv.
      rewrite (proj2 (truthy_nonempty v)) by (apply trim_nonempty; exact Hv).
      rewrite (proj2 (truthy_nonempty _)) by exact Hv. reflexivity.
    + intros Hno. destruct (env !! name) as [v|]; [|reflexivity].
      destruct (Environment.truthy v && Environment.truthy (Environment.trim v)) eqn:Ht;
        [|reflexivity].
      exfalso. apply Hno. exists v. split; [reflexivity|].
      apply andb_true_iff in Ht as [_ Ht]. apply truthy_nonempty. exact Ht.
  - intros requestApiKey key Hkey.
    destruct (resolved_key env requestApiKey key Hkey) as [Hne Hsource].
    assert (Htrim : exists s, key = Environment.trim s).
    { destruct Hsource as [(k & _ & ->)|(_ & v & _ & ->)]; eauto. }
    destruct Htrim as [s Hs].
    split; [exact Hne|]. split; [rewrite Hs; apply trim_idempotent|].
    split; [|exact Hsource].
    intros a rest Heq. rewrite Hs in Heq. exact (trim_head _ _ _ Heq).
Qed.

(** ** The transport and the rollout logger *)

Lemma or_else_nonempty (s : option string) (d : string) : d <> "" -> or_else s d <> "".
Proof.
  intros Hd. unfold or_else. destruct s as [x|]; [|exact Hd].
  case_bool_decide; assumption.
Qed.

Lemma or_else_Some (x d : string) : x <> "" -> or_else (Some x) d = x.
Proof. intros Hx. unfold or_else. rewrite bool_decide_eq_false_2 by exact Hx. reflexivity. Qed.

Lemma or_else_blank (s : option string) (d : string) : blank s -> or_else s d = d.
Proof. intros [-> | ->]; reflexivity. Qed.

Lemma or_opt_Some (x : string) (b : option string) : x <> "" -> or_opt (Some x) b = Some x.
Proof. intros Hx. unfold or_opt. rewrite bool_decide_eq_false_2 by exact Hx. reflexivity. Qed.

Lemma or_opt_blank (a b : option string) : blank a -> or_opt a b = b.
Proof. intros [-> | ->]; reflexivity. Qed.

Lemma constructor_gateway_nonempty (opts : Options) (env : gmap string string) :
  gatewayBaseUrl (constructor opts env) <> "".
Proof. apply or_else_nonempty. discriminate. Qed.

(** X10. A transport that was constructed has a gateway URL that is not
    empty: the URL of the options when that is not empty, otherwise
    FW_TRACING_GATEWAY_BASE_URL when that is set and not empty, otherwise
    https://tracing.fireworks.ai; the name of its rollout id variable is not
    empty either, and its key is FIREWORKS_API_KEY as the environment has it.
    So the test for a missing gateway in [sendToFireworks] never fires: such a
    transport sends nothing exactly when it finds no rollout id. *)
Theorem FireworksTransport_constructor (opts : Options) (env : gmap string string) :
  let t := constructor opts env in
  gatewayBaseUrl t <> "" /\ rolloutIdEnv t <> ""
  /\ (forall u, opt_gatewayBaseUrl opts = Some u -> u <> "" -> gatewayBaseUrl t = u)
  /\ (blank (opt_gatewayBaseUrl opts) ->
      (forall u, env !! "FW_TRACING_GATEWAY_BASE_URL" = Some u -> u <> "" ->
         gatewayBaseUrl t = u)
      /\ (blank (env !! "FW_TRACING_GATEWAY_BASE_URL") ->
          gatewayBaseUrl t = "https://tracing.fireworks.ai"))
  /\ apiKey t = env !! "FIREWORKS_API_KEY"
  /\ (forall S (w : World) (info : FireworksLogInfo) (s : S),
        Async.env w = env ->
        (trace (sendToFireworks w t info s) = [] <-> getRolloutId t env info = None)).
Proof.
  intros t. pose proof (constructor_gateway_nonempty opts env) as Hurl.
  split; [exact Hurl|]. subst t. unfold constructor.
  cbn [gatewayBaseUrl rolloutIdEnv apiKey].
  split; [apply or_else_nonempty; discriminate|].
  split; [intros u -> Hu; rewrite or_opt_Some, or_else_Some by exact Hu; reflexivity|].
  split.
  { intros Hblank. rewrite (or_opt_blank _ _ Hblank). split.
    - intros u -> Hu. apply or_else_Some. exact Hu.
    - apply or_else_blank. }
  split; [reflexivity|].
  intros S w info s <-. fold (constructor opts (Async.env w)).
  destruct (getRolloutId (constructor opts (Async.env w)) (Async.env w) info)
    as [id|] eqn:Hid.
  - rewrite (sendToFireworks_run w _ info s id Hurl Hid). cbv zeta.
    split; [|discriminate].
    destruct (fetch_outcome w _) as [st| |]; [destruct (st =? 404)|..]; discriminate.
  - rewrite (sendToFireworks_silent w _ info s) by (right; exact Hid).
    split; reflexivity.
Qed.

(** X11. The rollout id of a record is its [rollout_id] when that is a
    string and not empty, whatever the environment holds; otherwise the value
    of the variable that the transport reads, when that is set and not empty;
    otherwise there is none. *)
Theorem getRolloutId_precedence (t : FireworksTransport) (env : gmap string string)
    (info : FireworksLogInfo) :
  (forall id, rollout_id info = JString id -> id <> "" ->
     getRolloutId t env info = Some id)
  /\ ((forall id, rollout_id info = JString id -> id = "") ->
      (forall id, env !! rolloutIdEnv t = Some id -> id <> "" ->
         getRolloutId t env info = Some id)
      /\ (blank (env !! rolloutIdEnv t) -> getRolloutId t env info = None)).
Proof.
  unfold getRolloutId. split.
  - intros id -> Hid. rewrite bool_decide_eq_false_2 by exact Hid. reflexivity.
  - intros Hnone.
    assert (Hfall : match rollout_id info with
                    | JString id =>
                        if bool_decide (id = "") then or_opt (env !! rolloutIdEnv t) None
                        else Some id
                    | _ => or_opt (env !! rolloutIdEnv t) None
                    end = or_opt (env !! rolloutIdEnv t) None).
    { destruct (rollout_id info) as [ | | | |id| | ]; try reflexivity.
      rewrite bool_decide_eq_true_2 by (apply Hnone; reflexivity). reflexivity. }
    rewrite Hfall. split.
    + intros id -> Hid. apply or_opt_Some. exact Hid.
    + apply or_opt_blank.
Qed.

Lemma group_tags_strings (rids : list Json) :
  group_tags rids = map (tag "rollout_id") (strings_of rids).
Proof.
  induction rids as [|x rest IH]; [reflexivity|].
  destruct x; simpl; rewrite ?IH; reflexivity.
Qed.

Lemma length_strings_of (items : list Json) :
  (length (strings_of items) <= length items)%nat.
Proof.
  unfold strings_of. induction items as [|x rest IH]; [reflexivity|].
  destruct x; cbn in *; lia.
Qed.

Lemma length_optional_tag (key : string) (v : Json) :
  (length (optional_tag key v) <= 1)%nat.
Proof. destruct v; simpl; try lia. case_bool_decide; simpl; lia. Qed.

(** X12. The tags of a payload are, in this order: the tag of the rollout
    id; the tag of [experiment_id] and the tag of [run_id], each when the
    property is a string that is not empty; one [rollout_id] tag for every
    string of [rollout_ids], when that is an array. Values of [rollout_ids]
    that are not strings are passed over, and no tag is left out as a
    duplicate. *)
Theorem buildPayload_tags (now : string) (info : FireworksLogInfo) (rolloutId : string) :
  let sent := tags (buildPayload now info rolloutId) in
  sent = (tag "rollout_id" rolloutId
          :: optional_tag "experiment_id" (experiment_id info)
          ++ optional_tag "run_id" (run_id info)
          ++ map (tag "rollout_id") (strings_of (array_items (rollout_ids info))))%list
  /\ (1 <= length sent <= 3 + length (array_items (rollout_ids info)))%nat
  /\ (forall rid, JString rid ∈ array_items (rollout_ids info) ->
        tag "rollout_id" rid ∈ sent).
Proof.
  cbv zeta.
  assert (Heq : tags (buildPayload now info rolloutId)
    = (tag "rollout_id" rolloutId
          :: optional_tag "experiment_id" (experiment_id info)
          ++ optional_tag "run_id" (run_id info)
          ++ map (tag "rollout_id") (strings_of (array_items (rollout_ids info))))%list).
  { unfold buildPayload, optional_tag. cbn [tags].
    destruct (rollout_ids info); cbn [array_items]; rewrite ?group_tags_strings;
      reflexivity. }
  rewrite Heq. split; [reflexivity|]. split.
  - cbn [length]. rewrite !length_app, length_map.
    pose proof (length_strings_of (array_items (rollout_ids info))).
    pose proof (length_optional_tag "experiment_id" (experiment_id info)).
    pose proof (length_optional_tag "run_id" (run_id info)). lia.
  - intros rid Hin. apply elem_of_cons. right.
    apply elem_of_app. right. apply elem_of_app. right.
    apply list_elem_of_In, in_map, list_elem_of_In.
    unfold strings_of. apply list_elem_of_omap. exists (JString rid).
    split; [exact Hin|reflexivity].
Qed.




(** X14. [getStatusInfo] gives a status exactly for a record whose [status]
    is an object with a [code] and a [message] property; for an instance of
    [Status] it gives the number of its code, its message and its details,
    also when the code is OK, which is 0. *)
Theorem getStatusInfo_of_Status (info : FireworksLogInfo) :
  (is_Some (getStatusInfo info)
   <-> exists fields, info_status info = JObject fields
         /\ is_Some (lookup_field "code" fields)
         /\ is_Some (lookup_field "message" fields))
  /\ (forall s : Status,
        info_status info = Status_json s ->
        getStatusInfo info
        = Some {| si_code := Some (Qc_of_Z (value (StatusModel.code s)));
                  si_message := Some (StatusModel.message s);
                  si_details := map ErrorInfo_json (details s) |}).
Proof.
  unfold getStatusInfo. split.
  - destruct (info_status info) as [| |b|n|s|items|fields]; simpl.
    1-6: try destruct b; try (destruct (negb _));
      (split; [intros [x [=]]|intros (f & [=] & _)]).
    unfold has_key. split.
    + intros Hsome. exists fields. split; [reflexivity|].
      destruct (bool_decide (is_Some (lookup_field "code" fields))) eqn:Hc;
        [|destruct Hsome as [x [=]]].
      destruct (bool_decide (is_Some (lookup_field "message" fields))) eqn:Hm;
        [|destruct Hsome as [x [=]]].
      split; eapply bool_decide_eq_true_1; eassumption.
    + intros (f & [= <-] & Hc & Hm).
      rewrite !bool_decide_eq_true_2 by assumption. simpl. eauto.
  - intros s ->. reflexivity.
Qed.

(** X15. A request of the transport has an Authorization header exactly
    when the transport has a key that is not empty, and then it is 'Bearer '
    followed by that key; Content-Type and User-Agent are always there, and
    no header is there twice. The key is FIREWORKS_API_KEY as the environment
    had it when the transport was constructed, untrimmed. *)
Theorem request_headers_authorization (t : FireworksTransport) :
  (forall v, ("Authorization", v) ∈ request_headers t
     <-> exists key, apiKey t = Some key /\ key <> "" /\ v = "Bearer " ++ key)
  /\ ("Content-Type", "application/json") ∈ request_headers t
  /\ ("User-Agent", "winston-fireworks-transport/1.0.0") ∈ request_headers t
  /\ NoDup (request_headers t).*1
  /\ (forall opts env, apiKey (constructor opts env) = env !! "FIREWORKS_API_KEY").
Proof.
  unfold request_headers. split; [|split; [|split; [|split]]].
  - intros v. destruct (apiKey t) as [key|].
    + case_bool_decide as Hkey.
      * simpl. rewrite !elem_of_cons, elem_of_nil. split.
        -- intros [[=]|[[=]|[]]].
        -- intros (k & [= <-] & Hne & _). contradiction.
      * simpl. rewrite !elem_of_cons, elem_of_nil. split.
        -- intros [[=]|[[=]|[[= ->]|[]]]]. exists key. auto.
        -- intros (k & [= <-] & _ & ->). right. right. left. reflexivity.
    + simpl. rewrite !elem_of_cons, elem_of_nil. split.
      * intros [[=]|[[=]|[]]].
      * intros (k & [=] & _).
  - apply elem_of_app. left. apply elem_of_cons. left. reflexivity.
  - apply elem_of_app. left. apply elem_of_cons. right. apply elem_of_cons. left.
    reflexivity.
  - destruct (apiKey t) as [key|]; [case_bool_decide|]; simpl; nodup_strings.
  - reflexivity.
Qed.

Lemma Logger_transport_gateway (w : World) : gatewayBaseUrl (Logger.transport w) <> "".
Proof. apply constructor_gateway_nonempty. Qed.

Lemma append_nonempty_r (a b : string) : b <> "" -> a ++ b <> "".
Proof. intros Hb. destruct a; [exact Hb|discriminate]. Qed.

Lemma posts_other (w : World) (t : FireworksTransport) (payload : FireworksPayload)
    (st : Z) :
  fetch_outcome w (post t "/logs" payload) = Resolved st -> (st =? 404) = false ->
  posts w t payload = [post t "/logs" payload].
Proof.
  intros Hfirst H404. unfold posts. rewrite Hfirst. apply Z.eqb_neq in H404.
  destruct st as [|p|p]; try reflexivity.
  repeat (destruct p as [p|p|]; try reflexivity). contradiction.
Qed.

(** A record that the rollout logger writes is sent by the transport of the
    logger, under the rollout id of the logger. *)
Lemma Logger_write_posts {S} (w : World) (rolloutId name level message : string)
    (status : option Status) (s : S) :
  rolloutId <> "" -> level <> "" ->
  Logger.write w (Logger.createRolloutLogger rolloutId name) level message status s
  = (s,
     map (Detached true)
       (map Fetch
          (posts w (Logger.transport w)
             (logged_payload (now w) rolloutId (name ++ "." ++ rolloutId)
                (toUpperCase level) message status))),
     Returns tt).
Proof.
  intros Hrid Hlevel.
  unfold Logger.write, log, detach, bind, ret.
  match goal with |- context [sendToFireworks w ?t ?info s] => set (info0 := info) end.
  assert (Hid : getRolloutId (Logger.transport w) (env w) info0 = Some rolloutId).
  { unfold getRolloutId. simpl. rewrite bool_decide_eq_false_2 by exact Hrid.
    reflexivity. }
  rewrite (sendToFireworks_run w _ info0 s rolloutId (Logger_transport_gateway w) Hid).
  cbv zeta.
  assert (Hpayload : buildPayload (now w) info0 rolloutId
                     = logged_payload (now w) rolloutId (name ++ "." ++ rolloutId)
                         (toUpperCase level) message status).
  { unfold buildPayload, logged_payload. subst info0.
    cbn -[or_else or_opt String.append getStatusInfo tag].
    rewrite (or_opt_Some level) by exact Hlevel.
    rewrite (or_else_Some level) by exact Hlevel.
    rewrite (or_else_Some (name ++ "." ++ rolloutId))
      by (apply append_nonempty_r; discriminate).
    f_equal. destruct status as [st|]; reflexivity. }
  rewrite Hpayload.
  set (payload := logged_payload _ _ _ _ _ _).
  destruct (fetch_outcome w (post (Logger.transport w) "/logs" payload)) as [st| |]
    eqn:Hfirst.
  - destruct (st =? 404) eqn:H404.
    + apply Z.eqb_eq in H404. subst st. unfold posts. rewrite Hfirst. reflexivity.
    + rewrite (posts_other w _ payload st Hfirst H404). reflexivity.
  - unfold posts. rewrite Hfirst. reflexivity.
  - unfold posts. rewrite Hfirst. reflexivity.
Qed.



(** X17. [logToFireworks] of [api/init.ts] makes one request and no more,
    also when the answer is 404: a POST to [/logs] under
    FW_TRACING_GATEWAY_BASE_URL (https://tracing.fireworks.ai when that is
    unset or empty; a slash that ends it is kept), with the key of the rollout
    in the Authorization header and the payload of a record of the logger
    [__main__.rolloutId] at level INFO. It returns unless the request stays
    pending. *)
Theorem logToFireworks_single_post {S} (w : World) (rolloutId message : string)
    (status : Status) (apiKey : string) (s : S) :
  let gateway := or_else (env w !! "FW_TRACING_GATEWAY_BASE_URL")
                   "https://tracing.fireworks.ai" in
  exists request,
    Init.logToFireworks w rolloutId message status apiKey s
    = (s, [Fetch request],
       match fetch_outcome w request with Pending => Hangs | _ => Returns tt end)
    /\ url request = gateway ++ "/logs"
    /\ method request = "POST"
    /\ headers request = [("Content-Type", "application/json");
                          ("Authorization", "Bearer " ++ apiKey);
                          ("User-Agent", "typescript-fetch/1.0.0")]
    /\ body request
       = logged_payload (now w) rolloutId ("__main__." ++ rolloutId) "INFO" message
           (Some status).
Proof.
  cbv zeta. exists (log_request w rolloutId message status apiKey).
  split; [apply logToFireworks_run|]. repeat split.
Qed.

(** ** Runs of the handlers *)

Lemma prop_object (fields : list (string * Json)) (key : string) :
  prop (JObject fields) key = Returns (prop_opt (JObject fields) key).
Proof. reflexivity. Qed.

Lemma bind_lift {S A B} (a : A) (k : A -> M S B) (s : S) :
  bind (lift (Returns a)) k s = k a s.
Proof. unfold bind, lift. destruct (k a s) as [[s2 t2] r]. reflexivity. Qed.


Lemma bind_modify {S B} (f : S -> S) (k : unit -> M S B) (s : S) :
  bind (modify f) k s = k tt (f s).
Proof. unfold bind, modify. destruct (k tt (f s)) as [[s2 t2] r]. reflexivity. Qed.

(** The handler of [api/init.ts] on a request that reaches the provider. *)
Lemma Init_run (w : World) (req : Request) (data : Json) (key : string)
    (sanitized : list Json) (p : CompletionParams) :
  req_method req = "POST" ->
  safeParse initRequestSchema (req_body req) = success data ->
  truthy (prop_opt data "messages") = true ->
  length_is_zero (prop_opt data "messages") = false ->
  Environment.resolveApiKey (env w) (as_string (prop_opt data "api_key")) = Some key ->
  map_throwing sanitize_message (array_items (prop_opt data "messages"))
  = Returns sanitized ->
  buildCompletionParams w (prop_opt data "completion_params") sanitized
    (prop_opt data "tools") = Returns p ->
  let rolloutId := as_string (prop_opt (prop_opt data "metadata") "rollout_id") in
  let locals := {| Init.rolloutId := rolloutId; Init.apiKey := Some key |} in
  let call := {| Async.apiKey := key; baseURL := prop_opt data "model_base_url";
                 params := p |} in
  Init.invoke w req
  = match create_outcome w call with
    | Returns _ =>
        let request :=
          log_request w (show rolloutId) ("Rollout " ++ show rolloutId ++ " completed")
            rolloutFinished key in
        (locals, [Create call; Fetch request],
         match fetch_outcome w request with
         | Pending => Hangs
         | _ => Returns (completed rolloutId)
         end)
    | Throws e =>
        let '(s2, t2, r) := Init.catch_block w e locals in (s2, Create call :: t2, r)
    | Hangs => (locals, [Create call], Hangs)
    end.
Proof.
  intros Hpost Hparse Htruthy Hlength Hkey Hsanitized Hparams.
  destruct (POST_only req Hpost) as (Ho & Hg & Hp).
  unfold Init.invoke, Init.handler. rewrite Ho, Hg, Hp. change (negb true) with false.
  cbv iota. unfold try_catch, Init.try_block. rewrite Hparse.
  destruct (safeParse_initRequest _ _ Hparse)
    as [_ (out & md & rid & -> & Hmd & Hrid & _)].
  rewrite !prop_object.
  pose proof (resolved_key_truthy _ _ _ Hkey) as Hne.
  unfold bind at 1. cbn [lift].
  assert (Hmeta : prop_opt (JObject out) "metadata" = JObject md)
    by (simpl; rewrite Hmd; reflexivity).
  rewrite Hmeta. rewrite prop_object.
  assert (Hr : prop_opt (JObject md) "rollout_id" = JString rid)
    by (simpl; rewrite Hrid; reflexivity).
  rewrite Hr. cbn [as_string show default].
  unfold bind, lift, modify, ret. cbn [Init.rolloutId Init.apiKey Init.initial].
  rewrite Htruthy, Hlength. cbn [negb orb].
  rewrite Hkey, Hne. cbn [negb]. rewrite Hsanitized, Hparams.
  unfold create.
  destruct (create_outcome w _) as [v|e|]; [|reflexivity..].
  rewrite logToFireworks_run. cbn [app].
  destruct (fetch_outcome w _); reflexivity.
Qed.

Lemma Init_catch_block_run (w : World) (e : Value) (rolloutId : option string)
    (key : string) (st : Status) (r : Response) :
  mapOpenAIErrorToStatus e = Returns st ->
  error_response e rolloutId = Returns r ->
  key <> "" ->
  let locals := {| Init.rolloutId := rolloutId; Init.apiKey := Some key |} in
  Init.catch_block w e locals
  = match rolloutId with
    | Some rid =>
        if bool_decide (rid = "") then (locals, [], Returns r)
        else
          let request :=
            log_request w rid ("Rollout " ++ rid ++ " failed: " ++ show (message_of e))
              st key in
          (locals, [Fetch request],
           match fetch_outcome w request with
           | Pending => Hangs
           | _ => Returns r
           end)
    | None => (locals, [], Returns r)
    end.
Proof.
  intros Hst Hr Hkey. cbv zeta.
  assert (Hobj : nullish e = false).
  { destruct e; try reflexivity; discriminate Hst. }
  unfold Init.catch_block. rewrite Hst.
  unfold bind at 1. cbn [lift]. unfold bind at 1. cbn [get Init.rolloutId Init.apiKey].
  rewrite Hr.
  destruct rolloutId as [rid|]; [|reflexivity].
  unfold Environment.truthy. rewrite (bool_decide_eq_false_2 (key = "")) by exact Hkey.
  case_bool_decide as Hrid; [reflexivity|]. cbn [negb andb].
  rewrite (get_message_returns e Hobj).
  unfold bind, lift. rewrite logToFireworks_run. cbn [app].
  destruct (fetch_outcome w _); reflexivity.
Qed.

Lemma Logger_info_written {S} (w : World) (rolloutId message : string)
    (status : option Status) (s : S) :
  rolloutId <> "" ->
  Logger.write w (Logger.createRolloutLogger rolloutId "init") "info" message status s
  = (s, written w rolloutId "INFO" message status, Returns tt).
Proof.
  intros Hrid. rewrite Logger_write_posts by (first [exact Hrid | discriminate]).
  reflexivity.
Qed.

Lemma Logger_error_written {S} (w : World) (rolloutId message : string)
    (status : option Status) (s : S) :
  rolloutId <> "" ->
  Logger.write w (Logger.createRolloutLogger rolloutId "init") "error" message status s
  = (s, written w rolloutId "ERROR" message status, Returns tt).
Proof.
  intros Hrid. rewrite Logger_write_posts by (first [exact Hrid | discriminate]).
  reflexivity.
Qed.



Lemma rollout_id_of_validated (req : Request) (data : Json) :
  safeParse initRequestSchema (req_body req) = success data ->
  exists rid, prop_opt (prop_opt data "metadata") "rollout_id" = JString rid.
Proof.
  intros Hparse.
  destruct (safeParse_initRequest _ _ Hparse)
    as [_ (out & md & rid & -> & Hmd & Hrid & _)].
  exists rid. simpl. rewrite Hmd. simpl. rewrite Hrid. reflexivity.
Qed.

(** X18. A rollout that the provider completes: the handler of
    [api/init.ts] calls the provider once, with the resolved key, the base
    URL of the request and the parameters built from it; then it posts one
    log record, 'Rollout <id> completed' with the status FINISHED, which it
    awaits; then it answers 200 'completed' with the rollout id. While the
    log request is pending there is no answer. *)
Theorem completed_rollout (w : World) (req : Request) (data : Json) (key : string)
    (sanitized : list Json) (p : CompletionParams) (v : Json) :
  req_method req = "POST" ->
  safeParse initRequestSchema (req_body req) = success data ->
  truthy (prop_opt data "messages") = true ->
  length_is_zero (prop_opt data "messages") = false ->
  Environment.resolveApiKey (env w) (as_string (prop_opt data "api_key")) = Some key ->
  map_throwing sanitize_message (array_items (prop_opt data "messages"))
  = Returns sanitized ->
  buildCompletionParams w (prop_opt data "completion_params") sanitized
    (prop_opt data "tools") = Returns p ->
  let call := {| Async.apiKey := key; baseURL := prop_opt data "model_base_url";
                 params := p |} in
  create_outcome w call = Returns v ->
  exists rid,
    prop_opt (prop_opt data "metadata") "rollout_id" = JString rid
    /\ let request :=
         log_request w rid ("Rollout " ++ rid ++ " completed") rolloutFinished key in
       Init.invoke w req
       = ({| Init.rolloutId := Some rid; Init.apiKey := Some key |},
          [Create call; Fetch request],
          match fetch_outcome w request with
          | Pending => Hangs
          | _ => Returns (completed (Some rid))
          end)
       /\ si_code <$> Tracing.status (body request) = Some (Some (Qc_of_Z 100)).
Proof.
  intros Hpost Hparse Htruthy Hlength Hkey Hsanitized Hparams call Hcall.
  destruct (rollout_id_of_validated req data Hparse) as [rid Hrid].
  exists rid. split; [exact Hrid|]. cbv zeta. split; [|reflexivity].
  rewrite (Init_run w req data key sanitized p Hpost Hparse Htruthy Hlength Hkey
             Hsanitized Hparams).
  cbv zeta. fold call. rewrite Hcall, Hrid. reflexivity.
Qed.

Lemma completed_rollout_witness :
  exists rid,
    prop_opt (prop_opt Cases.validated "metadata") "rollout_id" = JString rid
    /\ let request :=
         log_request Samples.world rid ("Rollout " ++ rid ++ " completed")
           rolloutFinished "fw_3ZkA9q7" in
       Init.invoke Samples.world Samples.request
       = ({| Init.rolloutId := Some rid; Init.apiKey := Some "fw_3ZkA9q7" |},
          [Create Cases.call; Fetch request],
          match fetch_outcome Samples.world request with
          | Pending => Hangs
          | _ => Returns (completed (Some rid))
          end)
       /\ si_code <$> Tracing.status (body request) = Some (Some (Qc_of_Z 100)).
Proof.
  apply (completed_rollout Samples.world Samples.request Cases.validated "fw_3ZkA9q7"
           Cases.sanitized Cases.parameters (JObject [])); reflexivity.
Defined.

(** X19. A rollout that the provider fails with a value other than [null]
    and [undefined]: the handler of [api/init.ts] calls the provider once,
    posts one log record, 'Rollout <id> failed: <message>' with the status
    that [mapOpenAIErrorToStatus] gives the error, awaits it, and answers
    with the error response; when the rollout id is the empty string, which
    validation lets pass, it answers without posting a record. *)
Theorem failed_rollout (w : World) (req : Request) (data : Json) (key : string)
    (sanitized : list Json) (p : CompletionParams) (e : Value) :
  req_method req = "POST" ->
  safeParse initRequestSchema (req_body req) = success data ->
  truthy (prop_opt data "messages") = true ->
  length_is_zero (prop_opt data "messages") = false ->
  Environment.resolveApiKey (env w) (as_string (prop_opt data "api_key")) = Some key ->
  map_throwing sanitize_message (array_items (prop_opt data "messages"))
  = Returns sanitized ->
  buildCompletionParams w (prop_opt data "completion_params") sanitized
    (prop_opt data "tools") = Returns p ->
  let call := {| Async.apiKey := key; baseURL := prop_opt data "model_base_url";
                 params := p |} in
  create_outcome w call = Throws e ->
  nullish e = false ->
  exists rid st r,
    prop_opt (prop_opt data "metadata") "rollout_id" = JString rid
    /\ mapOpenAIErrorToStatus e = Returns st
    /\ error_response e (Some rid) = Returns r
    /\ let locals := {| Init.rolloutId := Some rid; Init.apiKey := Some key |} in
       let request :=
         log_request w rid ("Rollout " ++ rid ++ " failed: " ++ show (message_of e))
           st key in
       (rid <> "" ->
        Init.invoke w req
        = (locals, [Create call; Fetch request],
           match fetch_outcome w request with
           | Pending => Hangs
           | _ => Returns r
           end))
       /\ (rid = "" -> Init.invoke w req = (locals, [Create call], Returns r)).
Proof.
  intros Hpost Hparse Htruthy Hlength Hkey Hsanitized Hparams call Hcall Hobj.
  destruct (rollout_id_of_validated req data Hparse) as [rid Hrid].
  destruct (mapOpenAIErrorToStatus_returns e Hobj) as [st Hst].
  destruct (error_response_returns e (Some rid) Hobj) as [r Hr].
  exists rid, st, r. split; [exact Hrid|]. split; [exact Hst|]. split; [exact Hr|].
  cbv zeta.
  rewrite (Init_run w req data key sanitized p Hpost Hparse Htruthy Hlength Hkey
             Hsanitized Hparams).
  cbv zeta. fold call. rewrite Hcall, Hrid. cbn [as_string].
  rewrite (Init_catch_block_run w e (Some rid) key st r Hst Hr
             (proj1 (resolved_key _ _ _ Hkey))).
  cbv zeta. split.
  - intros Hne. rewrite bool_decide_eq_false_2 by exact Hne. reflexivity.
  - intros ->. reflexivity.
Qed.

Lemma failed_rollout_witness :
  exists rid st r,
    prop_opt (prop_opt Cases.validated "metadata") "rollout_id" = JString rid
    /\ mapOpenAIErrorToStatus Samples.rate_limited = Returns st
    /\ error_response Samples.rate_limited (Some rid) = Returns r
    /\ let locals := {| Init.rolloutId := Some rid; Init.apiKey := Some "fw_3ZkA9q7" |} in
       let request :=
         log_request Cases.busy_world rid
           ("Rollout " ++ rid ++ " failed: " ++ show (message_of Samples.rate_limited))
           st "fw_3ZkA9q7" in
       (rid <> "" ->
        Init.invoke Cases.busy_world Samples.request
        = (locals, [Create Cases.call; Fetch request],
           match fetch_outcome Cases.busy_world request with
           | Pending => Hangs
           | _ => Returns r
           end))
       /\ (rid = "" ->
           Init.invoke Cases.busy_world Samples.request
           = (locals, [Create Cases.call], Returns r)).
Proof.
  apply (failed_rollout Cases.busy_world Samples.request Cases.validated "fw_3ZkA9q7"
           Cases.sanitized Cases.parameters Samples.rate_limited); reflexivity.
Defined.



(** ** Every request *)

Lemma other_method (w : World) (req : Request) :
  req_method req <> "POST" ->
  Init.invoke w req
  = (Init.initial, [], Returns (other_method_response (req_method req)))
  /\ InitLogged.invoke w req
     = (InitLogged.initial, [], Returns (other_method_response (req_method req))).
Proof.
  intros Hm.
  unfold Init.invoke, InitLogged.invoke, Logger.withFireworksLogging,
    Init.handler, InitLogged.handler, other_method_response.
  rewrite (bool_decide_eq_false_2 (req_method req = "POST")) by exact Hm.
  cbn [negb]. repeat case_bool_decide; split; reflexivity.
Qed.

(** X21. A request whose method is not POST is answered at once by both
    versions of the handler, its body unread: OPTIONS with 200 and an empty
    object, GET with 200 and the health report, any other method with 405 and
    'Method <method> not allowed'. Nothing is validated, sent or logged, and
    the names of methods are compared as they are written. *)
Theorem other_methods_are_answered (w : World) (req : Request) :
  req_method req <> "POST" ->
  let response := other_method_response (req_method req) in
  Init.invoke w req = (Init.initial, [], Returns response)
  /\ InitLogged.invoke w req = (InitLogged.initial, [], Returns response)
  /\ (req_method req = "OPTIONS" ->
      response = {| res_status := 200; res_json := JObject [] |})
  /\ (req_method req = "GET" -> response = {| res_status := 200; res_json := health |})
  /\ (req_method req <> "OPTIONS" -> req_method req <> "GET" ->
      res_status response = 405).
Proof.
  intros Hm response. destruct (other_method w req Hm) as [Hinit Hlogged].
  split; [exact Hinit|]. split; [exact Hlogged|]. subst response.
  unfold other_method_response. split; [|split].
  - intros ->. reflexivity.
  - intros ->. reflexivity.
  - intros Ho Hg. rewrite !bool_decide_eq_false_2 by assumption. reflexivity.
Qed.

Lemma other_methods_are_answered_witness :
  Init.invoke Samples.world {| req_method := "get"; req_body := JNull |}
  = (Init.initial, [],
     Returns {| res_status := 405;
                res_json := JObject [("error", JString "Method get not allowed")] |}).
Proof.
  apply (other_methods_are_answered Samples.world
           {| req_method := "get"; req_body := JNull |}).
  discriminate.
Defined.

Lemma bind_answers {S A B} (P : B -> Prop) (m : M S A) (k : A -> M S B) (s : S) :
  (forall a s1, answers P (k a s1)) -> answers P (bind m k s).
Proof.
  intros Hk x. rewrite completion_bind.
  destruct (m s) as [[s1 t1] [a|e|]]; try discriminate. apply Hk.
Qed.

Lemma try_catch_answers {S A} (P : A -> Prop) (body : M S A) (h : Value -> M S A)
    (s : S) :
  answers P (body s) -> (forall e s1, answers P (h e s1)) ->
  answers P (try_catch body h s).
Proof.
  intros Hb Hh x. unfold try_catch, answers, completion in *.
  destruct (body s) as [[s1 t1] [a|e|]]; simpl in *; try discriminate.
  - exact (Hb x).
  - specialize (Hh e s1 x). destruct (h e s1) as [[s2 t2] r]. exact Hh.
Qed.

Lemma ret_answers {S A} (P : A -> Prop) (x : A) (s : S) : P x -> answers P (ret x s).
Proof. intros Hx y [= <-]. exact Hx. Qed.

Lemma error_response_answers {S} (P : Response -> Prop) (e : Value)
    (rolloutId : option string) (s : S) :
  (forall status, status ∈ error_statuses -> forall r, res_status r = status -> P r) ->
  answers P (lift (error_response e rolloutId) s).
Proof.
  intros HP r Hr. unfold completion, lift in Hr. simpl in Hr.
  exact (HP _ (error_response_status _ _ _ Hr) r eq_refl).
Qed.

(** Walks a run along its binds to the responses it can return. *)
Ltac answering leaf :=
  repeat first
    [ leaf
    | apply bind_answers; intros ? ?
    | apply try_catch_answers; [|intros ? ?]
    | match goal with
      | |- answers _ ((if ?c then _ else _) _) => destruct c
      | |- answers _ ((match ?x with _ => _ end) _) => destruct x
      end ].

Lemma status_of_error (status : Z) :
  status ∈ error_statuses -> status ∈ response_statuses /\ status <> 200.
Proof.
  unfold error_statuses, response_statuses. rewrite !elem_of_cons, !elem_of_nil.
  intros H. split; [tauto|]. intros ->.
  repeat (destruct H as [H|H]; [discriminate|]). exact H.
Qed.

(** X22. Whatever the request and the world, a response of either version
    of the handler has one of the statuses 200, 400, 401, 403, 404, 405, 408,
    422, 429, 500 and 502. *)
Theorem response_statuses_are_known (w : World) (req : Request) :
  answers (fun r => res_status r ∈ response_statuses) (Init.invoke w req)
  /\ answers (fun r => res_status r ∈ response_statuses) (InitLogged.invoke w req).
Proof.
  split.
  - unfold Init.invoke, Init.handler, Init.try_block, Init.catch_block.
    answering ltac:(first
      [ apply ret_answers; by_table
      | apply error_response_answers; intros status Hin r ->;
        apply (status_of_error _ Hin) ]).
  - unfold InitLogged.invoke, Logger.withFireworksLogging, InitLogged.handler,
      InitLogged.try_block, InitLogged.catch_block.
    cbv zeta.
    answering ltac:(first
      [ apply ret_answers; by_table
      | apply error_response_answers; intros status Hin r ->;
        apply (status_of_error _ Hin) ]).
Qed.























Lemma bind_called_once {S A} (w : World) (m : M S A) (k : A -> M S Response) (s : S) :
  idle (m s) -> (forall a s1, called_once w (k a s1)) -> called_once w (bind m k s).
Proof.
  unfold called_once, idle. intros Hm Hk.
  rewrite creates_bind, completion_bind, Hm. cbn [app].
  destruct (m s) as [[s1 t1] [a|e|]]; [apply Hk|..];
    (split; [simpl; lia|discriminate]).
Qed.

Lemma create_called_once {S} (w : World) (c : CompletionCall)
    (k : Json -> M S Response) (s : S) :
  (forall a s1, idle (k a s1)) -> called_once w (bind (create w c) k s).
Proof.
  unfold called_once, idle. intros Hk.
  rewrite creates_bind, completion_bind. unfold create. cbn [trace creates fst snd app].
  destruct (create_outcome w c) as [a|e|] eqn:Hc;
    [rewrite Hk|..]; (split; [simpl; lia|]); try discriminate.
  intros x _ _. eauto.
Qed.

Lemma ret_called_once {S} (w : World) (x : Response) (s : S) :
  res_status x <> 200 -> called_once w (ret x s).
Proof.
  intros Hx. split; [simpl; lia|]. intros y [= <-] Hy. contradiction.
Qed.

Lemma try_catch_called_once {S} (w : World) (body : M S Response)
    (h : Value -> M S Response) (s : S) :
  called_once w (body s) ->
  (forall e s1, idle (h e s1) /\ answers (fun x => res_status x <> 200) (h e s1)) ->
  called_once w (try_catch body h s).
Proof.
  unfold called_once. intros [Hlen Hb] Hh. rewrite creates_try_catch.
  unfold try_catch, completion, idle, answers, trace, completion in *.
  destruct (body s) as [[s1 t1] [a|e|]]; simpl in *; rewrite ?app_nil_r.
  - split; [exact Hlen|exact Hb].
  - destruct (Hh e s1) as [Hidle Hans]. rewrite Hidle, app_nil_r.
    split; [exact Hlen|].
    destruct (h e s1) as [[s2 t2] r]. simpl in *.
    intros x Hx H200. destruct (Hans x Hx H200).
  - split; [exact Hlen|discriminate].
Qed.

(** Walks a run up to the call to the provider; what follows the call makes
    no other. *)
Ltac calling leaf idle_leaf :=
  repeat first
    [ leaf
    | apply create_called_once; intros ? ?;
      along (@bind_idle) (@try_catch_idle) idle_leaf
    | apply bind_called_once; [idle_leaf|intros ? ?]
    | match goal with
      | |- called_once _ ((if ?c then _ else _) _) => destruct c
      | |- called_once _ ((match ?x with _ => _ end) _) => destruct x
      end ].

Lemma catch_blocks_not_200 (w : World) (e : Value) :
  (forall s, answers (fun x => res_status x <> 200) (Init.catch_block w e s))
  /\ (forall s, answers (fun x => res_status x <> 200) (InitLogged.catch_block w e s)).
Proof.
  split; intros s; [unfold Init.catch_block|unfold InitLogged.catch_block];
    answering ltac:(apply error_response_answers; intros status Hin r ->;
                    apply (status_of_error _ Hin)).
Qed.

(** X24. A POST makes either version of the handler call the provider at
    most once, and a response with status 200 comes only after that one call
    has returned: validation errors, a missing key and failures are never
    answered with 200, and nothing is retried. *)
Theorem provider_called_at_most_once (w : World) (req : Request) :
  req_method req = "POST" ->
  called_once w (Init.invoke w req) /\ called_once w (InitLogged.invoke w req).
Proof.
  intros Hpost. destruct (POST_only req Hpost) as (Ho & Hg & Hp).
  split.
  - unfold Init.invoke, Init.handler. rewrite Ho, Hg, Hp.
    change (negb true) with false. cbv iota. apply try_catch_called_once.
    + unfold Init.try_block.
      calling ltac:(apply ret_called_once; simpl; discriminate)
              ltac:(first [ apply logToFireworks_idle | reflexivity ]).
    + intros e s1.
      split; [apply Init_catch_block_idle|apply (proj1 (catch_blocks_not_200 w e))].
  - unfold InitLogged.invoke, Logger.withFireworksLogging, InitLogged.handler.
    rewrite Ho, Hg, Hp. change (negb true) with false. cbv iota.
    apply try_catch_called_once.
    + unfold InitLogged.try_block, Logger.info, Logger.error. cbv zeta.
      calling ltac:(apply ret_called_once; simpl; discriminate)
              ltac:(first [ apply Logger_write_quiet | reflexivity ]).
    + intros e s1.
      split; [apply InitLogged_catch_block_idle
             |apply (proj2 (catch_blocks_not_200 w e))].
Qed.

Lemma provider_called_at_most_once_witness :
  called_once Samples.world (Init.invoke Samples.world Samples.request)
  /\ called_once Samples.world (InitLogged.invoke Samples.world Samples.request).
Proof.
  apply (provider_called_at_most_once Samples.world Samples.request). reflexivity.
Defined.

Lemma no_messages_test (data : Json) :
  validated_request data ->
  (negb (truthy (prop_opt data "messages")) || length_is_zero (prop_opt data "messages")
   = true <-> array_items (prop_opt data "messages") = []).
Proof.
  intros (out & md & rid & -> & _ & _ & Hmessages). cbv zeta in Hmessages.
  change (prop_opt (JObject out) "messages")
    with (default JUndefined (lookup_field "messages" out)).
  destruct Hmessages as [-> | [-> | (items & -> & _)]]; try (split; reflexivity).
  destruct items; simpl; split; congruence.
Qed.

Lemma Init_no_messages (w : World) (req : Request) (data : Json) :
  req_method req = "POST" ->
  safeParse initRequestSchema (req_body req) = success data ->
  array_items (prop_opt data "messages") = [] ->
  let rolloutId := as_string (prop_opt (prop_opt data "metadata") "rollout_id") in
  Init.invoke w req
  = ({| Init.rolloutId := rolloutId; Init.apiKey := None |}, [],
     Returns (no_messages rolloutId)).
Proof.
  intros Hpost Hparse Hnone.
  destruct (POST_only req Hpost) as (Ho & Hg & Hp).
  unfold Init.invoke, Init.handler. rewrite Ho, Hg, Hp. change (negb true) with false.
  cbv iota. unfold try_catch, Init.try_block. rewrite Hparse.
  destruct (safeParse_initRequest _ _ Hparse) as [_ Hvalid].
  apply (no_messages_test _ Hvalid) in Hnone.
  destruct Hvalid as (out & md & rid & -> & Hmd & Hrid & _).
  cbv beta iota. rewrite !prop_object, bind_lift.
  assert (Hmeta : prop_opt (JObject out) "metadata" = JObject md)
    by (simpl; rewrite Hmd; reflexivity).
  rewrite Hmeta, prop_object, bind_lift. cbv zeta.
  rewrite bind_modify, bind_lift, Hnone. reflexivity.
Qed.

(** X25. A request that passes validation without messages (the key is
    absent, [null] or an empty array) is answered 400 'messages is required and
    cannot be empty' with its rollout id. No key is resolved and the provider
    is not called; the handler of [api/init.ts] posts nothing, the handler with
    the rollout logger writes 'Received rollout request' and the error, and
    nothing else. *)
Theorem no_messages_is_rejected (w : World) (req : Request) (data : Json) (rid : string) :
  req_method req = "POST" ->
  safeParse initRequestSchema (req_body req) = success data ->
  array_items (prop_opt data "messages") = [] ->
  prop_opt (prop_opt data "metadata") "rollout_id" = JString rid ->
  Init.invoke w req
  = ({| Init.rolloutId := Some rid; Init.apiKey := None |}, [],
     Returns (no_messages (Some rid)))
  /\ (rid <> "" ->
      InitLogged.invoke w req
      = ({| InitLogged.rolloutId := Some rid; InitLogged.apiKey := None;
            InitLogged.logger := Some (Logger.createRolloutLogger rid "init") |},
         (written w rid "INFO" "Received rollout request" None
          ++ written w rid "ERROR" "messages is required and cannot be empty" None)%list,
         Returns (no_messages (Some rid)))).
Proof.
  intros Hpost Hparse Hnone Hrid. split.
  - rewrite (Init_no_messages w req data Hpost Hparse Hnone). cbv zeta.
    rewrite Hrid. reflexivity.
  - intros Hne. destruct (POST_only req Hpost) as (Ho & Hg & Hp).
    unfold InitLogged.invoke, Logger.withFireworksLogging, InitLogged.handler.
    rewrite Ho, Hg, Hp. change (negb true) with false. cbv iota.
    unfold try_catch, InitLogged.try_block, Logger.info, Logger.error. rewrite Hparse.
    destruct (safeParse_initRequest _ _ Hparse) as [_ Hvalid].
    apply (no_messages_test _ Hvalid) in Hnone.
    destruct Hvalid as (out & md & rid' & -> & Hmd & Hrid' & _).
    cbv beta iota. rewrite !prop_object, bind_lift.
    assert (Hmeta : prop_opt (JObject out) "metadata" = JObject md)
      by (simpl; rewrite Hmd; reflexivity).
    rewrite Hmeta in Hrid |- *. rewrite prop_object, bind_lift, Hrid. cbv zeta.
    cbn [as_string show default].
    rewrite bind_modify. unfold bind at 1. rewrite Logger_info_written by exact Hne.
    rewrite bind_lift, Hnone.
    unfold bind. rewrite Logger_error_written by exact Hne.
    unfold ret. cbn [app]. rewrite app_nil_r. reflexivity.
Qed.

Lemma no_messages_is_rejected_witness :
  Init.invoke Samples.world Cases.request_without_messages
  = ({| Init.rolloutId := Some "r1"; Init.apiKey := None |}, [],
     Returns (no_messages (Some "r1"))).
Proof.
  apply (no_messages_is_rejected Samples.world Cases.request_without_messages
           (JObject [ ("completion_params", JObject []);
                      ("messages", JArray []);
                      ("metadata", Samples.metadata) ]) "r1");
    reflexivity.
Defined.











(** ** The parts of a call *)

Lemma substring_empty (n m : nat) : substring n m "" = "".
Proof. destruct n, m; reflexivity. Qed.

Lemma substring_all (s : string) (m : nat) :
  (String.length s <= m)%nat -> substring 0 m s = s.
Proof.
  revert m. induction s as [|a rest IH]; intros m Hm.
  - destruct m; reflexivity.
  - destruct m as [|m]; [simpl in Hm; lia|].
    simpl. rewrite IH by (simpl in Hm; lia). reflexivity.
Qed.

Lemma substring_append (s : string) (n m1 m2 : nat) :
  substring n (m1 + m2) s = substring n m1 s ++ substring (n + m1) m2 s.
Proof.
  revert n m1. induction s as [|a rest IH]; intros n m1.
  - rewrite !substring_empty. reflexivity.
  - destruct n as [|n].
    + destruct m1 as [|m1]; [reflexivity|].
      cbn [Nat.add substring append]. rewrite (IH 0%nat m1). reflexivity.
    + cbn [Nat.add substring]. apply IH.
Qed.

Lemma substring_rest (s : string) (n m m' : nat) :
  (String.length s <= n + m)%nat -> (String.length s <= n + m')%nat ->
  substring n m s = substring n m' s.
Proof.
  revert n. induction s as [|a rest IH]; intros n Hm Hm'.
  - rewrite !substring_empty. reflexivity.
  - destruct n as [|n].
    + rewrite !substring_all by (simpl in *; lia). reflexivity.
    + cbn [substring]. apply IH; simpl in *; lia.
Qed.

Lemma length_substring (s : string) (n m : nat) :
  String.length (substring n m s) = Nat.min m (String.length s - n).
Proof.
  revert n m. induction s as [|a rest IH]; intros n m.
  - rewrite substring_empty. simpl. lia.
  - destruct n as [|n].
    + destruct m as [|m]; [reflexivity|]. cbn [substring String.length].
      rewrite IH. simpl. lia.
    + cbn [substring]. rewrite IH. reflexivity.
Qed.

Lemma length_of_append (a b : string) :
  String.length (a ++ b) = (String.length a + String.length b)%nat.
Proof. induction a as [|c a IH]; [reflexivity|]. simpl. rewrite IH. reflexivity. Qed.

(** X27. The masked key shows the first eight and the last four characters
    of the key around three dots. A key of twelve characters or more has its
    middle hidden; a key of at most eight characters is shown in full before
    the dots, and a key of at most four is shown in full twice. *)
Theorem maskedApiKey_shape (apiKey : string) :
  let n := String.length apiKey in
  String.length (maskedApiKey apiKey) = (Nat.min n 8 + 3 + Nat.min n 4)%nat
  /\ ((n <= 8)%nat ->
      maskedApiKey apiKey = apiKey ++ "..." ++ substring (n - 4) n apiKey)
  /\ ((n <= 4)%nat -> maskedApiKey apiKey = apiKey ++ "..." ++ apiKey)
  /\ ((12 <= n)%nat ->
      exists shown hidden last,
        apiKey = shown ++ hidden ++ last
        /\ String.length shown = 8%nat /\ String.length last = 4%nat
        /\ String.length hidden = (n - 12)%nat
        /\ maskedApiKey apiKey = shown ++ "..." ++ last).
Proof.
  cbv zeta. unfold maskedApiKey. split; [|split; [|split]].
  - rewrite !length_of_append, !length_substring. simpl String.length. lia.
  - intros Hn. rewrite substring_all by lia. reflexivity.
  - intros Hn. rewrite substring_all by lia.
    replace (String.length apiKey - 4)%nat with 0%nat by lia.
    rewrite substring_all by lia. reflexivity.
  - intros Hn. set (n := String.length apiKey) in *.
    exists (substring 0 8 apiKey), (substring 8 (n - 12) apiKey),
           (substring (n - 4) n apiKey).
    split; [|split; [|split; [|split]]].
    + rewrite (substring_rest apiKey (n - 4) n 4) by (fold n; lia).
      replace (n - 4)%nat with (8 + (n - 12))%nat by lia.
      rewrite <- !substring_append. symmetry. apply substring_all. fold n. lia.
    + rewrite length_substring. fold n. lia.
    + rewrite length_substring. fold n. lia.
    + rewrite length_substring. fold n. lia.
    + reflexivity.
Qed.

Lemma prop_not_nullish (v : Json) (key : string) :
  is_nullish v = false -> prop v key = Returns (prop_opt v key).
Proof. destruct v; simpl; intros H; try discriminate; reflexivity. Qed.

Lemma prop_nullish (v : Json) (key : string) :
  is_nullish v = true -> exists m, prop v key = Throws (TypeError m).
Proof. destruct v; simpl; intros H; try discriminate; eexists; reflexivity. Qed.

Lemma map_tool_spec (tool : Json) :
  let f := prop_opt tool "function" in
  (is_nullish tool = false -> is_nullish f = false ->
   map_tool tool = Returns (rebuilt_tool f))
  /\ (is_nullish tool = true \/ is_nullish f = true ->
      exists m, map_tool tool = Throws (TypeError m)).
Proof.
  cbv zeta. unfold map_tool. split.
  - intros Htool Hf. rewrite (prop_not_nullish tool _ Htool). cbn [cbind].
    rewrite !(prop_not_nullish _ _ Hf). cbn [cbind]. unfold rebuilt_tool, spread_if.
    cbn [List.filter snd].
    destruct (truthy (prop_opt (prop_opt tool "function") "description")),
             (truthy (prop_opt (prop_opt tool "function") "parameters")); reflexivity.
  - intros [Htool|Hf].
    + destruct (prop_nullish tool "function" Htool) as [m ->]. eexists. reflexivity.
    + destruct (is_nullish tool) eqn:Htool.
      * destruct (prop_nullish tool "function" Htool) as [m ->]. eexists. reflexivity.
      * rewrite (prop_not_nullish tool _ Htool). cbn [cbind].
        destruct (prop_nullish _ "name" Hf) as [m ->]. eexists. reflexivity.
Qed.

Lemma map_throwing_returns (f : Json -> Completion Json) (g : Json -> Json)
    (items : list Json) :
  Forall (fun x => f x = Returns (g x)) items ->
  map_throwing f items = Returns (map g items).
Proof.
  induction 1 as [|x rest Hx _ IH]; [reflexivity|].
  simpl. rewrite Hx, IH. reflexivity.
Qed.

Lemma usable_tools_are_rebuilt (items : list Json) :
  forallb usable_tool items = true ->
  map_throwing map_tool items
  = Returns (map (fun tool => rebuilt_tool (prop_opt tool "function")) items).
Proof.
  intros Hall. apply map_throwing_returns. apply Forall_forall.
  intros tool Hin. rewrite forallb_forall in Hall.
  specialize (Hall tool (proj1 (list_elem_of_In _ _) Hin)).
  unfold usable_tool in Hall. apply andb_true_iff in Hall as [Ht Hf].
  apply negb_true_iff in Ht, Hf. exact (proj1 (map_tool_spec tool) Ht Hf).
Qed.

Lemma unusable_tool_throws (items : list Json) :
  forallb usable_tool items = false ->
  exists m, map_throwing map_tool items = Throws (TypeError m).
Proof.
  induction items as [|tool rest IH]; [discriminate|].
  simpl. destruct (usable_tool tool) eqn:Htool.
  - intros Hrest. destruct (IH Hrest) as [m Hm].
    unfold usable_tool in Htool. apply andb_true_iff in Htool as [Ht Hf].
    apply negb_true_iff in Ht, Hf.
    rewrite (proj1 (map_tool_spec tool) Ht Hf). simpl. rewrite Hm. eauto.
  - intros _. unfold usable_tool in Htool. apply andb_false_iff in Htool.
    destruct (proj2 (map_tool_spec tool)) as [m ->]; [|eauto].
    destruct Htool as [H|H]; apply negb_false_iff in H; auto.
Qed.

(** X28. Tools are sent only when the request holds an array of them that
    is not empty. Each tool is rebuilt: of a tool only its [function] is read,
    and of that the name, and the description and the parameters when they
    are truthy; every other property of the tool is dropped. A tool that is
    [null] or has no [function] makes the construction throw a TypeError
    (validation lets any value pass as a tool). *)
Theorem tools_are_rebuilt (w : World) (completion_params : Json)
    (sanitizedMessages : list Json) (items : list Json) :
  (forall tools, tools = JUndefined \/ tools = JNull \/ tools = JArray [] ->
     exists p, buildCompletionParams w completion_params sanitizedMessages tools
               = Returns p /\ Async.tools p = None)
  /\ (items <> [] -> forallb usable_tool items = true ->
      exists p, buildCompletionParams w completion_params sanitizedMessages (JArray items)
                = Returns p
                /\ Async.tools p
                   = Some (map (fun tool => rebuilt_tool (prop_opt tool "function")) items))
  /\ (forallb usable_tool items = false ->
      exists m, buildCompletionParams w completion_params sanitizedMessages (JArray items)
                = Throws (TypeError m)).
Proof.
  unfold buildCompletionParams. split; [|split].
  - intros tools [-> | [-> | ->]]; eexists; split; reflexivity.
  - intros Hsome Hall. destruct items as [|x rest]; [congruence|].
    cbn [truthy length_positive andb array_items].
    rewrite (usable_tools_are_rebuilt _ Hall). eexists. split; reflexivity.
  - intros Hbad. destruct items as [|x rest]; [discriminate|].
    cbn [truthy length_positive andb array_items].
    destruct (unusable_tool_throws _ Hbad) as [m ->]. eauto.
Qed.

(** X29. A message that [messageSchema] accepts is an object with a role,
    which validation leaves as it is. Either the role is system, user or
    assistant and the validated message has keys of the first shape only; or
    the role is tool, the message holds a string [content] and a string
    [tool_call_id], and the validated message has none but the keys role,
    content, tool_call_id and name. Keys that the shape does not name are
    removed, and no key is there twice. *)
Theorem messageSchema_shapes (path : list PathItem) (input d : Json) :
  parse messageSchema path input = Valid d ->
  exists fields out role,
    input = JObject fields /\ d = JObject out /\ NoDup (out.*1)
    /\ lookup_field "role" fields = Some (JString role)
    /\ lookup_field "role" out = Some (JString role)
    /\ ((role ∈ ["system"; "user"; "assistant"] /\ out.*1 ⊆ chat_message_keys)
        \/ (role = "tool" /\ out.*1 ⊆ tool_message_keys
            /\ has_string "content" fields /\ has_string "content" out
            /\ has_string "tool_call_id" fields /\ has_string "tool_call_id" out)).
Proof.
  unfold messageSchema.
  rewrite parse_union, !parse_options_cons, parse_options_nil.
  match goal with
  | |- context [parse (z_object ?shape) path input] =>
      destruct (parse (z_object shape) path input) as [d1|] eqn:Hfirst
  end.
  - intros [= <-].
    apply parse_object in Hfirst as (fields & out & -> & -> & Hkeys & Hsub & Hnd);
      [|simpl; nodup_strings].
    pose proof (Hkeys "role" _ ltac:(apply elem_of_cons; left; reflexivity)) as Hrole.
    simpl in Hrole.
    destruct (default JUndefined (lookup_field "role" fields)) as [ | | | |r| | ] eqn:Hin;
      try discriminate.
    case_bool_decide as Hr; [|discriminate]. injection Hrole as Hout.
    exists fields, out, r. split; [reflexivity|]. split; [reflexivity|].
    split; [exact Hnd|].
    split; [apply default_lookup_string; exact Hin|].
    split; [apply default_lookup_string; congruence|].
    left. split; [exact Hr|exact Hsub].
  - match goal with
    | |- context [parse (z_object ?shape) path input] =>
        destruct (parse (z_object shape) path input) as [d2|] eqn:Hsecond
    end; [|discriminate].
    intros [= <-].
    apply parse_object in Hsecond as (fields & out & -> & -> & Hkeys & Hsub & Hnd);
      [|simpl; nodup_strings].
    pose proof (Hkeys "role" _ ltac:(apply elem_of_cons; left; reflexivity)) as Hrole.
    simpl in Hrole.
    destruct (default JUndefined (lookup_field "role" fields)) as [ | | | |r| | ] eqn:Hin;
      try discriminate.
    case_bool_decide as Hr; [|discriminate]. injection Hrole as Hout.
    exists fields, out, r. split; [reflexivity|]. split; [reflexivity|].
    split; [exact Hnd|].
    split; [apply default_lookup_string; exact Hin|].
    split; [apply default_lookup_string; congruence|].
    right. split; [exact Hr|]. split; [exact Hsub|].
    destruct (string_key path _ fields out "content" Hkeys ltac:(in_shape)) as [Hc Hc'].
    destruct (string_key path _ fields out "tool_call_id" Hkeys ltac:(in_shape))
      as [Ht Ht'].
    auto.
Qed.

Lemma messageSchema_shapes_witness :
  exists fields out role,
    Cases.tool_message = JObject fields
    /\ JObject [ ("role", JString "tool"); ("content", JString "<svg/>");
                 ("tool_call_id", JString "call_1") ] = JObject out
    /\ NoDup (out.*1)
    /\ lookup_field "role" fields = Some (JString role)
    /\ lookup_field "role" out = Some (JString role)
    /\ ((role ∈ ["system"; "user"; "assistant"] /\ out.*1 ⊆ chat_message_keys)
        \/ (role = "tool" /\ out.*1 ⊆ tool_message_keys
            /\ has_string "content" fields /\ has_string "content" out
            /\ has_string "tool_call_id" fields /\ has_string "tool_call_id" out)).
Proof.
  apply (messageSchema_shapes [Key "messages"; Index 0] Cases.tool_message).
  reflexivity.
Defined.
